(** * gochoreo / pkg/version: versioned-component dispatch and migration core

    A shallow embedding of the Go package [version] (version.go, detector.go,
    manager.go, migration.go, metrics.go, errors.go) together with the
    properties its specification states about it.

    Conventions.
    - Go [string] is a byte sequence: Rocq [string] (a list of [ascii]).
    - Go [int] / [int64] is a 64-bit two's complement integer: [Z], with the
      wrap-around of arithmetic written out ([wrap64]).
    - Go [map[string]T] is [gmap string T]; a [range] over such a map visits
      the entries in an unspecified order, which is modelled by an explicit
      enumeration (any permutation of [map_to_list]).
    - [(T, error)] results are [Result T].  *)

From Stdlib Require Import ZArith String Ascii List Lia SpecFloat.
From Stdlib Require Import DecimalString DecimalPos.
From stdpp Require Import base option list gmap strings fin_maps sorting.

Local Open Scope string_scope.
Local Open Scope Z_scope.

(* ===================================================================== *)
(** ** Go standard library: [strings], [strconv], [fmt]                   *)
(* ===================================================================== *)

Module GoStrings.

  (** [strings.HasPrefix(s, p)]. *)
Fixpoint HasPrefix (s p : string) {struct p} : bool :=
    match p with
    | EmptyString => true
    | String b p' =>
        match s with
        | EmptyString => false
        | String a s' => if Ascii.eqb a b then HasPrefix s' p' else false
        end
    end.

  (** [s[n:]] for [n <= len(s)]. *)
Fixpoint drop (n : nat) (s : string) : string :=
    match n, s with
    | O, _ => s
    | S n', String _ s' => drop n' s'
    | S _, EmptyString => EmptyString
    end.

  (** [strings.TrimPrefix(s, p)]. *)
Definition TrimPrefix (s p : string) : string :=
    if HasPrefix s p then drop (String.length p) s else s.

  (** [strings.Contains(s, sub)]. *)
Fixpoint Contains (s sub : string) : bool :=
    if HasPrefix s sub then true
    else match s with
         | EmptyString => false
         | String _ s' => Contains s' sub
         end.

  (** Append one byte at the end of a string. *)
Definition snoc (s : string) (c : ascii) : string := s +:+ String c EmptyString.

  (** The scanning loop of [strings.Split] for a non-empty separator:
      [skip] bytes of a matched separator remain to be consumed, [cur] is
      the piece collected so far. *)
Fixpoint splitLoop (sep : string) (skip : nat) (cur s : string) : list string :=
    match s with
    | EmptyString => [cur]
    | String c s' =>
        match skip with
        | S k => splitLoop sep k cur s'
        | O =>
            if HasPrefix s sep
            then cur :: splitLoop sep (String.length sep - 1) EmptyString s'
            else splitLoop sep O (snoc cur c) s'
        end
    end.

  (** Width in bytes of the UTF-8 sequence at the start of [s], as
      [utf8.DecodeRuneInString] finds it; 0 when the first byte does not
      start a well-formed sequence (Go then decodes [RuneError] with
      width 1). *)
Definition runeWidth (s : string) : nat :=
    let byte (i : nat) : option nat :=
      match drop i s with
      | String b _ => Some (nat_of_ascii b)
      | EmptyString => None
      end in
    let within (lo hi : nat) (i : nat) : bool :=
      match byte i with
      | Some b => ((lo <=? b)%nat && (b <=? hi)%nat)%bool
      | None => false
      end in
    (match byte 0 with
    | None => 0%nat
    | Some b0 =>
        if (b0 <? 128)%nat then 1%nat
        else if (b0 <? 194)%nat then 0%nat
        else if (b0 <=? 223)%nat then
          if within 128 191 1 then 2%nat else 0%nat
        else if (b0 <=? 239)%nat then
          let lo := if (b0 =? 224)%nat then 160%nat else 128%nat in
          let hi := if (b0 =? 237)%nat then 159%nat else 191%nat in
          if (within lo hi 1 && within 128 191 2)%bool then 3%nat else 0%nat
        else if (b0 <=? 244)%nat then
          let lo := if (b0 =? 240)%nat then 144%nat else 128%nat in
          let hi := if (b0 =? 244)%nat then 143%nat else 191%nat in
          if (within lo hi 1 && within 128 191 2 && within 128 191 3)%bool
          then 4%nat else 0%nat
        else 0%nat
    end)%nat.

  (** The encoding of [utf8.RuneError] (U+FFFD). *)
Definition runeErrorString : string :=
    String (ascii_of_nat 239) (String (ascii_of_nat 191)
      (String (ascii_of_nat 189) EmptyString)).

  (** [strings.Split(s, "")] explodes [s] into its UTF-8 sequences; a byte
      that starts no well-formed sequence becomes the encoding of
      [RuneError], except in the last piece, which is the rest of the
      string as it is.  [skip] bytes of the current sequence, collected in
      [cur], remain to be consumed. *)
Fixpoint explodeLoop (skip : nat) (cur s : string) : list string :=
    match s with
    | EmptyString => []
    | String c s' =>
        match skip with
        | S O => snoc cur c :: explodeLoop O EmptyString s'
        | S k => explodeLoop k (snoc cur c) s'
        | O =>
            match runeWidth s with
            | O =>
                (match s' with
                 | EmptyString => String c EmptyString
                 | String _ _ => runeErrorString
                 end) :: explodeLoop O EmptyString s'
            | S O => String c EmptyString :: explodeLoop O EmptyString s'
            | S k => explodeLoop k (String c EmptyString) s'
            end
        end
    end.

Definition explode (s : string) : list string := explodeLoop O EmptyString s.

  (** [strings.Split(s, sep)]. *)
Definition Split (s sep : string) : list string :=
    match sep with
    | EmptyString => explode s
    | String _ _ => splitLoop sep O EmptyString s
    end.

  (** The cut of [strings.SplitN(s, sep, 2)] at the first occurrence of a
      non-empty [sep]: the bytes before it and the bytes after it. *)
Fixpoint cutFirst (sep : string) (cur s : string) : option (string * string) :=
    if HasPrefix s sep then Some (cur, drop (String.length sep) s)
    else match s with
         | EmptyString => None
         | String c s' => cutFirst sep (snoc cur c) s'
         end.

  (** [strings.SplitN(s, sep, 2)] for a non-empty [sep]. *)
Definition SplitN2 (s sep : string) : list string :=
    match cutFirst sep EmptyString s with
    | Some (a, b) => [a; b]
    | None => [s]
    end.

  (** [strings.ToLower] on the ASCII letters.  Go also folds non-ASCII
      runes, none of which folds to a letter of "latest" or "current", so
      the comparison made by [ParseVersion] is decided by this function. *)
Definition lowerByte (c : ascii) : ascii :=
    let n := nat_of_ascii c in
    if ((65 <=? n)%nat && (n <=? 90)%nat)%bool then ascii_of_nat (n + 32) else c.

Fixpoint ToLower (s : string) : string :=
    match s with
    | EmptyString => EmptyString
    | String c s' => String (lowerByte c) (ToLower s')
    end.

  (** [strings.Join(xs, sep)]. *)
Fixpoint Join (xs : list string) (sep : string) : string :=
    match xs with
    | [] => EmptyString
    | [x] => x
    | x :: rest => x +:+ sep +:+ Join rest sep
    end.

  (** [xs[i]] on a slice of strings; the callers below index within range
      (an out-of-range index panics in Go). *)
Definition index (xs : list string) (i : nat) : string := nth i xs EmptyString.

End GoStrings.

Module GoStrconv.

Definition isDigit (c : ascii) : bool :=
    let n := nat_of_ascii c in ((48 <=? n)%nat && (n <=? 57)%nat)%bool.

Definition digitVal (c : ascii) : Z := Z.of_nat (nat_of_ascii c) - 48.

  (** Decimal value of a digit string, [None] on a non-digit byte. *)
Fixpoint digits (acc : Z) (s : string) : option Z :=
    match s with
    | EmptyString => Some acc
    | String c s' => if isDigit c then digits (10 * acc + digitVal c) s' else None
    end.

Definition minInt64 : Z := Eval cbv in - 2 ^ 63.
Definition maxInt64 : Z := Eval cbv in 2 ^ 63 - 1.

  (** [strconv.Atoi(s)] on a 64-bit platform: an optional sign, at least one
      decimal digit, nothing else, value within [int]; [None] stands for a
      non-nil error (syntax or range). *)
Definition Atoi (s : string) : option Z :=
    let '(neg, body) :=
      match s with
      | String "-"%char r => (true, r)
      | String "+"%char r => (false, r)
      | _ => (false, s)
      end in
    match body with
    | EmptyString => None
    | String _ _ =>
        match digits 0 body with
        | None => None
        | Some n =>
            let v := if neg then - n else n in
            if ((minInt64 <=? v) && (v <=? maxInt64))%bool then Some v else None
        end
    end.

  (** [strconv.Itoa] / the verb [%d] of [fmt]. *)
Definition Itoa (z : Z) : string := NilZero.string_of_int (Z.to_int z).

End GoStrconv.

(** [float64]: IEEE 754 binary64 values with the operations Go performs on
    them (round to nearest, ties to even). *)
Module GoFloat.

Definition float64 : Type := spec_float.

  (** The conversion [float64(n)] of an [int64]. *)
Definition ofInt (z : Z) : float64 := binary_normalize 53 1024 z 0 false.

  (** [x / y] and [x * y] on [float64]. *)
Definition div (x y : float64) : float64 := SFdiv 53 1024 x y.
Definition mul (x y : float64) : float64 := SFmul 53 1024 x y.

  (** The zero value [0.0]. *)
Definition zero : float64 := S754_zero false.

End GoFloat.

Import GoStrings GoStrconv.

(** Two's complement wrap-around of [int64] arithmetic. *)
Definition two63 : Z := Eval cbv in 2 ^ 63.
Definition two64 : Z := Eval cbv in 2 ^ 64.
Definition wrap64 (z : Z) : Z := (z + two63) mod two64 - two63.

(* ===================================================================== *)
(** ** version.go: [Version]                                              *)
(* ===================================================================== *)

Record Version := mkVersion {
  VersionStr : string;   (* field [Version]: full version string *)
  Major : Z;
  Minor : Z;
  Patch : Z;
  Label : string
}.

#[global] Instance Version_eq_dec : EqDecision Version.
Proof. solve_decision. Defined.

(** The zero value [Version{}]. *)
Definition zeroVersion : Version := mkVersion "" 0 0 0 "".

(** [Version{Version: s}]. *)
Definition opaqueVersion (s : string) : Version := mkVersion s 0 0 0 "".

(** [fmt.Sprintf("v%d.%d.%d", major, minor, patch)]. *)
Definition fmtTriple (major minor patch : Z) : string :=
  "v" +:+ Itoa major +:+ "." +:+ Itoa minor +:+ "." +:+ Itoa patch.

Definition String_ (v : Version) : string :=
  if negb (String.eqb (VersionStr v) "") then VersionStr v
  else
    let base := fmtTriple (Major v) (Minor v) (Patch v) in
    if negb (String.eqb (Label v) "") then base +:+ "-" +:+ Label v
    else base.

Definition IsZero (v : Version) : bool :=
  String.eqb (VersionStr v) "" && (Major v =? 0) && (Minor v =? 0) && (Patch v =? 0).

Definition Compare (v other : Version) : Z :=
  if negb (Major v =? Major other) then
    if Major v <? Major other then -1 else 1
  else if negb (Minor v =? Minor other) then
    if Minor v <? Minor other then -1 else 1
  else if negb (Patch v =? Patch other) then
    if Patch v <? Patch other then -1 else 1
  else 0.

Definition IsCompatible (v other : Version) : bool :=
  if negb (Major v =? Major other) then false
  else Compare v other >=? 0.

Definition ParseVersion (version : string) : Version :=
  if String.eqb version "" then zeroVersion
  else
    let lower := ToLower version in
    if (String.eqb lower "latest" || String.eqb lower "current")%bool
    then opaqueVersion version
    else
      let cleanVersion := TrimPrefix version "v" in
      let '(cleanVersion, label) :=
        if Contains cleanVersion "-"
        then let parts := SplitN2 cleanVersion "-" in (index parts 0, index parts 1)
        else (cleanVersion, "") in
      let parts := Split cleanVersion "." in
      (* [len(parts) > 0] always holds: Split returns at least one piece. *)
      match (if (0 <? length parts)%nat then Atoi (index parts 0) else Some 0) with
      | None => opaqueVersion version
      | Some major =>
          let minor :=
            if (1 <? length parts)%nat
            then match Atoi (index parts 1) with Some n => n | None => 0 end
            else 0 in
          let patch :=
            if (2 <? length parts)%nat
            then match Atoi (index parts 2) with Some n => n | None => 0 end
            else 0 in
          mkVersion version major minor patch label
      end.

Definition NewVersion (major minor patch : Z) : Version :=
  mkVersion (fmtTriple major minor patch) major minor patch "".

Definition NewVersionWithLabel (major minor patch : Z) (label : string) : Version :=
  let version := fmtTriple major minor patch in
  let version := if negb (String.eqb label "") then version +:+ "-" +:+ label else version in
  mkVersion version major minor patch label.

Definition DefaultVersion : Version := mkVersion "v1.0.0" 1 0 0 "".

(** [VersionRange]. *)
Record VersionRange := mkVersionRange {
  Min : Version;
  Max : Version;
  Exact : list Version
}.

Definition NewVersionRange (min max : Version) : VersionRange := mkVersionRange min max [].
Definition NewExactVersions (versions : list Version) : VersionRange :=
  mkVersionRange zeroVersion zeroVersion versions.

(** The comparison used for [Exact] entries and conflicts: equality of the
    numeric triple. *)
Definition sameTriple (v w : Version) : bool :=
  (Major v =? Major w) && (Minor v =? Minor w) && (Patch v =? Patch w).

Definition Contains_ (vr : VersionRange) (version : Version) : bool :=
  if (0 <? length (Exact vr))%nat then
    existsb (fun v => sameTriple v version) (Exact vr)
  else if negb (IsZero (Min vr)) && (Compare version (Min vr) <? 0) then false
  else if negb (IsZero (Max vr)) && (Compare version (Max vr) >? 0) then false
  else true.

(* ===================================================================== *)
(** ** Declarative description of the pieces [ParseVersion] works with    *)
(* ===================================================================== *)

Module ParseSpec.

  (** Byte [c] occurs in [s]. *)
Fixpoint hasByte (c : ascii) (s : string) : bool :=
    match s with
    | EmptyString => false
    | String a s' => if Ascii.eqb a c then true else hasByte c s'
    end.

  (** [s] is one of the special tokens, compared case-insensitively. *)
Definition special (s : string) : bool :=
    (String.eqb (ToLower s) "latest" || String.eqb (ToLower s) "current")%bool.

  (** [c] cut at its first '-': [num] before it, [label] after it; no cut
      (empty label) when [c] has no '-'. *)
Definition firstDashSplit (c num label : string) : Prop :=
    (c = num +:+ "-" +:+ label ∧ hasByte "-" num = false) ∨
    (hasByte "-" c = false ∧ num = c ∧ label = "").

  (** The same with the cut at the last '-'. *)
Definition lastDashSplit (c num label : string) : Prop :=
    (c = num +:+ "-" +:+ label ∧ hasByte "-" label = false) ∨
    (hasByte "-" c = false ∧ num = c ∧ label = "").

  (** [pieces] are the '.'-separated segments of [num]. *)
Definition dotPieces (num : string) (pieces : list string) : Prop :=
    pieces ≠ [] ∧ Join pieces "." = num ∧
    Forall (fun p => hasByte "." p = false) pieces.

  (** The integer in segment [i]: 0 when the segment is missing or does not
      parse. *)
Definition numField (pieces : list string) (i : nat) : Z :=
    match pieces !! i with
    | Some p => match Atoi p with Some n => n | None => 0 end
    | None => 0
    end.

  (** The version described by the specification for input [s] whose
      numeric segments are [pieces] and whose label is [label]. *)
Definition parsedAs (s label : string) (pieces : list string) : Version :=
    if special s then opaqueVersion s
    else match Atoi (index pieces 0) with
         | None => opaqueVersion s
         | Some major => mkVersion s major (numField pieces 1) (numField pieces 2) label
         end.

  (** The description with the label cut at the LAST '-', as the
      specification words it. *)
Definition parses_with_last_dash : Prop :=
    ∀ s num label pieces,
      lastDashSplit (TrimPrefix s "v") num label →
      dotPieces num pieces →
      ParseVersion s = parsedAs s label pieces.

End ParseSpec.

Import ParseSpec.


(* ===================================================================== *)
(** ** detector.go                                                        *)
(* ===================================================================== *)

Inductive DetectionMethod :=
| DetectionMethodAcceptHeader
| DetectionMethodAPIVersionHeader
| DetectionMethodXAPIVersionHeader
| DetectionMethodQueryParameter
| DetectionMethodURLPath
| DetectionMethodContextValue
| DetectionMethodDefault
| DetectionMethodUnknown (n : Z).   (* any other value of the int type *)

Definition DetectionMethod_String (dm : DetectionMethod) : string :=
  match dm with
  | DetectionMethodAcceptHeader => "Accept Header"
  | DetectionMethodAPIVersionHeader => "API-Version Header"
  | DetectionMethodXAPIVersionHeader => "X-API-Version Header"
  | DetectionMethodQueryParameter => "Query Parameter"
  | DetectionMethodURLPath => "URL Path"
  | DetectionMethodContextValue => "Context Value"
  | DetectionMethodDefault => "Default"
  | DetectionMethodUnknown _ => "Unknown"
  end.

Record DetectionResult := mkDetectionResult {
  drVersion : Version;
  drMethod : DetectionMethod;
  drSource : string
}.

Record Detector := mkDetector {
  defaultVersion : Version;
  enabledMethods : list DetectionMethod;
  acceptHeaderPrefix : string;
  queryParamName : string;
  contextKey : string
}.

(** A value stored in a [context.Context], as far as the type assertions of
    the detector tell values apart. *)
Inductive CtxValue :=
| CtxVersion (v : Version)
| CtxString (s : string)
| CtxOther.

(** The parts of [*http.Request] the detector reads.  [Header] is keyed by
    canonical header names ([http.Header.Get] canonicalises its argument),
    [Query] is the parsed query string ([r.URL.Query()]); both give the
    values of a key in order.  [Ctx] is [r.Context()], never nil. *)
Record Request := mkRequest {
  Header : gmap string (list string);
  Query : gmap string (list string);
  URLPath : string;
  Ctx : gmap string CtxValue
}.

(** [Get] of [http.Header] and [url.Values]: the first value, or "". *)
Definition valuesGet (m : gmap string (list string)) (key : string) : string :=
  match m !! key with
  | Some (v :: _) => v
  | _ => ""
  end.

Definition WithDefaultVersion (version : Version) (d : Detector) : Detector :=
  mkDetector version (enabledMethods d) (acceptHeaderPrefix d) (queryParamName d) (contextKey d).
Definition WithEnabledMethods (methods : list DetectionMethod) (d : Detector) : Detector :=
  mkDetector (defaultVersion d) methods (acceptHeaderPrefix d) (queryParamName d) (contextKey d).
Definition WithAcceptHeaderPrefix (prefix : string) (d : Detector) : Detector :=
  mkDetector (defaultVersion d) (enabledMethods d) prefix (queryParamName d) (contextKey d).
Definition WithQueryParamName (name : string) (d : Detector) : Detector :=
  mkDetector (defaultVersion d) (enabledMethods d) (acceptHeaderPrefix d) name (contextKey d).
Definition WithContextKey (key : string) (d : Detector) : Detector :=
  mkDetector (defaultVersion d) (enabledMethods d) (acceptHeaderPrefix d) (queryParamName d) key.

Definition NewDetector (options : list (Detector → Detector)) : Detector :=
  fold_left (fun d option => option d) options
    (mkDetector DefaultVersion
       [DetectionMethodAcceptHeader; DetectionMethodAPIVersionHeader;
        DetectionMethodXAPIVersionHeader; DetectionMethodQueryParameter;
        DetectionMethodURLPath; DetectionMethodContextValue;
        DetectionMethodDefault]
       "application/vnd.api.v" "version" "api_version").

Definition detectFromAcceptHeader (d : Detector) (r : Request) : Version * string :=
  let accept := valuesGet (Header r) "Accept" in
  if String.eqb accept "" then (zeroVersion, "")
  else if Contains accept (acceptHeaderPrefix d) then
    let parts := Split accept (acceptHeaderPrefix d) in
    if (1 <? length parts)%nat then
      let versionPart := index (Split (index parts 1) "+") 0 in
      let version := ParseVersion ("v" +:+ versionPart) in
      if negb (IsZero version) then (version, accept) else (zeroVersion, "")
    else (zeroVersion, "")
  else (zeroVersion, "").

(** The shared body of the three detectors that parse a raw string. *)
Definition detectFromString (versionStr : string) : Version * string :=
  if String.eqb versionStr "" then (zeroVersion, "")
  else
    let version := ParseVersion versionStr in
    if negb (IsZero version) then (version, versionStr) else (zeroVersion, "").

Definition detectFromAPIVersionHeader (d : Detector) (r : Request) : Version * string :=
  detectFromString (valuesGet (Header r) "Api-Version").

Definition detectFromXAPIVersionHeader (d : Detector) (r : Request) : Version * string :=
  detectFromString (valuesGet (Header r) "X-Api-Version").

Definition detectFromQueryParameter (d : Detector) (r : Request) : Version * string :=
  detectFromString (valuesGet (Query r) (queryParamName d)).

Definition detectFromURLPath (d : Detector) (r : Request) : Version * string :=
  let path := TrimPrefix (URLPath r) "/" in
  if String.eqb path "" then (zeroVersion, "")
  else
    let parts := Split path "/" in
    if ((0 <? length parts)%nat && HasPrefix (index parts 0) "v")%bool then
      let version := ParseVersion (index parts 0) in
      if negb (IsZero version) then (version, index parts 0) else (zeroVersion, "")
    else (zeroVersion, "").

(** [ctx] is [None] for a nil context. *)
Definition detectFromContext (d : Detector) (ctx : option (gmap string CtxValue))
  : Version * string :=
  match ctx with
  | None => (zeroVersion, "")
  | Some ctx =>
      match ctx !! contextKey d with
      | Some (CtxVersion version) => (version, contextKey d)
      | Some (CtxString versionStr) =>
          if negb (String.eqb versionStr "") then
            let version := ParseVersion versionStr in
            if negb (IsZero version) then (version, versionStr) else (zeroVersion, "")
          else (zeroVersion, "")
      | _ => (zeroVersion, "")
      end
  end.

(** The [switch] of the detection loop: which detector a method runs.
    [DetectionMethodDefault] (and any unnamed value) has no case, the loop
    moves on. *)
Definition detectMethod (d : Detector) (r : Request) (method : DetectionMethod)
  : option (Version * string) :=
  match method with
  | DetectionMethodAcceptHeader => Some (detectFromAcceptHeader d r)
  | DetectionMethodAPIVersionHeader => Some (detectFromAPIVersionHeader d r)
  | DetectionMethodXAPIVersionHeader => Some (detectFromXAPIVersionHeader d r)
  | DetectionMethodQueryParameter => Some (detectFromQueryParameter d r)
  | DetectionMethodURLPath => Some (detectFromURLPath d r)
  | DetectionMethodContextValue => Some (detectFromContext d (Some (Ctx r)))
  | DetectionMethodDefault => None
  | DetectionMethodUnknown _ => None
  end.

(** The loop [for _, method := range d.enabledMethods]: [Some] when an
    iteration returns. *)
Fixpoint detectLoop (d : Detector) (r : Request) (methods : list DetectionMethod)
  : option DetectionResult :=
  match methods with
  | [] => None
  | method :: rest =>
      match detectMethod d r method with
      | Some (version, source) =>
          if negb (IsZero version)
          then Some (mkDetectionResult version method source)
          else detectLoop d r rest
      | None => detectLoop d r rest
      end
  end.

Definition defaultResult (d : Detector) : DetectionResult :=
  mkDetectionResult (defaultVersion d) DetectionMethodDefault "default_version".

Definition DetectFromHTTPRequest (d : Detector) (r : Request) : DetectionResult :=
  match detectLoop d r (enabledMethods d) with
  | Some result => result
  | None => defaultResult d
  end.


Definition DetectVersion (d : Detector) (r : Request) : Version :=
  drVersion (DetectFromHTTPRequest d r).

(** Method [method] yields the non-zero version [v] from source [src]. *)
Definition yields (d : Detector) (r : Request) (method : DetectionMethod)
    (v : Version) (src : string) : Prop :=
  detectMethod d r method = Some (v, src) ∧ IsZero v = false.

(** Method [method] yields no non-zero version. *)
Definition silent (d : Detector) (r : Request) (method : DetectionMethod) : Prop :=
  ∀ v src, ¬ yields d r method v src.

(** A request that carries no version anywhere: no header, no query, no
    version segment in the path, nothing in the context. *)
Definition bareRequest : Request := mkRequest ∅ ∅ "/users" ∅.

(** The request of the precedence example: query [?version=v2.1.0] and
    header [Accept: application/vnd.api.v2+json]. *)
Definition exampleRequest : Request :=
  mkRequest {[ "Accept" := ["application/vnd.api.v2+json"] ]}
            {[ "version" := ["v2.1.0"] ]}
            "/users" ∅.


(* ===================================================================== *)
(** ** errors.go                                                          *)
(* ===================================================================== *)

Record VersionError := mkVersionError {
  veComponent : string;
  veRequestedVersion : Version;
  veSupportedVersions : list Version;
  veMessage : string;
  veCode : string
}.

Record ComponentNotFoundError := mkComponentNotFoundError {
  cnfComponent : string;
  cnfMessage : string
}.

(** Go [error] values produced or inspected by the modelled functions:
    the untyped errors of [fmt.Errorf] (with and without a wrapped cause),
    and the typed errors of errors.go. *)
#[warnings="-register-all"]
Inductive error :=
| ErrorString (msg : string)
| ErrorWrap (msg : string) (cause : error)
| EVersionError (e : VersionError)
| EComponentNotFoundError (e : ComponentNotFoundError)
| EMigrationError (component : string) (from to : Version) (message : string)
                  (cause : option error).

Inductive Result (A : Type) :=
| Ok (a : A)
| Err (e : error).
Arguments Ok {A} a.
Arguments Err {A} e.

Definition NewVersionError (component : string) (requested : Version)
    (supported : list Version) (message : string) : error :=
  EVersionError (mkVersionError component requested supported message "VERSION_NOT_SUPPORTED").

Definition NewComponentNotFoundError (component message : string) : error :=
  EComponentNotFoundError (mkComponentNotFoundError component message).

Definition NewMigrationError (component : string) (from to : Version)
    (message : string) (cause : option error) : error :=
  EMigrationError component from to message cause.

(** The status chosen by [HTTPVersionResponseWriter.WriteVersionError]:
    404 for a [*ComponentNotFoundError], 406 otherwise. *)
Definition WriteVersionError_status (err : error) : Z :=
  match err with
  | EComponentNotFoundError _ => 404
  | _ => 406
  end.

(** [IsVersionError] and [GetVersionErrorCode], on the errors above (the
    remaining typed errors of errors.go are produced by none of the
    functions modelled here). *)
Definition IsVersionError (err : error) : bool :=
  match err with
  | EVersionError _ | EComponentNotFoundError _ | EMigrationError _ _ _ _ _ => true
  | _ => false
  end.

Definition GetVersionErrorCode (err : error) : string :=
  match err with
  | EVersionError e => veCode e
  | EComponentNotFoundError _ => "COMPONENT_NOT_FOUND"
  | EMigrationError _ _ _ _ _ => "MIGRATION_ERROR"
  | _ => "UNKNOWN_ERROR"
  end.

(** The verb [%v] of [fmt] on a [[]string]. *)
Definition fmtStrings (xs : list string) : string := "[" +:+ Join xs " " +:+ "]".

(* ===================================================================== *)
(** ** interfaces.go: components, constraints, metadata, metrics          *)
(* ===================================================================== *)

Record DeprecationInfo := mkDeprecationInfo {
  diVersion : Version;
  diDeprecatedAt : string;
  diSunsetAt : string;
  diReason : string;
  diReplacement : Version
}.

(** The methods of [DeprecatableComponent] the manager calls. *)
Record Deprecatable := mkDeprecatable {
  IsVersionDeprecated : Version → bool;
  GetDeprecationInfo : Version → option DeprecationInfo
}.

(** A value of interface type [VersionedComponent], given by the results of
    the methods the manager calls; [AsDeprecatable] is the outcome of the
    type assertion [component.(DeprecatableComponent)]. *)
Record VersionedComponent := mkVersionedComponent {
  Name : string;
  Type_ : string;
  SupportedVersions : list Version;
  IsVersionSupported : Version → bool;
  GetDefaultVersion : Version;
  AsDeprecatable : option Deprecatable
}.

Record VersionConstraint := mkVersionConstraint {
  vcComponent : string;
  Requires : VersionRange;
  Conflicts : list Version
}.

Record VersionedComponentMeta := mkVersionedComponentMeta {
  metaName : string;
  metaType : string;
  metaSupportedVersions : list Version;
  metaDefaultVersion : Version;
  metaDeprecatedVersions : list DeprecationInfo;
  metaConstraints : list VersionConstraint;
  metaCreatedAt : string;
  metaUpdatedAt : string
}.

Record ComponentMetrics := mkComponentMetrics {
  cmComponent : string;
  VersionMetrics : gmap string Z;      (* version -> request count *)
  LastAccessed : gmap string string;   (* version -> timestamp *)
  ErrorCounts : gmap string Z          (* version -> error count *)
}.

Definition VersionRange_String (vr : VersionRange) : string :=
  if (0 <? length (Exact vr))%nat then Join (map String_ (Exact vr)) ", "
  else if negb (IsZero (Min vr)) && negb (IsZero (Max vr))
       then String_ (Min vr) +:+ " - " +:+ String_ (Max vr)
  else if negb (IsZero (Min vr)) then ">= " +:+ String_ (Min vr)
  else if negb (IsZero (Max vr)) then "<= " +:+ String_ (Max vr)
  else "any".

(* ===================================================================== *)
(** ** metrics.go                                                         *)
(* ===================================================================== *)

Record DefaultMetricsCollector := mkCollector {
  metrics : gmap string ComponentMetrics
}.

Definition NewDefaultMetricsCollector : DefaultMetricsCollector := mkCollector ∅.

(** The entry [c.metrics[component]], created empty when missing. *)
Definition metricsEntry (c : DefaultMetricsCollector) (component : string) : ComponentMetrics :=
  match metrics c !! component with
  | Some cm => cm
  | None => mkComponentMetrics component ∅ ∅ ∅
  end.

(** [counts[key]++] on a [map[string]int64]. *)
Definition increment (counts : gmap string Z) (key : string) : gmap string Z :=
  <[key := wrap64 (default 0 (counts !! key) + 1)]> counts.

(** [now] is [time.Now().UTC().Format(time.RFC3339)]. *)
Definition RecordRequest (c : DefaultMetricsCollector) (component : string)
    (version : Version) (now : string) : DefaultMetricsCollector :=
  let cm := metricsEntry c component in
  let versionStr := String_ version in
  mkCollector
    (<[component :=
         mkComponentMetrics (cmComponent cm)
           (increment (VersionMetrics cm) versionStr)
           (<[versionStr := now]> (LastAccessed cm))
           (ErrorCounts cm)]> (metrics c)).

(** The error value itself is not looked at. *)
Definition RecordError (c : DefaultMetricsCollector) (component : string)
    (version : Version) : DefaultMetricsCollector :=
  let cm := metricsEntry c component in
  let versionStr := String_ version in
  mkCollector
    (<[component :=
         mkComponentMetrics (cmComponent cm)
           (VersionMetrics cm)
           (LastAccessed cm)
           (increment (ErrorCounts cm) versionStr)]> (metrics c)).

(** A copy of the entry, [None] for the nil pointer. *)
Definition GetMetrics (c : DefaultMetricsCollector) (component : string)
  : option ComponentMetrics :=
  metrics c !! component.

Record VersionUsageStats := mkVersionUsageStats {
  usComponent : string;
  TotalRequests : Z;
  TotalErrors : Z;
  VersionBreakdown : gmap string GoFloat.float64;   (* version -> percentage *)
  ErrorRate : GoFloat.float64;                      (* errors / requests *)
  MostUsedVersion : string;
  LeastUsedVersion : string;
  DeprecatedUsage : gmap string Z;
  LastActivity : string
}.

(** The local variables of the first loop of [GetUsageStats]. *)
Record usageAcc := mkUsageAcc {
  totalRequests : Z;
  mostUsedCount : Z;
  leastUsedCount : Z;
  mostUsedVersion : string;
  leastUsedVersion : string;
  latestActivity : string
}.

Definition usageStep (lastAccessedOf : gmap string string) (a : usageAcc)
    (entry : string * Z) : usageAcc :=
  let '(version, count) := entry in
  let total := wrap64 (totalRequests a + count) in
  let '(mostC, mostV) :=
    if count >? mostUsedCount a then (count, version)
    else (mostUsedCount a, mostUsedVersion a) in
  let '(leastC, leastV) :=
    if (leastUsedCount a =? -1) || (count <? leastUsedCount a) then (count, version)
    else (leastUsedCount a, leastUsedVersion a) in
  let latest :=
    match lastAccessedOf !! version with
    | Some lastAccessed =>
        if (String.eqb (latestActivity a) "" || String.ltb (latestActivity a) lastAccessed)%bool
        then lastAccessed else latestActivity a
    | None => latestActivity a
    end in
  mkUsageAcc total mostC leastC mostV leastV latest.

(** [GetUsageStats].  The two [range] loops over [VersionMetrics] and
    [ErrorCounts] visit the entries in the orders [requestOrder] and
    [errorOrder] (enumerations of the respective maps). *)
Definition GetUsageStats (c : DefaultMetricsCollector) (component : string)
    (requestOrder errorOrder : list (string * Z)) : option VersionUsageStats :=
  match GetMetrics c component with
  | None => None
  | Some m =>
      let a := fold_left (usageStep (LastAccessed m)) requestOrder
                 (mkUsageAcc 0 0 (-1) "" "" "") in
      let totalErrors :=
        fold_left (fun total entry => wrap64 (total + snd entry)) errorOrder 0 in
      let errorRate :=
        if totalRequests a >? 0
        then GoFloat.div (GoFloat.ofInt totalErrors) (GoFloat.ofInt (totalRequests a))
        else GoFloat.zero in
      let breakdown :=
        if totalRequests a >? 0
        then (fun count =>
                GoFloat.mul
                  (GoFloat.div (GoFloat.ofInt count) (GoFloat.ofInt (totalRequests a)))
                  (GoFloat.ofInt 100))
               <$> VersionMetrics m
        else ∅ in
      Some (mkVersionUsageStats component (totalRequests a) totalErrors breakdown
              errorRate (mostUsedVersion a) (leastUsedVersion a) ∅ (latestActivity a))
  end.

(** Calls made on a collector for one (component, version) pair. *)
Inductive MetricsCall :=
| CallRecordRequest (now : string)
| CallRecordError.

Definition applyCall (component : string) (version : Version)
    (c : DefaultMetricsCollector) (call : MetricsCall) : DefaultMetricsCollector :=
  match call with
  | CallRecordRequest now => RecordRequest c component version now
  | CallRecordError => RecordError c component version
  end.

Definition replay (component : string) (version : Version) (calls : list MetricsCall)
  : DefaultMetricsCollector :=
  fold_left (applyCall component version) calls NewDefaultMetricsCollector.

Definition isRequest (call : MetricsCall) : bool :=
  match call with CallRecordRequest _ => true | CallRecordError => false end.

(** Number of [RecordRequest] / [RecordError] calls in a call sequence. *)
Definition requestCalls (calls : list MetricsCall) : Z :=
  Z.of_nat (length (List.filter isRequest calls)).
Definition errorCalls (calls : list MetricsCall) : Z :=
  Z.of_nat (length (List.filter (fun c => negb (isRequest c)) calls)).

(** What the specification says [GetUsageStats] reports after [calls]:
    the two counts and, as error rate, the [float64] quotient
    [float64(E) / float64(N)] of the counts, [0.0] when there was no
    request. *)
Definition reports (calls : list MetricsCall) (result : option VersionUsageStats) : Prop :=
  ∃ stats, result = Some stats ∧
    TotalRequests stats = requestCalls calls ∧
    TotalErrors stats = errorCalls calls ∧
    ErrorRate stats =
      if requestCalls calls =? 0 then GoFloat.zero
      else GoFloat.div (GoFloat.ofInt (errorCalls calls)) (GoFloat.ofInt (requestCalls calls)).

(** The enumerations a [range] may produce for the maps of [component]. *)
Definition enumerates (c : DefaultMetricsCollector) (component : string)
    (requestOrder errorOrder : list (string * Z)) : Prop :=
  ∀ m, GetMetrics c component = Some m →
       requestOrder ≡ₚ map_to_list (VersionMetrics m) ∧
       errorOrder ≡ₚ map_to_list (ErrorCounts m).

(** The specification's statement for all counts, zero included. *)
Definition usage_stats_for_all_counts : Prop :=
  ∀ component version calls requestOrder errorOrder,
    enumerates (replay component version calls) component requestOrder errorOrder →
    reports calls
      (GetUsageStats (replay component version calls) component requestOrder errorOrder).

(* ===================================================================== *)
(** ** manager.go                                                         *)
(* ===================================================================== *)

(** The manager's maps, its optional collector (the only implementation of
    [MetricsCollector] in the package, held by reference in Go: its state
    is threaded through here) and its detector. *)
Record Manager := mkManager {
  components : gmap string VersionedComponent;
  componentMeta : gmap string VersionedComponentMeta;
  constraints : gmap string (list VersionConstraint);
  metricsCollector : option DefaultMetricsCollector;
  detector : Detector
}.

Definition WithDetector (d : Detector) (m : Manager) : Manager :=
  mkManager (components m) (componentMeta m) (constraints m) (metricsCollector m) d.

Definition WithMetricsCollector (collector : DefaultMetricsCollector) (m : Manager) : Manager :=
  mkManager (components m) (componentMeta m) (constraints m) (Some collector) (detector m).

Definition NewManager (options : list (Manager → Manager)) : Manager :=
  fold_left (fun m option => option m) options
    (mkManager ∅ ∅ ∅ None (NewDetector [])).

(** The deprecation entries collected by [Register]. *)
Definition deprecatedEntries (deprecatable : Deprecatable) (versions : list Version)
  : list DeprecationInfo :=
  flat_map (fun version =>
              if IsVersionDeprecated deprecatable version then
                match GetDeprecationInfo deprecatable version with
                | Some depInfo => [depInfo]
                | None => []
                end
              else []) versions.

(** [Register]; [component] is [None] for nil, [now] is the formatted
    current time.  Returns the manager afterwards and the error (nil:
    [None]). *)
Definition Register (m : Manager) (component : option VersionedComponent) (now : string)
  : Manager * option error :=
  match component with
  | None => (m, Some (ErrorString "component cannot be nil"))
  | Some component =>
      let name := Name component in
      if String.eqb name "" then (m, Some (ErrorString "component name cannot be empty"))
      else
        match components m !! name with
        | Some _ =>
            (m, Some (ErrorString ("component with name '" +:+ name +:+ "' already registered")))
        | None =>
            let meta :=
              mkVersionedComponentMeta name (Type_ component)
                (SupportedVersions component) (GetDefaultVersion component)
                (match AsDeprecatable component with
                 | Some deprecatable => deprecatedEntries deprecatable (SupportedVersions component)
                 | None => []
                 end)
                [] now now in
            (mkManager (<[name := component]> (components m))
                       (<[name := meta]> (componentMeta m))
                       (constraints m) (metricsCollector m) (detector m),
             None)
        end
  end.

Definition setConstraints (cs : list VersionConstraint) (meta : VersionedComponentMeta)
  : VersionedComponentMeta :=
  mkVersionedComponentMeta (metaName meta) (metaType meta) (metaSupportedVersions meta)
    (metaDefaultVersion meta) (metaDeprecatedVersions meta) cs
    (metaCreatedAt meta) (metaUpdatedAt meta).

Definition RegisterWithConstraints (m : Manager) (component : option VersionedComponent)
    (cs : list VersionConstraint) (now : string) : Manager * option error :=
  match Register m component now with
  | (m', Some err) => (m', Some err)
  | (m', None) =>
      match component with
      | None => (m', None)   (* unreachable: Register rejects nil *)
      | Some component =>
          let name := Name component in
          (mkManager (components m')
                     (alter (setConstraints cs) name (componentMeta m'))
                     (<[name := cs]> (constraints m'))
                     (metricsCollector m') (detector m'),
           None)
      end
  end.

Definition Unregister (m : Manager) (name : string) : Manager * option error :=
  match components m !! name with
  | None => (m, Some (ErrorString ("component '" +:+ name +:+ "' not found")))
  | Some _ =>
      (mkManager (delete name (components m))
                 (delete name (componentMeta m))
                 (delete name (constraints m))
                 (metricsCollector m) (detector m),
       None)
  end.

(** [Get]: the result and the manager afterwards (its collector may have
    recorded the request). *)
Definition Get (m : Manager) (name : string) (version : Version) (now : string)
  : Result VersionedComponent * Manager :=
  match components m !! name with
  | None => (Err (ErrorString ("component '" +:+ name +:+ "' not found")), m)
  | Some component =>
      if negb (IsVersionSupported component version) then
        let supported := SupportedVersions component in
        let supportedStrs := map String_ supported in
        (Err (NewVersionError name version supported
                ("version not supported. Supported versions: " +:+ fmtStrings supportedStrs)),
         m)
      else
        match metricsCollector m with
        | Some collector =>
            (Ok component,
             mkManager (components m) (componentMeta m) (constraints m)
               (Some (RecordRequest collector name version now)) (detector m))
        | None => (Ok component, m)
        end
  end.

Definition GetComponent (m : Manager) (name : string) : option VersionedComponent :=
  components m !! name.

(** The inner loop of [CheckCompatibility] over [constraint.Conflicts]. *)
Fixpoint checkConflicts (componentName : string) (version : Version)
    (requiredComponent : string) (requiredVersion : Version)
    (conflicts : list Version) : option error :=
  match conflicts with
  | [] => None
  | conflictVersion :: rest =>
      if (Major requiredVersion =? Major conflictVersion)
         && (Minor requiredVersion =? Minor conflictVersion)
         && (Patch requiredVersion =? Patch conflictVersion)
      then Some (ErrorString
                   ("component '" +:+ componentName +:+ "' version " +:+ String_ version
                    +:+ " conflicts with '" +:+ requiredComponent +:+ "' version "
                    +:+ String_ conflictVersion))
      else checkConflicts componentName version requiredComponent requiredVersion rest
  end.

(** The loop over the constraints of one component. *)
Fixpoint checkConstraints (componentVersions : gmap string Version)
    (componentName : string) (version : Version)
    (cs : list VersionConstraint) : option error :=
  match cs with
  | [] => None
  | constraint :: rest =>
      let requiredComponent := vcComponent constraint in
      match componentVersions !! requiredComponent with
      | Some requiredVersion =>
          if negb (Contains_ (Requires constraint) requiredVersion) then
            Some (ErrorString
                    ("component '" +:+ componentName +:+ "' version " +:+ String_ version
                     +:+ " requires '" +:+ requiredComponent +:+ "' version in range "
                     +:+ VersionRange_String (Requires constraint) +:+ ", but got "
                     +:+ String_ requiredVersion))
          else
            match checkConflicts componentName version requiredComponent requiredVersion
                    (Conflicts constraint) with
            | Some err => Some err
            | None => checkConstraints componentVersions componentName version rest
            end
      | None => checkConstraints componentVersions componentName version rest
      end
  end.

(** The outer loop, over the entries of [componentVersions] in the order
    [order]. *)
Fixpoint checkEntries (m : Manager) (componentVersions : gmap string Version)
    (order : list (string * Version)) : option error :=
  match order with
  | [] => None
  | (componentName, version) :: rest =>
      match constraints m !! componentName with
      | None => checkEntries m componentVersions rest
      | Some cs =>
          match checkConstraints componentVersions componentName version cs with
          | Some err => Some err
          | None => checkEntries m componentVersions rest
          end
      end
  end.

(** [CheckCompatibility]; [order] is the enumeration of [componentVersions]
    made by the [range] loop. *)
Definition CheckCompatibility (m : Manager) (componentVersions : gmap string Version)
    (order : list (string * Version)) : option error :=
  checkEntries m componentVersions order.

(** Constraint [c] is violated by the versions in [componentVersions]: its
    target is present with a version outside the required range or equal,
    on the numeric triple, to a conflicting version. *)
Definition violated (componentVersions : gmap string Version) (c : VersionConstraint) : Prop :=
  ∃ requiredVersion,
    componentVersions !! vcComponent c = Some requiredVersion ∧
    (Contains_ (Requires c) requiredVersion = false ∨
     ∃ conflictVersion, conflictVersion ∈ Conflicts c ∧
                        sameTriple requiredVersion conflictVersion = true).

(** Some component with stored constraints has a violated constraint. *)
Definition violation_stored (m : Manager) (componentVersions : gmap string Version) : Prop :=
  ∃ name cs c, constraints m !! name = Some cs ∧ c ∈ cs ∧ violated componentVersions c.

(** Some component listed in [componentVersions] has a violated stored
    constraint. *)
Definition violation_listed (m : Manager) (componentVersions : gmap string Version) : Prop :=
  ∃ name cs c, is_Some (componentVersions !! name) ∧
               constraints m !! name = Some cs ∧ c ∈ cs ∧ violated componentVersions c.

(** The specification's statement, over every component with stored
    constraints. *)
Definition checks_every_stored_component : Prop :=
  ∀ m componentVersions order,
    order ≡ₚ map_to_list componentVersions →
    (CheckCompatibility m componentVersions order = None
     ↔ ¬ violation_stored m componentVersions).

(** Registry operations, for sequences of calls. *)
Inductive ManagerCall :=
| CallRegister (component : option VersionedComponent) (now : string)
| CallRegisterWithConstraints (component : option VersionedComponent)
    (cs : list VersionConstraint) (now : string)
| CallUnregister (name : string).

Definition call (m : Manager) (op : ManagerCall) : Manager * option error :=
  match op with
  | CallRegister component now => Register m component now
  | CallRegisterWithConstraints component cs now => RegisterWithConstraints m component cs now
  | CallUnregister name => Unregister m name
  end.

Definition calls (m : Manager) (ops : list ManagerCall) : Manager :=
  fold_left (fun m op => fst (call m op)) ops m.

(** The registry's maps are aligned. *)
Definition aligned (m : Manager) : Prop :=
  (∀ name, is_Some (componentMeta m !! name) ↔ is_Some (components m !! name)) ∧
  (∀ name, is_Some (constraints m !! name) → is_Some (components m !! name)).

(* ===================================================================== *)
(** ** migration.go                                                       *)
(* ===================================================================== *)

Inductive MigrationStrategy :=
| MigrationStrategyNone
| MigrationStrategyAutomatic
| MigrationStrategyCustom
| MigrationStrategyFallback
| MigrationStrategyUnknown (n : Z).   (* any other value of the int type *)

Definition MigrationStrategy_String (ms : MigrationStrategy) : string :=
  match ms with
  | MigrationStrategyNone => "none"
  | MigrationStrategyAutomatic => "automatic"
  | MigrationStrategyCustom => "custom"
  | MigrationStrategyFallback => "fallback"
  | MigrationStrategyUnknown _ => "unknown"
  end.

(** Field values ([interface{}]) of migrated payloads: nil and scalars. *)
Inductive Value :=
| VNil
| VBool (b : bool)
| VInt (z : Z)
| VString (s : string).

#[global] Instance Value_eq_dec : EqDecision Value.
Proof. solve_decision. Defined.

(** The verb [%v] of [fmt] on a field value. *)
Definition fmtValue (v : Value) : string :=
  match v with
  | VNil => "<nil>"
  | VBool true => "true"
  | VBool false => "false"
  | VInt z => Itoa z
  | VString s => s
  end.

(** A field of a struct as reflection shows it: name, [json] tag, whether
    [CanInterface] holds, value. *)
Record StructField := mkStructField {
  sfName : string;
  sfJSONTag : string;
  sfCanInterface : bool;
  sfValue : Value
}.

(** Migration inputs and outputs ([interface{}]), told apart as the
    reflection and type assertions of the migrator do. *)
Inductive Any :=
| AVal (v : Value)                     (* nil or a scalar *)
| AMap (m : gmap string Value)         (* map[string]interface{} *)
| ATypedMap                            (* a map of any other type *)
| AStruct (fields : list StructField)
| APtr (target : Any).                 (* non-nil pointer *)

Definition MigrationFunc : Type := Version → Version → Any → Result Any.

Record FieldMapping := mkFieldMapping {
  FromField : string;
  ToField : string;
  Transform : string;
  DefaultValue : Value;
  Required : bool
}.

Record VersionMigration := mkVersionMigration {
  FromVersion : Version;
  ToVersion : Version;
  Strategy : MigrationStrategy;
  FieldMappings : list FieldMapping;
  CustomFunc : option MigrationFunc;
  Reversible : bool;
  Description : string;
  Examples : gmap string Value
}.

Record Migrator := mkMigrator {
  component : string;
  migrations : gmap string VersionMigration   (* key: "fromVersion-toVersion" *)
}.

Definition NewMigrator (component : string) : Migrator := mkMigrator component ∅.

Definition migrationKey (from to : Version) : string :=
  String_ from +:+ "-" +:+ String_ to.

(** Always the empty string (no reverse transformations yet). *)
Definition reverseTransform (transform : string) : string := "".

Definition reverseFieldMappings (mappings : list FieldMapping) : list FieldMapping :=
  map (fun mapping =>
         mkFieldMapping (ToField mapping) (FromField mapping)
           (reverseTransform (Transform mapping)) VNil (Required mapping))
      mappings.

(** The entry synthesised for a reversible migration. *)
Definition reverseMigration (migration : VersionMigration) : VersionMigration :=
  mkVersionMigration (ToVersion migration) (FromVersion migration)
    (Strategy migration)
    (reverseFieldMappings (FieldMappings migration))
    None false
    ("Reverse migration: " +:+ Description migration)
    ∅.

(** [AddMigration]; [migration] is [None] for nil. *)
Definition AddMigration (m : Migrator) (migration : option VersionMigration)
  : Migrator * option error :=
  match migration with
  | None => (m, Some (ErrorString "migration cannot be nil"))
  | Some migration =>
      let key := migrationKey (FromVersion migration) (ToVersion migration) in
      let stored := <[key := migration]> (migrations m) in
      if Reversible migration then
        let reverseKey := migrationKey (ToVersion migration) (FromVersion migration) in
        (mkMigrator (component m) (<[reverseKey := reverseMigration migration]> stored), None)
      else (mkMigrator (component m) stored, None)
  end.

Definition AddCustomMigration (m : Migrator) (from to : Version)
    (migrationFunc : option MigrationFunc) (reversible : bool) (description : string)
  : Migrator * option error :=
  AddMigration m
    (Some (mkVersionMigration from to MigrationStrategyCustom [] migrationFunc
             reversible description ∅)).

Definition AddAutomaticMigration (m : Migrator) (from to : Version)
    (fieldMappings : list FieldMapping) (reversible : bool) : Migrator * option error :=
  AddMigration m
    (Some (mkVersionMigration from to MigrationStrategyAutomatic fieldMappings None
             reversible
             ("Automatic migration from " +:+ String_ from +:+ " to " +:+ String_ to) ∅)).

(** [transformValue]: the hooks "string" and "int", anything else passes
    the value through.  The error result is always nil. *)
Definition transformValue (value : Value) (transform : string) : Result Value :=
  if String.eqb transform "" then Ok value
  else if String.eqb transform "string" then Ok (VString (fmtValue value))
  else if String.eqb transform "int" then
    match value with
    | VString str => Ok (VString str)   (* placeholder in the source *)
    | _ => Ok value
    end
  else Ok value.

(** The first loop of [migrateMapData]: apply the field mappings in order. *)
Fixpoint applyMappings (inputMap : gmap string Value) (mappings : list FieldMapping)
    (resultMap : gmap string Value) : Result (gmap string Value) :=
  match mappings with
  | [] => Ok resultMap
  | mapping :: rest =>
      match inputMap !! FromField mapping with
      | Some value =>
          match transformValue value (Transform mapping) with
          | Err err =>
              Err (ErrorWrap ("failed to transform field " +:+ FromField mapping +:+ ": ") err)
          | Ok transformedValue =>
              applyMappings inputMap rest (<[ToField mapping := transformedValue]> resultMap)
          end
      | None =>
          if negb (bool_decide (DefaultValue mapping = VNil)) then
            applyMappings inputMap rest (<[ToField mapping := DefaultValue mapping]> resultMap)
          else if Required mapping then
            Err (ErrorString ("required field " +:+ FromField mapping +:+ " is missing"))
          else applyMappings inputMap rest resultMap
      end
  end.

(** The inner loop of the copy pass: is [key] the source of a mapping? *)
Definition mappingExists (mappings : list FieldMapping) (key : string) : bool :=
  existsb (fun mapping => String.eqb (FromField mapping) key) mappings.

(** The second loop of [migrateMapData], over the entries of the input in
    the order [entries]. *)
Definition copyUnmapped (mappings : list FieldMapping) (entries : list (string * Value))
    (resultMap : gmap string Value) : gmap string Value :=
  fold_left (fun acc entry =>
               if negb (mappingExists mappings (fst entry))
               then <[fst entry := snd entry]> acc
               else acc)
            entries resultMap.

(** [migrateMapData].  The copy pass writes distinct keys, so the order in
    which [range] visits the input does not show in the result
    ([copyUnmapped_order]); the order of [map_to_list] is taken. *)
Definition migrateMapData (migration : VersionMigration) (input : Any) : Result Any :=
  match input with
  | AMap inputMap =>
      match applyMappings inputMap (FieldMappings migration) ∅ with
      | Err err => Err err
      | Ok resultMap =>
          Ok (AMap (copyUnmapped (FieldMappings migration) (map_to_list inputMap) resultMap))
      end
  | _ => Err (ErrorString "input is not a map[string]interface{}")
  end.

(** [structToMap]. *)
Definition structToMap (input : Any) : Result (gmap string Value) :=
  let val := match input with APtr target => target | _ => input end in
  match val with
  | AStruct fields =>
      Ok (fold_left
            (fun result field =>
               if negb (sfCanInterface field) then result
               else
                 let fieldName :=
                   if negb (String.eqb (sfJSONTag field) "")
                      && negb (String.eqb (sfJSONTag field) "-")
                   then sfJSONTag field else sfName field in
                 <[fieldName := sfValue field]> result)
            fields ∅)
  | _ => Err (ErrorString "input is not a struct")
  end.

Definition migrateStructData (migration : VersionMigration) (input : Any) : Result Any :=
  match structToMap input with
  | Err err => Err (ErrorWrap "failed to convert struct to map: " err)
  | Ok inputMap => migrateMapData migration (AMap inputMap)
  end.

Inductive Kind := KindMap | KindStruct | KindPtr | KindOther.

Definition kindOf (a : Any) : Kind :=
  match a with
  | AVal _ => KindOther
  | AMap _ | ATypedMap => KindMap
  | AStruct _ => KindStruct
  | APtr _ => KindPtr
  end.

Definition performAutomaticMigration (m : Migrator) (migration : VersionMigration)
    (input : Any) : Result Any :=
  match input with
  | AVal VNil => Ok (AVal VNil)
  | _ =>
      let inputVal := match input with APtr target => target | _ => input end in
      match kindOf inputVal with
      | KindMap | KindStruct =>
          let result :=
            match kindOf inputVal with
            | KindMap => migrateMapData migration input
            | _ => migrateStructData migration input
            end in
          match result with
          | Err err =>
              Err (NewMigrationError (component m) (FromVersion migration) (ToVersion migration)
                     "automatic migration failed" (Some err))
          | Ok result => Ok result
          end
      | _ => Ok input
      end
  end.

Definition performFallbackMigration (m : Migrator) (migration : VersionMigration)
    (input : Any) : Result Any :=
  performAutomaticMigration m migration input.

Definition Migrate (m : Migrator) (from to : Version) (input : Any) : Result Any :=
  if Compare from to =? 0 then Ok input
  else
    match migrations m !! migrationKey from to with
    | None => Err (NewMigrationError (component m) from to "no migration path available" None)
    | Some migration =>
        match Strategy migration with
        | MigrationStrategyNone =>
            Err (NewMigrationError (component m) from to "migration not supported" None)
        | MigrationStrategyCustom =>
            match CustomFunc migration with
            | None =>
                Err (NewMigrationError (component m) from to
                       "custom migration function not provided" None)
            | Some customFunc => customFunc from to input
            end
        | MigrationStrategyAutomatic => performAutomaticMigration m migration input
        | MigrationStrategyFallback => performFallbackMigration m migration input
        | MigrationStrategyUnknown _ =>
            Err (NewMigrationError (component m) from to
                   ("unsupported migration strategy: "
                    +:+ MigrationStrategy_String (Strategy migration)) None)
        end
    end.

Definition CanMigrate (m : Migrator) (from to : Version) : bool :=
  if Compare from to =? 0 then true
  else bool_decide (is_Some (migrations m !! migrationKey from to)).

(** Mapping [mapping] writes its destination for this input: the source is
    present or a default is configured. *)
Definition fires (inputMap : gmap string Value) (mapping : FieldMapping) : bool :=
  bool_decide (is_Some (inputMap !! FromField mapping))
  || negb (bool_decide (DefaultValue mapping = VNil)).

(** The value [mapping] writes when it fires. *)
Definition written (inputMap : gmap string Value) (mapping : FieldMapping) : Value :=
  match inputMap !! FromField mapping with
  | Some value =>
      match transformValue value (Transform mapping) with
      | Ok transformedValue => transformedValue
      | Err _ => value
      end
  | None => DefaultValue mapping
  end.

(** Mapping [mapping] stops the migration: source absent, no default,
    required. *)
Definition blocks (inputMap : gmap string Value) (mapping : FieldMapping) : bool :=
  negb (bool_decide (is_Some (inputMap !! FromField mapping)))
  && bool_decide (DefaultValue mapping = VNil)
  && Required mapping.

(** [key] is an input field that is not the source of any mapping. *)
Definition unmapped (mappings : list FieldMapping) (inputMap : gmap string Value)
    (key : string) : bool :=
  bool_decide (is_Some (inputMap !! key)) && negb (mappingExists mappings key).

(** The specification's statement read on the output map, for every mapping
    regardless of the other mappings and input fields. *)
Definition every_mapping_shows_in_output : Prop :=
  ∀ migration inputMap out,
    migrateMapData migration (AMap inputMap) = Ok (AMap out) →
    (∀ mapping, mapping ∈ FieldMappings migration →
                fires inputMap mapping = true →
                out !! ToField mapping = Some (written inputMap mapping)) ∧
    (∀ key value, inputMap !! key = Some value →
                  mappingExists (FieldMappings migration) key = false →
                  out !! key = Some value).

(** The specification's statement that both entries are found after
    [AddMigration], for every reversible migration. *)
Definition stores_both_entries : Prop :=
  ∀ m migration,
    Reversible migration = true →
    let m' := fst (AddMigration m (Some migration)) in
    migrations m' !! migrationKey (FromVersion migration) (ToVersion migration)
    = Some migration ∧
    migrations m' !! migrationKey (ToVersion migration) (FromVersion migration)
    = Some (reverseMigration migration).

(** The payloads of the field-mapping example. *)
Definition exampleMappings : list FieldMapping :=
  [mkFieldMapping "name" "display_name" "" VNil true;
   mkFieldMapping "email" "email" "" VNil true;
   mkFieldMapping "id" "user_id" "" VNil true].

Definition exampleInput : gmap string Value :=
  {[ "id" := VInt 123; "name" := VString "John Doe";
     "email" := VString "john@example.com"; "role" := VString "admin" ]}.

Definition exampleOutput : gmap string Value :=
  {[ "display_name" := VString "John Doe"; "email" := VString "john@example.com";
     "user_id" := VInt 123; "role" := VString "admin" ]}.

(** A service supporting v1.0.0 and v2.0.0, as in the package's examples. *)
Definition usersService : VersionedComponent :=
  mkVersionedComponent "users" "service" [NewVersion 1 0 0; NewVersion 2 0 0]
    (fun v => existsb (fun supported => Compare supported v =? 0)
                [NewVersion 1 0 0; NewVersion 2 0 0])
    (NewVersion 1 0 0) None.

Definition usersManager : Manager :=
  fst (Register (NewManager [WithMetricsCollector NewDefaultMetricsCollector])
         (Some usersService) "2024-01-01T00:00:00Z").


(** The counter map of a collector that has counted [n] events, all for
    the version string [versionStr]. *)
Definition countsMap (versionStr : string) (n : Z) : gmap string Z :=
  if n =? 0 then ∅ else {[ versionStr := n ]}.

(** Collector [c] holds for [component] exactly the counts of [n] requests
    and [e] errors recorded for [versionStr] (no entry when both are 0). *)
Definition tracks (component versionStr : string) (n e : Z)
    (c : DefaultMetricsCollector) : Prop :=
  if (n =? 0) && (e =? 0) then metrics c !! component = None
  else ∃ lastAccessed,
      metrics c !! component
      = Some (mkComponentMetrics component (countsMap versionStr n) lastAccessed
                (countsMap versionStr e)).

(* ===================================================================== *)
(** ** version.go and interfaces.go: the remaining version utilities      *)
(* ===================================================================== *)

Definition IsMajorBreaking (v other : Version) : bool := Major v >? Major other.

Definition IsMinorUpgrade (v other : Version) : bool :=
  (Major v =? Major other) && (Minor v >? Minor other).

Definition IsPatchUpgrade (v other : Version) : bool :=
  (Major v =? Major other) && (Minor v =? Minor other) && (Patch v >? Patch other).

(** [MustParseVersion]; [None] stands for the panic. *)
Definition MustParseVersion (version : string) : option Version :=
  let v := ParseVersion version in
  if IsZero v && negb (String.eqb version "") then None else Some v.

Definition ValidateVersionString (version : string) : option error :=
  let parsed := ParseVersion version in
  if IsZero parsed && negb (String.eqb version "")
  then Some (ErrorString ("invalid version format: " +:+ version))
  else None.

Definition VersionStringSlice (versions : list Version) : list string :=
  map String_ versions.

Definition ParseVersionSlice (versionStrs : list string) : list Version :=
  List.filter (fun v => negb (IsZero v)) (map ParseVersion versionStrs).

Definition IsNewerVersion (v1 v2 : Version) : bool := Compare v1 v2 >? 0.
Definition IsOlderVersion (v1 v2 : Version) : bool := Compare v1 v2 <? 0.
Definition IsSameVersion (v1 v2 : Version) : bool := Compare v1 v2 =? 0.

Definition FilterVersionsByMajor (versions : list Version) (major : Z) : list Version :=
  List.filter (fun v => Major v =? major) versions.

Definition FilterVersionsByRange (versions : list Version) (vrange : VersionRange)
  : list Version :=
  List.filter (Contains_ vrange) versions.

(** [VersionRange.Versions]. *)
Definition Versions (vr : VersionRange) : list Version :=
  if (0 <? length (Exact vr))%nat then Exact vr
  else if negb (IsZero (Min vr)) && negb (IsZero (Max vr)) then [Min vr; Max vr]
  else [].

(** [VersionSorter.Less] and its reverse ([sort.Reverse]). *)
Definition versionLess (x y : Version) : bool := Compare x y <? 0.
Definition versionGreater (x y : Version) : bool := Compare y x <? 0.

(** What [sort.Sort] / [sort.Slice] guarantee of their result: a
    rearrangement of the input in which no element is [less] than an
    earlier one.  The order among elements that compare equal is not
    determined (the sort is not stable). *)
Definition sortOutcome (less : Version → Version → bool) (input output : list Version)
  : Prop :=
  output ≡ₚ input ∧
  ∀ i j x y, (i < j)%nat → output !! i = Some x → output !! j = Some y → less y x = false.

(** [GetLatestVersion(versions)]; [sortedDescending] is the result of
    [SortVersionsDescending(versions)]. *)
Definition GetLatestVersion (versions sortedDescending : list Version) : Version :=
  if (length versions =? 0)%nat then zeroVersion
  else nth 0 sortedDescending zeroVersion.

(** [GetOldestVersion(versions)]; [sortedAscending] is the result of
    [SortVersions(versions)]. *)
Definition GetOldestVersion (versions sortedAscending : list Version) : Version :=
  if (length versions =? 0)%nat then zeroVersion
  else nth 0 sortedAscending zeroVersion.

(** [FindClosestVersion(target, available)]; the two lists are the results
    of the descending sorts of the compatible and of the available
    versions. *)
Definition FindClosestVersion (target : Version) (available : list Version)
    (sortedCompatible sortedAvailable : list Version) : Version :=
  if (length available =? 0)%nat then zeroVersion
  else
    match List.find (fun v => Compare v target =? 0) available with
    | Some v => v
    | None =>
        let compatible := List.filter (fun v => IsCompatible v target) available in
        if (0 <? length compatible)%nat
        then GetLatestVersion compatible sortedCompatible
        else GetLatestVersion available sortedAvailable
    end.

(** [GetMajorVersions]: the distinct major numbers, sorted by [sort.Ints]
    (the sorted list of distinct integers is unique). *)
Definition GetMajorVersions (versions : list Version) : list Z :=
  merge_sort Z.le (elements (list_to_set (map Major versions) : gset Z)).

(** Decimal value of a digit sequence read after the value [acc]. *)
Fixpoint uintZ (acc : Z) (d : Decimal.uint) : Z :=
  match d with
  | Decimal.Nil => acc
  | Decimal.D0 d => uintZ (10 * acc + 0) d
  | Decimal.D1 d => uintZ (10 * acc + 1) d
  | Decimal.D2 d => uintZ (10 * acc + 2) d
  | Decimal.D3 d => uintZ (10 * acc + 3) d
  | Decimal.D4 d => uintZ (10 * acc + 4) d
  | Decimal.D5 d => uintZ (10 * acc + 5) d
  | Decimal.D6 d => uintZ (10 * acc + 6) d
  | Decimal.D7 d => uintZ (10 * acc + 7) d
  | Decimal.D8 d => uintZ (10 * acc + 8) d
  | Decimal.D9 d => uintZ (10 * acc + 9) d
  end.

(** All bytes of [s] are decimal digits. *)
Fixpoint allDigits (s : string) : bool :=
  match s with
  | EmptyString => true
  | String c s' => isDigit c && allDigits s'
  end.

(** [a] is below [b] in the lexicographic order of (major, minor, patch). *)
Definition tripleLt (a b : Version) : Prop :=
  Major a < Major b ∨
  (Major a = Major b ∧
   (Minor a < Minor b ∨ (Minor a = Minor b ∧ Patch a < Patch b))).

(* --------------------------------------------------------------------- *)
(** ** Path and context helpers of the detector                           *)
(* --------------------------------------------------------------------- *)

Definition ExtractPipelineFromPath (d : Detector) (r : Request) : string :=
  let path := TrimPrefix (URLPath r) "/" in
  if String.eqb path "" then ""
  else
    let parts := Split path "/" in
    let startIdx :=
      if ((0 <? length parts)%nat && HasPrefix (index parts 0) "v")%bool
      then 1%nat else 0%nat in
    if (startIdx <? length parts)%nat then index parts startIdx else "".

Definition ExtractComponentFromPath (d : Detector) (r : Request) : string :=
  if negb (String.eqb (valuesGet (Header r) "X-Component") "")
  then valuesGet (Header r) "X-Component"
  else if negb (String.eqb (valuesGet (Query r) "component") "")
  then valuesGet (Query r) "component"
  else ExtractPipelineFromPath d r.





(* --------------------------------------------------------------------- *)
(** ** Queries of the manager                                             *)
(* --------------------------------------------------------------------- *)

(** [List]: the names in the order of [sort.Strings] (byte-wise
    lexicographic; the names are keys of a map, so distinct, and the sorted
    list does not depend on the order in which [range] visited them). *)
Definition List (m : Manager) : list string :=
  merge_sort String.le (map_to_list (components m)).*1.

Definition ListByType (m : Manager) (componentType : string) : list string :=
  merge_sort String.le
    (filter (fun entry => Type_ entry.2 = componentType) (map_to_list (components m))).*1.

Definition GetMeta (m : Manager) (name : string) : option VersionedComponentMeta :=
  componentMeta m !! name.

Definition GetSupportedVersions (m : Manager) (name : string) : Result (list Version) :=
  match GetComponent m name with
  | None => Err (ErrorString ("component '" +:+ name +:+ "' not found"))
  | Some component => Ok (SupportedVersions component)
  end.

Definition GetAllSupportedVersions (m : Manager) : gmap string (list Version) :=
  SupportedVersions <$> components m.

Definition GetCompatibleVersions (m : Manager) (componentName : string)
    (targetVersion : Version) : Result (list Version) :=
  match GetComponent m componentName with
  | None => Err (ErrorString ("component '" +:+ componentName +:+ "' not found"))
  | Some component =>
      Ok (List.filter (fun version => IsCompatible version targetVersion)
            (SupportedVersions component))
  end.

(** The [less] function given to [sort.Slice] by the manager's
    [GetLatestVersion]. *)
Definition newerFirst (x y : Version) : bool := Compare x y >? 0.

(** The manager's [GetLatestVersion]; [sorted] is the slice of supported
    versions after [sort.Slice]. *)
Definition Manager_GetLatestVersion (m : Manager) (componentName : string)
    (sorted : list Version) : Result Version :=
  match GetComponent m componentName with
  | None => Err (ErrorString ("component '" +:+ componentName +:+ "' not found"))
  | Some component =>
      if (length (SupportedVersions component) =? 0)%nat
      then Err (ErrorString ("component '" +:+ componentName
                             +:+ "' has no supported versions"))
      else Ok (nth 0 sorted zeroVersion)
  end.

(** The metadata of every registered component mirrors the component and
    the constraints stored for it, and every component is stored under its
    own name. *)
Definition mirrored (m : Manager) : Prop :=
  ∀ name c, components m !! name = Some c →
    Name c = name ∧
    ∃ meta, componentMeta m !! name = Some meta ∧
            metaName meta = name ∧
            metaType meta = Type_ c ∧
            metaSupportedVersions meta = SupportedVersions c ∧
            metaDefaultVersion meta = GetDefaultVersion c ∧
            metaConstraints meta = default [] (constraints m !! name).

(* --------------------------------------------------------------------- *)
(** ** Queries of the migrator                                            *)
(* --------------------------------------------------------------------- *)

Definition GetMigrationPath (m : Migrator) (from to : Version)
  : Result (list VersionMigration) :=
  if Compare from to =? 0 then Ok []
  else
    match migrations m !! migrationKey from to with
    | Some migration => Ok [migration]
    | None => Err (NewMigrationError (component m) from to "no migration path found" None)
    end.

(** [v] was built by [NewVersion] from non-negative components. *)
Definition plain (v : Version) : Prop :=
  ∃ a b c, 0 ≤ a ≤ maxInt64 ∧ 0 ≤ b ≤ maxInt64 ∧ 0 ≤ c ≤ maxInt64 ∧
           v = NewVersion a b c.

(** [v] was built by [NewVersionWithLabel] from non-negative components. *)
Definition labelled (v : Version) : Prop :=
  ∃ a b c label, 0 ≤ a ≤ maxInt64 ∧ 0 ≤ b ≤ maxInt64 ∧ 0 ≤ c ≤ maxInt64 ∧
                 v = NewVersionWithLabel a b c label.

(* --------------------------------------------------------------------- *)
(** ** Resetting a collector; totals of a counter map                     *)
(* --------------------------------------------------------------------- *)

Definition Reset (c : DefaultMetricsCollector) : DefaultMetricsCollector := mkCollector ∅.

Definition ResetComponent (c : DefaultMetricsCollector) (component : string)
  : DefaultMetricsCollector :=
  mkCollector (delete component (metrics c)).



(* --------------------------------------------------------------------- *)
(** ** interfaces.go: the compatibility matrix                            *)
(* --------------------------------------------------------------------- *)

(** [map[string]map[string]bool], keyed by "component:version". *)
Definition VersionCompatibilityMatrix : Type := gmap string (gmap string bool).

Definition NewVersionCompatibilityMatrix : VersionCompatibilityMatrix := ∅.

Definition matrixKey (component version : string) : string :=
  component +:+ ":" +:+ version.

Definition SetCompatible (vcm : VersionCompatibilityMatrix)
    (component1 version1 component2 version2 : string) (compatible : bool)
  : VersionCompatibilityMatrix :=
  let key := matrixKey component1 version1 in
  let targetKey := matrixKey component2 version2 in
  <[key := <[targetKey := compatible]> (default ∅ (vcm !! key))]> vcm.

Definition Matrix_IsCompatible (vcm : VersionCompatibilityMatrix)
    (component1 version1 component2 version2 : string) : bool :=
  let key := matrixKey component1 version1 in
  let targetKey := matrixKey component2 version2 in
  match vcm !! key with
  | Some versions => default false (versions !! targetKey)
  | None => false
  end.

(** One iteration of the loop of the matrix's [GetCompatibleVersions]. *)
Definition compatibleStep (result : gmap string (list string)) (entry : string * bool)
  : gmap string (list string) :=
  let '(targetKey, compatible) := entry in
  if compatible then
    match SplitN2 targetKey ":" with
    | [targetComponent; targetVersion] =>
        <[targetComponent := (default [] (result !! targetComponent) ++ [targetVersion])%list]>
          result
    | _ => result
    end
  else result.

(** The matrix's [GetCompatibleVersions]; [order] is the enumeration of the
    row of the key made by the [range] loop. *)
Definition Matrix_GetCompatibleVersions (vcm : VersionCompatibilityMatrix)
    (component version : string) (order : list (string * bool))
  : gmap string (list string) :=
  match vcm !! matrixKey component version with
  | Some versions => fold_left compatibleStep order ∅
  | None => ∅
  end.

(* ===================================================================== *)
(** * Properties                                                        *)
(* ===================================================================== *)

(** Sanity checks of the string and version functions. *)
Example parse_v123 : ParseVersion "v1.2.3" = mkVersion "v1.2.3" 1 2 3 "".
Proof. reflexivity. Qed.
Example parse_beta : ParseVersion "v1.0.0-beta" = mkVersion "v1.0.0-beta" 1 0 0 "beta".
Proof. reflexivity. Qed.
Example parse_rc1 : ParseVersion "v1.0.0-rc-1" = mkVersion "v1.0.0-rc-1" 1 0 0 "rc-1".
Proof. reflexivity. Qed.
Example parse_latest : ParseVersion "LaTeSt" = opaqueVersion "LaTeSt".
Proof. reflexivity. Qed.
Example parse_v2 : ParseVersion "v2" = mkVersion "v2" 2 0 0 "".
Proof. reflexivity. Qed.
Example string_new : String_ (mkVersion "" 1 2 3 "rc") = "v1.2.3-rc".
Proof. reflexivity. Qed.
Example split_ex : Split "a.b..c" "." = ["a"; "b"; ""; "c"].
Proof. reflexivity. Qed.
Example split_ex2 : Split "xabyabz" "ab" = ["x"; "y"; "z"].
Proof. reflexivity. Qed.
Example parse_double_v : ParseVersion "vv1" = opaqueVersion "vv1".
Proof. reflexivity. Qed.
Example split_empty_separator :
  Split "ab" "" = ["a"; "b"] ∧
  (* a two-byte sequence (U+00E9) stays together *)
  Split (String (ascii_of_nat 195) (String (ascii_of_nat 169) "x")) ""
  = [String (ascii_of_nat 195) (String (ascii_of_nat 169) ""); "x"] ∧
  (* an ill-formed byte becomes U+FFFD, unless it is the last piece *)
  Split (String (ascii_of_nat 255) "a") "" = [runeErrorString; "a"] ∧
  Split (String "a" (String (ascii_of_nat 255) "")) ""
  = ["a"; String (ascii_of_nat 255) ""].
Proof. repeat split; reflexivity. Qed.
Example atoi_cases :
  (Atoi "12", Atoi "+7", Atoi "-3", Atoi "", Atoi "+", Atoi "1_0", Atoi "0-rc",
   Atoi "9223372036854775808")
  = (Some 12, Some 7, Some (-3), None, None, None, None, None).
Proof. reflexivity. Qed.
Example compatible_same_major :
  IsCompatible (NewVersion 1 2 3) (ParseVersion "v1.0.0") = true ∧
  IsCompatible (NewVersion 1 2 3) (NewVersion 2 0 0) = false.
Proof. split; reflexivity. Qed.

(* ===================================================================== *)
(** ** Lemmas on the string functions                                     *)
(* ===================================================================== *)

Section StringLemmas.

Lemma append_cons (a : ascii) (s t : string) : String a s +:+ t = String a (s +:+ t).
  Proof. reflexivity. Qed.

Lemma append_nil_l (s : string) : "" +:+ s = s.
  Proof. reflexivity. Qed.

Lemma append_nil_r (s : string) : s +:+ "" = s.
  Proof.
    induction s as [|a s IH]; [reflexivity|]. now rewrite append_cons, IH.
  Qed.

Lemma append_assoc (a b c : string) : (a +:+ b) +:+ c = a +:+ (b +:+ c).
  Proof.
    induction a as [|x a IH]; [reflexivity|]. now rewrite !append_cons, IH.
  Qed.

Lemma snoc_append (cur : string) (a : ascii) (s : string) :
    snoc cur a +:+ s = cur +:+ String a s.
  Proof. unfold snoc. now rewrite append_assoc. Qed.

Lemma HasPrefix_byte (c : ascii) (s : string) :
    HasPrefix s (String c "") = match s with
                                | String a _ => Ascii.eqb a c
                                | EmptyString => false
                                end.
  Proof. destruct s as [|a s]; simpl; [reflexivity|]. now destruct (Ascii.eqb a c). Qed.

Lemma Contains_byte (c : ascii) (s : string) :
    Contains s (String c "") = hasByte c s.
  Proof.
    induction s as [|a s IH]; [reflexivity|].
    cbn [Contains hasByte]. rewrite HasPrefix_byte.
    destruct (Ascii.eqb a c); [reflexivity | exact IH].
  Qed.

Lemma hasByte_app (c : ascii) (a b : string) :
    hasByte c (a +:+ b) = (hasByte c a || hasByte c b)%bool.
  Proof.
    induction a as [|x a IH]; [reflexivity|].
    rewrite append_cons. cbn [hasByte].
    destruct (Ascii.eqb x c); [reflexivity | exact IH].
  Qed.

  (** [cutFirst] finds the first separator byte. *)
Lemma cutFirst_first (c : ascii) (cur num label : string) :
    hasByte c num = false →
    cutFirst (String c "") cur (num +:+ String c label) = Some (cur +:+ num, label).
  Proof.
    revert cur. induction num as [|a num IH]; intros cur Hno.
    - rewrite append_nil_r, append_nil_l. cbn [cutFirst].
      rewrite HasPrefix_byte, Ascii.eqb_refl. reflexivity.
    - cbn [hasByte] in Hno. destruct (Ascii.eqb a c) eqn:E; [discriminate|].
      rewrite append_cons. cbn [cutFirst]. rewrite HasPrefix_byte, E.
      rewrite IH by exact Hno. now rewrite snoc_append.
  Qed.

  (** [splitLoop] with a one-byte separator walks through a piece that
      does not contain the separator. *)
Lemma splitLoop_piece (c : ascii) (p cur rest : string) :
    hasByte c p = false →
    splitLoop (String c "") O cur (p +:+ rest)
    = splitLoop (String c "") O (cur +:+ p) rest.
  Proof.
    revert cur. induction p as [|a p IH]; intros cur Hno.
    - now rewrite append_nil_r.
    - cbn [hasByte] in Hno. destruct (Ascii.eqb a c) eqn:E; [discriminate|].
      rewrite append_cons. cbn [splitLoop]. rewrite HasPrefix_byte, E.
      rewrite IH by exact Hno. now rewrite snoc_append.
  Qed.

Lemma splitLoop_sep (c : ascii) (cur rest : string) :
    splitLoop (String c "") O cur (String c rest)
    = cur :: splitLoop (String c "") O "" rest.
  Proof. cbn [splitLoop]. now rewrite HasPrefix_byte, Ascii.eqb_refl. Qed.

  (** [Split] inverts [Join] on pieces free of the separator byte. *)
Lemma splitLoop_Join (c : ascii) (p : string) (ps : list string) (cur : string) :
    Forall (fun q => hasByte c q = false) (p :: ps) →
    splitLoop (String c "") O cur (Join (p :: ps) (String c ""))
    = (cur +:+ p) :: ps.
  Proof.
    revert p cur. induction ps as [|q ps IH]; intros p cur Hall.
    - cbn [Join]. inversion Hall as [|? ? Hp _]; subst.
      rewrite <- (append_nil_r p) at 1.
      rewrite splitLoop_piece by exact Hp. reflexivity.
    - inversion Hall as [|? ? Hp Hrest]; subst.
      change (Join (p :: q :: ps) (String c ""))
        with (p +:+ String c "" +:+ Join (q :: ps) (String c "")).
      rewrite splitLoop_piece by exact Hp.
      rewrite append_cons, append_nil_l, splitLoop_sep.
      rewrite IH by exact Hrest. reflexivity.
  Qed.

Lemma Split_dotPieces (num : string) (pieces : list string) :
    dotPieces num pieces → Split num "." = pieces.
  Proof.
    intros (Hne & Hjoin & Hall). destruct pieces as [|p ps]; [congruence|].
    subst num. unfold Split. now rewrite splitLoop_Join.
  Qed.

Lemma firstDashSplit_code (c num label : string) :
    firstDashSplit c num label →
    (if Contains c "-"
     then let parts := SplitN2 c "-" in (index parts 0, index parts 1)
     else (c, "")) = (num, label).
  Proof.
    intros [[-> Hno] | (Hno & -> & ->)].
    - rewrite Contains_byte, hasByte_app, append_cons. cbn [hasByte].
      rewrite Ascii.eqb_refl, orb_true_r.
      unfold SplitN2. rewrite append_nil_l.
      rewrite (cutFirst_first "-" "" num label Hno). reflexivity.
    - now rewrite Contains_byte, Hno.
  Qed.

  (** Every string has a cut at its first '-'. *)
Lemma firstDashSplit_total (c : string) : ∃ num label, firstDashSplit c num label.
  Proof.
    induction c as [|a c (num & label & IH)].
    - exists "", "". right. auto.
    - destruct (Ascii.eqb a "-") eqn:E.
      + apply Ascii.eqb_eq in E. subst a. exists "", c. left. auto.
      + destruct IH as [[-> Hno] | (Hno & -> & ->)].
        * exists (String a num), label. left. split; [reflexivity|].
          cbn. now rewrite E.
        * exists (String a c), "". right. cbn. now rewrite E.
  Qed.

  (** Every string has its '.'-separated pieces. *)
Lemma dotPieces_total (num : string) : ∃ pieces, dotPieces num pieces.
  Proof.
    induction num as [|a num (pieces & Hne & Hjoin & Hall)].
    - exists [""]. repeat split; [congruence | repeat constructor].
    - destruct pieces as [|p ps]; [congruence|].
      destruct (Ascii.eqb a ".") eqn:E.
      + apply Ascii.eqb_eq in E. subst a. exists ("" :: p :: ps).
        repeat split; [congruence | | constructor; [reflexivity | exact Hall]].
        change (Join ("" :: p :: ps) ".") with ("" +:+ "." +:+ Join (p :: ps) ".").
        now rewrite Hjoin.
      + exists (String a p :: ps).
        inversion Hall as [|? ? Hp Hps]; subst.
        repeat split; [congruence | | constructor; [cbn; now rewrite E | exact Hps]].
        destruct ps as [|q ps]; [reflexivity|].
        change (Join (String a p :: q :: ps) ".")
          with (String a (p +:+ "." +:+ Join (q :: ps) ".")).
        reflexivity.
  Qed.

End StringLemmas.

(* ===================================================================== *)
(** ** Properties of [ParseVersion]                                       *)
(* ===================================================================== *)

Section ParseVersionProps.

Lemma firstDashSplit_code' (c num label : string) :
    firstDashSplit c num label →
    (if Contains c "-"
     then (index (SplitN2 c "-") 0, index (SplitN2 c "-") 1)
     else (c, "")) = (num, label).
  Proof. exact (firstDashSplit_code c num label). Qed.

Lemma field_code (pieces : list string) (i : nat) :
    (if (i <? length pieces)%nat
     then match Atoi (index pieces i) with Some n => n | None => 0 end
     else 0) = numField pieces i.
  Proof.
    unfold numField, index.
    destruct (Nat.ltb_spec i (length pieces)) as [Hlt | Hge].
    - destruct (lookup_lt_is_Some_2 pieces i Hlt) as [p Hp].
      rewrite Hp. now rewrite (nth_lookup_Some _ _ _ _ Hp).
    - now rewrite (lookup_ge_None_2 pieces i Hge).
  Qed.

Lemma special_empty (s : string) : s = "" → special s = false.
  Proof. now intros ->. Qed.

  (** [ParseVersion] agrees with the declarative description once the label
      is cut at the first '-'. *)
Lemma ParseVersion_parsedAs (s num label : string) (pieces : list string) :
    firstDashSplit (TrimPrefix s "v") num label →
    dotPieces num pieces →
    ParseVersion s = parsedAs s label pieces.
  Proof.
    intros Hcut Hpieces.
    pose proof (Split_dotPieces _ _ Hpieces) as Hsplit.
    unfold ParseVersion, parsedAs.
    destruct (String.eqb_spec s "") as [-> | Hne].
    - (* the empty input: every description of it is the zero version *)
      assert (num = "") as ->.
      { destruct Hcut as [[Heq _] | (_ & -> & _)]; [|reflexivity].
        destruct num; [reflexivity | discriminate Heq]. }
      destruct Hpieces as (Hnil & Hjoin & _).
      destruct pieces as [|p [|q ps]]; [congruence | | ].
      + cbn in Hjoin. subst p. reflexivity.
      + change (Join (p :: q :: ps) ".") with (p +:+ "." +:+ Join (q :: ps) ".") in Hjoin.
        destruct p; discriminate Hjoin.
    - fold (special s). destruct (special s); [reflexivity|].
      cbv zeta. rewrite (firstDashSplit_code' _ _ _ Hcut). rewrite Hsplit.
      destruct Hpieces as (Hnil & _ & _).
      assert ((0 <? length pieces)%nat = true) as ->.
      { destruct pieces; [congruence | reflexivity]. }
      destruct (Atoi (index pieces 0)); [|reflexivity].
      now rewrite !field_code.
  Qed.

End ParseVersionProps.

(** C3 (as amended).  For every input [s]: a cut of [s] (less one leading
    'v') at its FIRST '-' and the '.'-separated segments of the part before
    the cut exist, and for each such description [ParseVersion s] is the
    version it denotes: the original string is kept, the label is what
    follows the first '-', the first three segments give major, minor and
    patch (0 when missing), a first segment that is not an integer gives the
    opaque version, and "latest"/"current" in any letter case are opaque.
    Moreover [ParseVersion "v1.2.3"] prints as "v1.2.3" with fields 1/2/3 and
    "v1.0.0-beta" has label "beta". *)
Theorem ParseVersion_first_dash (s : string) :
  (∃ num label pieces,
      firstDashSplit (TrimPrefix s "v") num label ∧ dotPieces num pieces) ∧
  (∀ num label pieces,
      firstDashSplit (TrimPrefix s "v") num label →
      dotPieces num pieces →
      ParseVersion s = parsedAs s label pieces) ∧
  (special s = true → ParseVersion s = opaqueVersion s) ∧
  String_ (ParseVersion "v1.2.3") = "v1.2.3" ∧
  (Major (ParseVersion "v1.2.3"), Minor (ParseVersion "v1.2.3"),
   Patch (ParseVersion "v1.2.3")) = (1, 2, 3) ∧
  Label (ParseVersion "v1.0.0-beta") = "beta".
Proof.
  split; [|split; [|split; [|repeat split]]].
  - destruct (firstDashSplit_total (TrimPrefix s "v")) as (num & label & Hcut).
    destruct (dotPieces_total num) as (pieces & Hp).
    exists num, label, pieces. split; assumption.
  - intros num label pieces. apply ParseVersion_parsedAs.
  - intros Hsp.
    destruct (firstDashSplit_total (TrimPrefix s "v")) as (num & label & Hcut).
    destruct (dotPieces_total num) as (pieces & Hp).
    rewrite (ParseVersion_parsedAs s num label pieces Hcut Hp).
    unfold parsedAs. now rewrite Hsp.
Qed.

(** The description instantiated at "v1.0.0-rc-1": label "rc-1". *)
Lemma ParseVersion_first_dash_witness :
  ParseVersion "v1.0.0-rc-1" = mkVersion "v1.0.0-rc-1" 1 0 0 "rc-1".
Proof.
  refine (proj1 (proj2 (ParseVersion_first_dash "v1.0.0-rc-1"))
            "1.0.0" "rc-1" ["1"; "0"; "0"] _ _).
  - left. split; reflexivity.
  - split; [discriminate | split; [reflexivity | repeat constructor]].
Defined.

(** C3 (as stated) fails: with the cut at the last '-', "v1.0.0-rc-1" would
    have label "1"; [ParseVersion] cuts at the first '-' and gives "rc-1". *)
Lemma ParseVersion_last_dash_counterexample : ¬ parses_with_last_dash.
Proof.
  intros H.
  specialize (H "v1.0.0-rc-1" "1.0.0-rc" "1" ["1"; "0"; "0-rc"]).
  assert (Hcut : lastDashSplit (TrimPrefix "v1.0.0-rc-1" "v") "1.0.0-rc" "1").
  { left. split; reflexivity. }
  assert (Hp : dotPieces "1.0.0-rc" ["1"; "0"; "0-rc"]).
  { split; [discriminate | split; [reflexivity | repeat constructor]]. }
  specialize (H Hcut Hp). vm_compute in H. discriminate H.
Qed.

Section DetectorProps.

Variables (d : Detector) (r : Request).

Lemma detectLoop_silent (methods : list DetectionMethod) :
    Forall (silent d r) methods → detectLoop d r methods = None.
  Proof.
    induction 1 as [|m ms Hm _ IH]; [reflexivity|].
    cbn [detectLoop]. destruct (detectMethod d r m) as [[v src]|] eqn:E; [|exact IH].
    destruct (IsZero v) eqn:Z; [exact IH|].
    exfalso. apply (Hm v src). split; assumption.
  Qed.

Lemma detectLoop_first (pre post : list DetectionMethod) (m : DetectionMethod)
      (v : Version) (src : string) :
    Forall (silent d r) pre →
    yields d r m v src →
    detectLoop d r (pre ++ m :: post) = Some (mkDetectionResult v m src).
  Proof.
    intros Hpre [Hm Hz]. induction Hpre as [|m' ms Hm' _ IH].
    - cbn [app detectLoop]. now rewrite Hm, Hz.
    - cbn [app detectLoop].
      destruct (detectMethod d r m') as [[v' src']|] eqn:E; [|exact IH].
      destruct (IsZero v') eqn:Z; [exact IH|].
      exfalso. apply (Hm' v' src'). split; assumption.
  Qed.

Lemma yields_or_silent (method : DetectionMethod) :
  (∃ v src, yields d r method v src) ∨ silent d r method.
Proof.
  unfold silent, yields. destruct (detectMethod d r method) as [[v src]|] eqn:E.
  - destruct (IsZero v) eqn:Z; [right | left; eauto].
    intros v' src' [Hm Hz]. injection Hm as <- <-. congruence.
  - right. intros v src [H _]. discriminate H.
Qed.

(** Every method list either has a first method that yields, or is silent
    throughout. *)
Lemma first_yield_or_silent (methods : list DetectionMethod) :
  (∃ pre m post v src,
      methods = (pre ++ m :: post)%list ∧ Forall (silent d r) pre ∧ yields d r m v src)
  ∨ Forall (silent d r) methods.
Proof.
  induction methods as [|m ms IH]; [right; constructor|].
  destruct (yields_or_silent m) as [(v & src & Hy) | Hs].
  - left. exists [], m, ms, v, src. repeat split; [constructor | apply Hy..].
  - destruct IH as [(pre & m' & post & v & src & -> & Hpre & Hy) | Hall].
    + left. exists (m :: pre), m', post, v, src.
      split; [reflexivity|]. split; [now constructor | exact Hy].
    + right. now constructor.
Qed.

End DetectorProps.

(** C2.  [DetectFromHTTPRequest] walks the enabled methods in their
    configured order.  Either some enabled method is the first to yield a
    non-zero version, or none yields one.  When [m] is the first enabled
    method that yields a non-zero version, the result is that version tagged
    with [m] and the source string [m] produced; when no enabled method
    yields a non-zero version the result is the configured default version
    tagged [Default] / "default_version" (for the default detector on a
    request without any version: v1.0.0).  With the default detector the
    example request
    resolves through the Accept header; with only the query method enabled it
    resolves v2.1.0 through the query parameter. *)
Theorem DetectFromHTTPRequest_first_match (d : Detector) (r : Request) :
  ((∃ pre m post v src,
       enabledMethods d = (pre ++ m :: post)%list ∧
       Forall (silent d r) pre ∧ yields d r m v src)
   ∨ Forall (silent d r) (enabledMethods d)) ∧
  (∀ pre m post v src,
      enabledMethods d = (pre ++ m :: post)%list →
      Forall (silent d r) pre →
      yields d r m v src →
      DetectFromHTTPRequest d r = mkDetectionResult v m src) ∧
  (Forall (silent d r) (enabledMethods d) →
   DetectFromHTTPRequest d r
   = mkDetectionResult (defaultVersion d) DetectionMethodDefault "default_version") ∧
  DetectFromHTTPRequest (NewDetector []) bareRequest
  = mkDetectionResult (mkVersion "v1.0.0" 1 0 0 "") DetectionMethodDefault "default_version" ∧
  DetectFromHTTPRequest
    (NewDetector [WithDefaultVersion (mkVersion "v3.0.0" 3 0 0 ""); WithEnabledMethods []])
    exampleRequest
  = mkDetectionResult (mkVersion "v3.0.0" 3 0 0 "") DetectionMethodDefault "default_version" ∧
  DetectFromHTTPRequest (NewDetector []) exampleRequest
  = mkDetectionResult (mkVersion "v2" 2 0 0 "") DetectionMethodAcceptHeader
      "application/vnd.api.v2+json" ∧
  DetectionMethod_String
    (drMethod (DetectFromHTTPRequest (NewDetector []) exampleRequest))
  = "Accept Header" ∧
  DetectFromHTTPRequest
    (NewDetector [WithEnabledMethods [DetectionMethodQueryParameter]]) exampleRequest
  = mkDetectionResult (mkVersion "v2.1.0" 2 1 0 "") DetectionMethodQueryParameter "v2.1.0".
Proof.
  split; [apply first_yield_or_silent|].
  split; [|split; [|split; [|split; [|split; [|split]]]]].
  - intros pre m post v src Henabled Hpre Hm.
    unfold DetectFromHTTPRequest. rewrite Henabled.
    now rewrite (detectLoop_first d r pre post m v src Hpre Hm).
  - intros Hall. unfold DetectFromHTTPRequest.
    now rewrite (detectLoop_silent d r _ Hall).
  - vm_compute. reflexivity.
  - vm_compute. reflexivity.
  - vm_compute. reflexivity.
  - vm_compute. reflexivity.
  - vm_compute. reflexivity.
Qed.

(** An instance of the first clause with a silent method ahead of the one
    that answers: the path "/users" carries no version, the query does. *)
Lemma DetectFromHTTPRequest_first_match_witness :
  DetectFromHTTPRequest
    (NewDetector [WithEnabledMethods
                    [DetectionMethodURLPath; DetectionMethodQueryParameter;
                     DetectionMethodAcceptHeader]])
    exampleRequest
  = mkDetectionResult (mkVersion "v2.1.0" 2 1 0 "") DetectionMethodQueryParameter "v2.1.0".
Proof.
  refine (proj1 (proj2 (DetectFromHTTPRequest_first_match
                   (NewDetector [WithEnabledMethods
                                   [DetectionMethodURLPath; DetectionMethodQueryParameter;
                                    DetectionMethodAcceptHeader]])
                   exampleRequest))
            [DetectionMethodURLPath] DetectionMethodQueryParameter
            [DetectionMethodAcceptHeader] _ _ eq_refl _ _).
  - constructor; [|constructor].
    intros v src [Hm Hz]. vm_compute in Hm. injection Hm as <- <-. discriminate Hz.
  - split; reflexivity.
Defined.

(* ===================================================================== *)
(** ** Properties of [Compare], [Migrate], [CanMigrate], [AddMigration]   *)
(* ===================================================================== *)

Lemma Compare_refl (v : Version) : Compare v v = 0.
Proof. unfold Compare. now rewrite !Z.eqb_refl. Qed.

Lemma Compare_zero_triple (v w : Version) :
  Compare v w = 0 ↔ Major v = Major w ∧ Minor v = Minor w ∧ Patch v = Patch w.
Proof.
  unfold Compare.
  destruct (Z.eqb_spec (Major v) (Major w)) as [HM | HM];
    [|cbn [negb]; destruct (Major v <? Major w); split; [discriminate | tauto | discriminate | tauto]].
  destruct (Z.eqb_spec (Minor v) (Minor w)) as [Hm | Hm];
    [|cbn [negb]; destruct (Minor v <? Minor w); split; [discriminate | tauto | discriminate | tauto]].
  destruct (Z.eqb_spec (Patch v) (Patch w)) as [Hp | Hp];
    [|cbn [negb]; destruct (Patch v <? Patch w); split; [discriminate | tauto | discriminate | tauto]].
  cbn [negb]. tauto.
Qed.

(** C7.  Migrating from a version to itself returns the input unchanged,
    whatever the migration table holds (the table is not consulted). *)
Theorem Migrate_same_version (m : Migrator) (v : Version) (x : Any) :
  Migrate m v v x = Ok x.
Proof. unfold Migrate. now rewrite Compare_refl. Qed.

(** C10.  Two versions with equal (major, minor, patch) count as the same
    version for [CanMigrate] and [Migrate]: label and raw string are not
    looked at, and no table entry is needed. *)
Theorem Migrate_equal_triple (m : Migrator) (from to : Version) (x : Any) :
  Compare from to = 0 →
  CanMigrate m from to = true ∧ Migrate m from to x = Ok x.
Proof.
  intros Hcmp. unfold CanMigrate, Migrate. rewrite Hcmp. split; reflexivity.
Qed.

(** "v1.0.0-beta" against "v1.0.0" on an empty table. *)
Lemma Migrate_equal_triple_witness :
  ParseVersion "v1.0.0-beta" ≠ ParseVersion "v1.0.0" ∧
  migrations (NewMigrator "users")
    !! migrationKey (ParseVersion "v1.0.0-beta") (ParseVersion "v1.0.0") = None ∧
  CanMigrate (NewMigrator "users") (ParseVersion "v1.0.0-beta") (ParseVersion "v1.0.0") = true ∧
  Migrate (NewMigrator "users") (ParseVersion "v1.0.0-beta") (ParseVersion "v1.0.0")
    (AMap exampleInput) = Ok (AMap exampleInput).
Proof.
  split; [discriminate | split; [reflexivity|]].
  apply (Migrate_equal_triple (NewMigrator "users") (ParseVersion "v1.0.0-beta")
           (ParseVersion "v1.0.0") (AMap exampleInput)).
  reflexivity.
Defined.

(** The opaque versions "latest" and "current" are told apart by nothing
    the migrator compares. *)
Example Migrate_latest_current :
  ParseVersion "latest" ≠ ParseVersion "current" ∧
  CanMigrate (NewMigrator "users") (ParseVersion "latest") (ParseVersion "current") = true ∧
  Migrate (NewMigrator "users") (ParseVersion "latest") (ParseVersion "current") (AVal (VInt 7))
  = Ok (AVal (VInt 7)).
Proof. split; [discriminate | split; reflexivity]. Qed.

Lemma reverseFieldMappings_lookup (mappings : list FieldMapping) (i : nat) (mapping : FieldMapping) :
  mappings !! i = Some mapping →
  reverseFieldMappings mappings !! i
  = Some (mkFieldMapping (ToField mapping) (FromField mapping) "" VNil (Required mapping)).
Proof.
  intros H. unfold reverseFieldMappings. rewrite list_lookup_fmap_Some_2 with (x := mapping);
    [reflexivity | exact H].
Qed.

Lemma reverseFieldMappings_length (mappings : list FieldMapping) :
  length (reverseFieldMappings mappings) = length mappings.
Proof. apply length_map. Qed.

(** C6 (as amended).  For a reversible migration, [AddMigration] succeeds
    and stores at the key of (to, from) the synthesised reverse entry: its
    field mappings are those of the migration, position by position, with
    source and destination exchanged and no default value, and it is not
    reversible; so [CanMigrate to from] holds afterwards.  The migration
    itself is found at the key of (from, to) provided the two keys
    differ. *)
Theorem AddMigration_reversible (m : Migrator) (migration : VersionMigration) :
  Reversible migration = true →
  let key := migrationKey (FromVersion migration) (ToVersion migration) in
  let reverseKey := migrationKey (ToVersion migration) (FromVersion migration) in
  let m' := fst (AddMigration m (Some migration)) in
  snd (AddMigration m (Some migration)) = None ∧
  migrations m' !! reverseKey = Some (reverseMigration migration) ∧
  (key ≠ reverseKey → migrations m' !! key = Some migration) ∧
  length (FieldMappings (reverseMigration migration)) = length (FieldMappings migration) ∧
  (∀ i mapping, FieldMappings migration !! i = Some mapping →
      ∃ reversed, FieldMappings (reverseMigration migration) !! i = Some reversed ∧
                  FromField reversed = ToField mapping ∧
                  ToField reversed = FromField mapping ∧
                  DefaultValue reversed = VNil) ∧
  Reversible (reverseMigration migration) = false ∧
  CanMigrate m' (ToVersion migration) (FromVersion migration) = true.
Proof.
  intros Hrev key reverseKey m'. subst m'. unfold AddMigration. rewrite Hrev.
  cbn [fst snd migrations]. fold key reverseKey.
  split; [reflexivity|]. split; [apply lookup_insert_eq|].
  split; [intros Hne; rewrite lookup_insert_ne by congruence; apply lookup_insert_eq|].
  split; [apply reverseFieldMappings_length|].
  split.
  { intros i mapping Hi. eexists. split;
      [exact (reverseFieldMappings_lookup _ _ _ Hi) | repeat split]. }
  split; [reflexivity|].
  unfold CanMigrate. destruct (Compare _ _ =? 0); [reflexivity|].
  cbn [migrations]. fold reverseKey. rewrite lookup_insert_eq.
  apply bool_decide_eq_true_2. eauto.
Qed.

(** The migration v1.0.0 -> v2.0.0 of the field-mapping example, made
    reversible. *)
Lemma AddMigration_reversible_witness :
  let migration :=
    mkVersionMigration (NewVersion 1 0 0) (NewVersion 2 0 0) MigrationStrategyAutomatic
      exampleMappings None true "users v1 to v2" ∅ in
  let m' := fst (AddMigration (NewMigrator "users") (Some migration)) in
  migrations m' !! "v1.0.0-v2.0.0" = Some migration ∧
  CanMigrate m' (NewVersion 2 0 0) (NewVersion 1 0 0) = true.
Proof.
  intros migration m'.
  pose proof (AddMigration_reversible (NewMigrator "users") migration eq_refl)
    as (_ & _ & Hkey & _ & _ & _ & Hcan).
  split; [apply Hkey; discriminate | exact Hcan].
Defined.

(** C6 (as stated) fails for a reversible migration from v1.0.0 to v1.0.0:
    both keys are "v1.0.0-v1.0.0", and the entry found there afterwards is
    the synthesised reverse one, not the migration that was added. *)
Lemma AddMigration_same_key_counterexample : ¬ stores_both_entries.
Proof.
  intros H.
  destruct (H (NewMigrator "users")
              (mkVersionMigration (NewVersion 1 0 0) (NewVersion 1 0 0)
                 MigrationStrategyAutomatic exampleMappings None true "" ∅) eq_refl)
    as [Hkey _].
  unfold AddMigration in Hkey. cbn [Reversible fst migrations FromVersion ToVersion] in Hkey.
  rewrite lookup_insert_eq in Hkey.
  apply (f_equal (fmap Reversible)) in Hkey. discriminate Hkey.
Qed.

(* ===================================================================== *)
(** ** Properties of the manager                                          *)
(* ===================================================================== *)

(** The three outcomes of [Get]. *)
Lemma Get_outcomes (m : Manager) (name : string) (version : Version) (now : string) :
  (components m !! name = None →
   Get m name version now
   = (Err (ErrorString ("component '" +:+ name +:+ "' not found")), m)) ∧
  (∀ c, components m !! name = Some c → IsVersionSupported c version = false →
        ∃ message,
          Get m name version now
          = (Err (EVersionError (mkVersionError name version (SupportedVersions c)
                                   message "VERSION_NOT_SUPPORTED")), m)) ∧
  (∀ c, components m !! name = Some c → IsVersionSupported c version = true →
        fst (Get m name version now) = Ok c ∧
        components (snd (Get m name version now)) = components m ∧
        metricsCollector (snd (Get m name version now))
        = (fun collector => RecordRequest collector name version now)
            <$> metricsCollector m).
Proof.
  unfold Get. split; [|split].
  - now intros ->.
  - intros c -> ->. cbn [negb]. eexists. reflexivity.
  - intros c -> ->. cbn [negb].
    destruct (metricsCollector m) eqn:E; repeat split; try reflexivity.
    cbn [snd]. now rewrite E.
Qed.

Example Get_unsupported_version :
  ∃ message,
    fst (Get usersManager "users" (NewVersion 99 0 0) "2024-01-01T00:00:01Z")
    = Err (EVersionError (mkVersionError "users" (NewVersion 99 0 0)
                            [NewVersion 1 0 0; NewVersion 2 0 0]
                            message "VERSION_NOT_SUPPORTED")).
Proof. eexists. vm_compute. reflexivity. Qed.

Example Get_supported_version :
  fst (Get usersManager "users" (NewVersion 2 0 0) "2024-01-01T00:00:01Z") = Ok usersService ∧
  (metricsCollector (snd (Get usersManager "users" (NewVersion 2 0 0) "2024-01-01T00:00:01Z"))
   ≫= fun collector => GetMetrics collector "users"
   ≫= fun cm => VersionMetrics cm !! "v2.0.0") = Some 1.
Proof. split; vm_compute; reflexivity. Qed.

(** C1, the unknown-component branch on the code: [Get] of an unregistered
    name returns the untyped error of [fmt.Errorf], not a
    [ComponentNotFoundError].  The package's own consumers of errors treat
    the two differently: the untyped error is no version error, has code
    "UNKNOWN_ERROR" and is answered with 406, where a
    [ComponentNotFoundError] has code "COMPONENT_NOT_FOUND" and is answered
    with 404. *)
Theorem Get_missing_is_untyped_error :
  fst (Get usersManager "missing" (NewVersion 1 0 0) "2024-01-01T00:00:01Z")
  = Err (ErrorString "component 'missing' not found") ∧
  (∀ e, fst (Get usersManager "missing" (NewVersion 1 0 0) "2024-01-01T00:00:01Z")
        ≠ Err (EComponentNotFoundError e)) ∧
  (IsVersionError (ErrorString "component 'missing' not found"),
   GetVersionErrorCode (ErrorString "component 'missing' not found"),
   WriteVersionError_status (ErrorString "component 'missing' not found"))
  = (false, "UNKNOWN_ERROR", 406) ∧
  (IsVersionError (NewComponentNotFoundError "missing" ""),
   GetVersionErrorCode (NewComponentNotFoundError "missing" ""),
   WriteVersionError_status (NewComponentNotFoundError "missing" ""))
  = (true, "COMPONENT_NOT_FOUND", 404).
Proof.
  assert (fst (Get usersManager "missing" (NewVersion 1 0 0) "2024-01-01T00:00:01Z")
          = Err (ErrorString "component 'missing' not found")) as Hget
      by (vm_compute; reflexivity).
  split; [exact Hget|]. split; [|split; reflexivity].
  intros e. rewrite Hget. discriminate.
Qed.

Section RegistryInvariant.

Lemma aligned_NewManager : aligned (NewManager []).
Proof.
  split; intros name; cbn; rewrite !lookup_empty;
    [split; intros [? ?]; discriminate | intros [? ?]; discriminate].
Qed.

Lemma Register_ok (m m' : Manager) (c : VersionedComponent) (now : string) :
  Register m (Some c) now = (m', None) →
  components m !! Name c = None ∧
  components m' = <[Name c := c]> (components m) ∧
  (∃ meta, componentMeta m' = <[Name c := meta]> (componentMeta m) ∧ metaName meta = Name c) ∧
  constraints m' = constraints m.
Proof.
  unfold Register. destruct (String.eqb (Name c) ""); [discriminate|].
  destruct (components m !! Name c) eqn:E; [discriminate|].
  intros [= <-]. cbn. split; [reflexivity|]. split; [reflexivity|].
  split; [eexists; split; reflexivity | reflexivity].
Qed.

Lemma Register_err (m m' : Manager) (c : option VersionedComponent) (now : string) (e : error) :
  Register m c now = (m', Some e) → m' = m.
Proof.
  unfold Register. destruct c as [c|]; [|now intros [= <-]].
  destruct (String.eqb (Name c) ""); [now intros [= <-]|].
  destruct (components m !! Name c); [now intros [= <-] | discriminate].
Qed.

Lemma call_err (m m' : Manager) (op : ManagerCall) (e : error) :
  call m op = (m', Some e) → m' = m.
Proof.
  destruct op as [c now | c cs now | name]; cbn [call].
  - apply Register_err.
  - unfold RegisterWithConstraints.
    destruct (Register m c now) as [m1 [e1|]] eqn:E.
    + intros [= <- _]. exact (Register_err _ _ _ _ _ E).
    + destruct c; discriminate.
  - unfold Unregister. destruct (components m !! name); [discriminate | now intros [= <-]].
Qed.

Lemma aligned_insert (m : Manager) (name : string) (c : VersionedComponent)
    (meta : VersionedComponentMeta) (cs : gmap string (list VersionConstraint))
    (mc : option DefaultMetricsCollector) (d : Detector) :
  aligned m →
  (∀ n, is_Some (cs !! n) → n = name ∨ is_Some (constraints m !! n)) →
  aligned (mkManager (<[name := c]> (components m)) (<[name := meta]> (componentMeta m))
             cs mc d).
Proof.
  intros [Hmeta Hcs] Hnew. split; intros n; cbn.
  - destruct (decide (name = n)) as [-> | Hne].
    + rewrite !lookup_insert_eq. split; eauto.
    + rewrite !lookup_insert_ne by exact Hne. apply Hmeta.
  - intros Hn. destruct (Hnew n Hn) as [-> | Hold].
    + rewrite lookup_insert_eq. eauto.
    + destruct (decide (name = n)) as [-> | Hne].
      * rewrite lookup_insert_eq. eauto.
      * rewrite lookup_insert_ne by exact Hne. now apply Hcs.
Qed.

Lemma aligned_Register (m : Manager) (c : option VersionedComponent) (now : string) :
  aligned m → aligned (fst (Register m c now)).
Proof.
  intros Hal. unfold Register. destruct c as [c|]; [|exact Hal].
  destruct (String.eqb (Name c) ""); [exact Hal|].
  destruct (components m !! Name c); [exact Hal|].
  cbn [fst]. apply aligned_insert; [exact Hal | auto].
Qed.

Lemma aligned_RegisterWithConstraints (m : Manager) (c : option VersionedComponent)
    (cs : list VersionConstraint) (now : string) :
  aligned m → aligned (fst (RegisterWithConstraints m c cs now)).
Proof.
  intros Hal. unfold RegisterWithConstraints.
  destruct (Register m c now) as [m1 [e1|]] eqn:E.
  - cbn [fst]. now rewrite (Register_err _ _ _ _ _ E).
  - destruct c as [c|]; [|discriminate E].
    destruct (Register_ok _ _ _ _ E) as (_ & Hc & (meta & Hmeta & _) & Hcs).
    cbn [fst]. rewrite Hc, Hmeta, Hcs.
    rewrite alter_insert_eq.
    apply aligned_insert; [exact Hal|].
    intros n. destruct (decide (Name c = n)) as [-> | Hne]; [auto|].
    rewrite lookup_insert_ne by exact Hne. auto.
Qed.

Lemma aligned_Unregister (m : Manager) (name : string) :
  aligned m → aligned (fst (Unregister m name)).
Proof.
  intros [Hmeta Hcs]. unfold Unregister. destruct (components m !! name); [|now split].
  split; intros n; cbn.
  - destruct (decide (name = n)) as [-> | Hne].
    + rewrite !lookup_delete_eq. split; intros [? ?]; discriminate.
    + rewrite !lookup_delete_ne by exact Hne. apply Hmeta.
  - destruct (decide (name = n)) as [-> | Hne].
    + rewrite !lookup_delete_eq. intros [? ?]; discriminate.
    + rewrite !lookup_delete_ne by exact Hne. apply Hcs.
Qed.

Lemma aligned_call (m : Manager) (op : ManagerCall) : aligned m → aligned (fst (call m op)).
Proof.
  destruct op; cbn [call];
    [apply aligned_Register | apply aligned_RegisterWithConstraints | apply aligned_Unregister].
Qed.

Lemma aligned_calls (ops : list ManagerCall) (m : Manager) :
  aligned m → aligned (calls m ops).
Proof.
  revert m. induction ops as [|op ops IH]; intros m Hal; [exact Hal|].
  cbn. apply IH, aligned_call, Hal.
Qed.

End RegistryInvariant.

(** C9.  After any sequence of [Register], [RegisterWithConstraints] and
    [Unregister] calls on a new manager, a name has a metadata record exactly
    when it has a component, and every name with stored constraints has a
    component.  A successful [Register] installs the component and its
    metadata under the component's name; a successful [Unregister] removes
    component, metadata and constraints of the name; a failed call changes
    nothing. *)
Theorem registry_stays_aligned (ops : list ManagerCall) :
  aligned (calls (NewManager []) ops) ∧
  (∀ m m' c now,
      Register m (Some c) now = (m', None) →
      components m' !! Name c = Some c ∧
      ∃ meta, componentMeta m' !! Name c = Some meta ∧ metaName meta = Name c) ∧
  (∀ m m' name,
      Unregister m name = (m', None) →
      components m' !! name = None ∧ componentMeta m' !! name = None ∧
      constraints m' !! name = None) ∧
  (∀ m m' op e, call m op = (m', Some e) → m' = m).
Proof.
  split; [apply aligned_calls, aligned_NewManager|]. split; [|split].
  - intros m m' c now H.
    destruct (Register_ok _ _ _ _ H) as (_ & Hc & (meta & Hmeta & Hname) & _).
    rewrite Hc, Hmeta. rewrite !lookup_insert_eq. eauto.
  - intros m m' name. unfold Unregister.
    destruct (components m !! name); [|discriminate].
    intros [= <-]. cbn. now rewrite !lookup_delete_eq.
  - intros m m' op e. apply call_err.
Qed.

(** A run of the registry: register "users" with a constraint, then
    unregister it. *)
Lemma registry_stays_aligned_witness :
  let m1 := fst (RegisterWithConstraints (NewManager []) (Some usersService)
                   [mkVersionConstraint "products" (NewExactVersions [NewVersion 1 0 0]) []]
                   "2024-01-01T00:00:00Z") in
  (is_Some (components m1 !! "users") ∧ is_Some (constraints m1 !! "users")) ∧
  components (fst (Unregister m1 "users")) !! "users" = None ∧
  componentMeta (fst (Unregister m1 "users")) !! "users" = None ∧
  constraints (fst (Unregister m1 "users")) !! "users" = None.
Proof.
  intros m1. split; [split; vm_compute; eauto|].
  refine (proj1 (proj2 (proj2 (registry_stays_aligned []))) m1 _ "users" _).
  vm_compute. reflexivity.
Defined.

(* ===================================================================== *)
(** ** Properties of [CheckCompatibility]                                 *)
(* ===================================================================== *)

Section Compatibility.

Variable componentVersions : gmap string Version.

Lemma checkConflicts_None (componentName : string) (version : Version)
    (requiredComponent : string) (requiredVersion : Version) (conflicts : list Version) :
  checkConflicts componentName version requiredComponent requiredVersion conflicts = None
  ↔ ∀ conflictVersion, conflictVersion ∈ conflicts →
                       sameTriple requiredVersion conflictVersion = false.
Proof.
  induction conflicts as [|x rest IH]; cbn [checkConflicts].
  - split; [intros _ ? Hin; inversion Hin | reflexivity].
  - fold (sameTriple requiredVersion x). destruct (sameTriple requiredVersion x) eqn:E.
    + split; [discriminate|]. intros H. specialize (H x (list_elem_of_here _ _)). congruence.
    + rewrite IH. split.
      * intros H y [-> | Hy]%elem_of_cons; [exact E | now apply H].
      * intros H y Hy. apply H. now apply list_elem_of_further.
Qed.

Lemma violated_iff (c : VersionConstraint) :
  violated componentVersions c ↔
  match componentVersions !! vcComponent c with
  | Some requiredVersion =>
      Contains_ (Requires c) requiredVersion = false ∨
      ∃ conflictVersion, conflictVersion ∈ Conflicts c ∧
                         sameTriple requiredVersion conflictVersion = true
  | None => False
  end.
Proof.
  unfold violated. destruct (componentVersions !! vcComponent c) as [rv|].
  - split; [intros (rv' & [= <-] & H); exact H | intros H; exists rv; auto].
  - split; [intros (? & [=] & _) | tauto].
Qed.

Lemma checkConstraints_None (componentName : string) (version : Version)
    (cs : list VersionConstraint) :
  checkConstraints componentVersions componentName version cs = None
  ↔ ∀ c, c ∈ cs → ¬ violated componentVersions c.
Proof.
  induction cs as [|c rest IH]; cbn [checkConstraints].
  - split; [intros _ ? Hin; inversion Hin | reflexivity].
  - assert (Hstep :
      (∀ c', c' ∈ c :: rest → ¬ violated componentVersions c')
      ↔ ¬ violated componentVersions c ∧ ∀ c', c' ∈ rest → ¬ violated componentVersions c').
    { split.
      - intros H. split; [apply H, list_elem_of_here|].
        intros c' Hc'. now apply H, list_elem_of_further.
      - intros [Hc Hrest] c' [-> | Hc']%elem_of_cons; [exact Hc | now apply Hrest]. }
    rewrite Hstep, <- IH, (violated_iff c). clear Hstep IH.
    destruct (componentVersions !! vcComponent c) as [rv|]; [|tauto].
    destruct (Contains_ (Requires c) rv) eqn:Ein; cbn [negb].
    + destruct (checkConflicts componentName version (vcComponent c) rv (Conflicts c)) eqn:Ec.
      * split; [discriminate|]. intros [Hno _]. exfalso.
        assert (Hnone : checkConflicts componentName version (vcComponent c) rv (Conflicts c)
                        ≠ None) by congruence.
        apply Hnone, checkConflicts_None. intros x Hx.
        destruct (sameTriple rv x) eqn:Ex; [|reflexivity].
        exfalso. apply Hno. right. eauto.
      * pose proof (proj1 (checkConflicts_None componentName version (vcComponent c) rv
                             (Conflicts c)) Ec) as Ec'. clear Ec.
        rename Ec' into Ec. split; [|tauto].
        intros Hrest. split; [|exact Hrest].
        intros [Hc | (x & Hx & Hsame)]; [discriminate|].
        rewrite (Ec x Hx) in Hsame. discriminate.
    + split; [discriminate|]. intros [Hno _]. exfalso. apply Hno. now left.
Qed.

Lemma checkEntries_None (m : Manager) (order : list (string * Version)) :
  checkEntries m componentVersions order = None
  ↔ ∀ name version cs c,
      (name, version) ∈ order → constraints m !! name = Some cs → c ∈ cs →
      ¬ violated componentVersions c.
Proof.
  induction order as [|[name version] rest IH]; cbn [checkEntries].
  - split; [intros _ ? ? ? ? Hin; inversion Hin | reflexivity].
  - destruct (constraints m !! name) as [cs|] eqn:Ecs.
    + destruct (checkConstraints componentVersions name version cs) eqn:Ec.
      * split; [discriminate|]. intros H. exfalso.
        assert (Hnone : checkConstraints componentVersions name version cs ≠ None) by congruence.
        apply Hnone, checkConstraints_None. intros c Hc.
        exact (H name version cs c (list_elem_of_here _ _) Ecs Hc).
      * rewrite IH. pose proof (proj1 (checkConstraints_None name version cs) Ec) as Ec'. clear Ec.
        rename Ec' into Ec. split.
        -- intros H n v cs' c [[= -> ->] | Hin]%elem_of_cons Hcs' Hc.
           ++ rewrite Ecs in Hcs'. injection Hcs' as <-. now apply Ec.
           ++ exact (H n v cs' c Hin Hcs' Hc).
        -- intros H n v cs' c Hin. apply (H n v cs' c). now apply list_elem_of_further.
    + rewrite IH. split.
      * intros H n v cs' c [[= -> ->] | Hin]%elem_of_cons Hcs' Hc; [congruence|].
        exact (H n v cs' c Hin Hcs' Hc).
      * intros H n v cs' c Hin. apply (H n v cs' c). now apply list_elem_of_further.
Qed.

End Compatibility.

(** C5 (as amended).  Whatever order the entries of the input map are
    visited in, [CheckCompatibility] returns no error exactly when no
    component LISTED IN THE INPUT MAP has a stored constraint whose target
    is present in the map with a version outside the required range or
    equal, on (major, minor, patch), to a conflicting version. *)
Theorem CheckCompatibility_listed (m : Manager) (componentVersions : gmap string Version)
    (order : list (string * Version)) :
  order ≡ₚ map_to_list componentVersions →
  (CheckCompatibility m componentVersions order = None
   ↔ ¬ violation_listed m componentVersions).
Proof.
  intros Hperm. unfold CheckCompatibility. rewrite checkEntries_None.
  unfold violation_listed. split.
  - intros H (name & cs & c & [version Hv] & Hcs & Hc & Hviol).
    apply (H name version cs c); try assumption.
    rewrite Hperm. now apply elem_of_map_to_list.
  - intros H name version cs c Hin Hcs Hc Hviol. apply H.
    exists name, cs, c. repeat split; try assumption.
    exists version. apply elem_of_map_to_list. now rewrite <- Hperm.
Qed.

(** "orders" requires "users" at v1.0.0; both are listed, "users" at
    v2.0.0: the check fails. *)
Lemma CheckCompatibility_listed_witness :
  let m := fst (RegisterWithConstraints (NewManager [])
                  (Some (mkVersionedComponent "orders" "service" [NewVersion 1 0 0]
                           (fun _ => true) (NewVersion 1 0 0) None))
                  [mkVersionConstraint "users" (NewExactVersions [NewVersion 1 0 0]) []]
                  "2024-01-01T00:00:00Z") in
  let versions : gmap string Version :=
    {[ "orders" := NewVersion 1 0 0; "users" := NewVersion 2 0 0 ]} in
  CheckCompatibility m versions
    [("users", NewVersion 2 0 0); ("orders", NewVersion 1 0 0)] ≠ None
  ∧ violation_listed m versions.
Proof.
  intros m versions.
  assert (Hperm : [("users", NewVersion 2 0 0); ("orders", NewVersion 1 0 0)]
                  ≡ₚ map_to_list versions).
  { apply NoDup_Permutation.
    - apply NoDup_cons. split; [|apply NoDup_singleton].
      intros [=]%list_elem_of_singleton.
    - apply NoDup_map_to_list.
    - intros [k v]. rewrite elem_of_map_to_list. unfold versions.
      rewrite !elem_of_cons, lookup_insert_Some, lookup_singleton_Some.
      split.
      + intros [[= -> ->] | [[= -> ->] | Hnil]]; [right | left | inversion Hnil];
          repeat split; discriminate.
      + intros [[<- <-] | [_ [<- <-]]]; auto. }
  pose proof (CheckCompatibility_listed m versions _ Hperm) as Hiff.
  assert (Hviol : violation_listed m versions).
  { exists "orders", [mkVersionConstraint "users" (NewExactVersions [NewVersion 1 0 0]) []],
      (mkVersionConstraint "users" (NewExactVersions [NewVersion 1 0 0]) []).
    split; [vm_compute; eauto|]. split; [vm_compute; reflexivity|].
    split; [apply list_elem_of_here|].
    exists (NewVersion 2 0 0). split; [vm_compute; reflexivity | left; reflexivity]. }
  split; [|exact Hviol].
  intros Hnone. apply (proj1 Hiff Hnone). exact Hviol.
Defined.

(** C5 (as stated) fails: "orders" has a stored constraint on "users", the
    input map lists only "users", at a version outside the required range.
    The loop runs over the listed components, finds no constraints stored
    for "users" and returns no error. *)
Lemma CheckCompatibility_unlisted_counterexample : ¬ checks_every_stored_component.
Proof.
  intros H.
  set (m := fst (RegisterWithConstraints (NewManager [])
                   (Some (mkVersionedComponent "orders" "service" [NewVersion 1 0 0]
                            (fun _ => true) (NewVersion 1 0 0) None))
                   [mkVersionConstraint "users" (NewExactVersions [NewVersion 1 0 0]) []]
                   "2024-01-01T00:00:00Z")).
  set (versions := {[ "users" := NewVersion 2 0 0 ]} : gmap string Version).
  specialize (H m versions [("users", NewVersion 2 0 0)]).
  assert (Hperm : [("users", NewVersion 2 0 0)] ≡ₚ map_to_list versions).
  { unfold versions. now rewrite map_to_list_singleton. }
  destruct (H Hperm) as [Hnone _]. apply Hnone; [vm_compute; reflexivity|].
  exists "orders", [mkVersionConstraint "users" (NewExactVersions [NewVersion 1 0 0]) []],
    (mkVersionConstraint "users" (NewExactVersions [NewVersion 1 0 0]) []).
  split; [vm_compute; reflexivity|]. split; [apply list_elem_of_here|].
  exists (NewVersion 2 0 0). split; [vm_compute; reflexivity | left; reflexivity].
Qed.

(* ===================================================================== *)
(** ** Properties of the metrics collector                                *)
(* ===================================================================== *)

Section Metrics.

Variables (component : string) (version : Version).

Lemma wrap64_small (z : Z) : minInt64 ≤ z ≤ maxInt64 → wrap64 z = z.
Proof.
  unfold wrap64, minInt64, maxInt64, two63, two64. intros H.
  rewrite Z.mod_small by lia. lia.
Qed.

Lemma requestCalls_cons (call : MetricsCall) (calls : list MetricsCall) :
  requestCalls (call :: calls) = (if isRequest call then 1 else 0) + requestCalls calls.
Proof.
  unfold requestCalls. cbn [List.filter].
  destruct (isRequest call); [cbn [length]; rewrite Nat2Z.inj_succ|]; lia.
Qed.

Lemma errorCalls_cons (call : MetricsCall) (calls : list MetricsCall) :
  errorCalls (call :: calls) = (if isRequest call then 0 else 1) + errorCalls calls.
Proof.
  unfold errorCalls. cbn [List.filter].
  destruct (isRequest call); cbn [negb]; [|cbn [length]; rewrite Nat2Z.inj_succ]; lia.
Qed.

Lemma requestCalls_nonneg (calls : list MetricsCall) : 0 ≤ requestCalls calls.
Proof. unfold requestCalls. lia. Qed.

Lemma errorCalls_nonneg (calls : list MetricsCall) : 0 ≤ errorCalls calls.
Proof. unfold errorCalls. lia. Qed.

Lemma increment_countsMap (versionStr : string) (n : Z) :
  0 ≤ n < maxInt64 →
  increment (countsMap versionStr n) versionStr = countsMap versionStr (n + 1).
Proof.
  intros Hn. unfold increment, countsMap.
  destruct (Z.eqb_spec n 0) as [-> | Hne].
  - rewrite lookup_empty. cbn [from_option id].
    rewrite wrap64_small by (unfold minInt64, maxInt64; lia).
    cbn. now rewrite insert_empty.
  - rewrite lookup_singleton_eq. cbn [from_option id].
    rewrite wrap64_small by (unfold minInt64, maxInt64 in *; lia).
    destruct (Z.eqb_spec (n + 1) 0) as [H0 | _]; [lia|].
    now rewrite insert_singleton_eq.
Qed.

Lemma metricsEntry_tracks (n e : Z) (c : DefaultMetricsCollector) :
  tracks component (String_ version) n e c →
  ∃ lastAccessed,
    metricsEntry c component
    = mkComponentMetrics component (countsMap (String_ version) n) lastAccessed
        (countsMap (String_ version) e).
Proof.
  unfold tracks, metricsEntry.
  destruct ((n =? 0) && (e =? 0)) eqn:E.
  - intros ->. apply andb_prop in E as [->%Z.eqb_eq ->%Z.eqb_eq]. exists ∅. reflexivity.
  - intros [la ->]. exists la. reflexivity.
Qed.

Lemma tracks_applyCall (n e : Z) (c : DefaultMetricsCollector) (call : MetricsCall) :
  0 ≤ n → 0 ≤ e →
  n + (if isRequest call then 1 else 0) ≤ maxInt64 →
  e + (if isRequest call then 0 else 1) ≤ maxInt64 →
  tracks component (String_ version) n e c →
  tracks component (String_ version)
    (n + (if isRequest call then 1 else 0)) (e + (if isRequest call then 0 else 1))
    (applyCall component version c call).
Proof.
  intros Hn He Hnmax Hemax Ht.
  destruct (metricsEntry_tracks n e c Ht) as [la Hentry].
  destruct call as [now|]; cbn [isRequest applyCall] in *; unfold tracks.
  - replace ((n + 1 =? 0) && (e + 0 =? 0)) with false
      by (symmetry; apply andb_false_iff; left; apply Z.eqb_neq; lia).
    unfold RecordRequest. rewrite Hentry. cbn [metrics cmComponent VersionMetrics
      LastAccessed ErrorCounts]. rewrite lookup_insert_eq.
    rewrite increment_countsMap by lia. rewrite Z.add_0_r. eauto.
  - replace ((n + 0 =? 0) && (e + 1 =? 0)) with false
      by (symmetry; apply andb_false_iff; right; apply Z.eqb_neq; lia).
    unfold RecordError. rewrite Hentry. cbn [metrics cmComponent VersionMetrics
      LastAccessed ErrorCounts]. rewrite lookup_insert_eq.
    rewrite increment_countsMap by lia. rewrite Z.add_0_r. eauto.
Qed.

Lemma tracks_fold (calls : list MetricsCall) (n e : Z) (c : DefaultMetricsCollector) :
  0 ≤ n → 0 ≤ e →
  n + requestCalls calls ≤ maxInt64 →
  e + errorCalls calls ≤ maxInt64 →
  tracks component (String_ version) n e c →
  tracks component (String_ version) (n + requestCalls calls) (e + errorCalls calls)
    (fold_left (applyCall component version) calls c).
Proof.
  revert n e c. induction calls as [|call calls IH]; intros n e c Hn He Hnmax Hemax Ht.
  - cbn. now rewrite !Z.add_0_r.
  - rewrite requestCalls_cons, errorCalls_cons in *.
    pose proof (requestCalls_nonneg calls). pose proof (errorCalls_nonneg calls).
    cbn [fold_left]. rewrite !Z.add_assoc.
    apply IH; try (destruct (isRequest call); lia).
    apply tracks_applyCall; try assumption; destruct (isRequest call); lia.
Qed.

Lemma tracks_replay (calls : list MetricsCall) :
  requestCalls calls ≤ maxInt64 →
  errorCalls calls ≤ maxInt64 →
  tracks component (String_ version) (requestCalls calls) (errorCalls calls)
    (replay component version calls).
Proof.
  intros Hn He.
  apply (tracks_fold calls 0 0 NewDefaultMetricsCollector); try lia.
  unfold tracks. cbn. apply lookup_empty.
Qed.

Lemma calls_counted (calls : list MetricsCall) :
  calls ≠ [] → (requestCalls calls =? 0) && (errorCalls calls =? 0) = false.
Proof.
  destruct calls as [|call calls]; [congruence|]. intros _.
  rewrite requestCalls_cons, errorCalls_cons.
  pose proof (requestCalls_nonneg calls). pose proof (errorCalls_nonneg calls).
  apply andb_false_iff.
  destruct (isRequest call); [left | right]; apply Z.eqb_neq; lia.
Qed.

(** The counter is an [int64]: one more event at 2^63 - 1 wraps around. *)
Lemma increment_wraps (versionStr : string) :
  increment {[ versionStr := maxInt64 ]} versionStr = {[ versionStr := minInt64 ]}.
Proof.
  unfold increment. rewrite lookup_singleton_eq. cbn [from_option id].
  now rewrite insert_singleton_eq.
Qed.

(** Totals computed by the loops of [GetUsageStats] over the enumeration of
    a [countsMap]. *)
Lemma countsMap_enumeration (versionStr : string) (n : Z) (order : list (string * Z)) :
  order ≡ₚ map_to_list (countsMap versionStr n) →
  order = if n =? 0 then [] else [(versionStr, n)].
Proof.
  unfold countsMap. destruct (n =? 0).
  - rewrite map_to_list_empty. apply Permutation_nil_r.
  - rewrite map_to_list_singleton. apply Permutation_singleton_r.
Qed.

End Metrics.

(** C8 (as amended).  For calls made on a new collector for one
    (component, version) pair in any interleaving, fewer than 2^63 of each
    kind: when no call was made, [GetUsageStats] returns nil; after at
    least one call it returns statistics whose [TotalRequests] is the
    number N of [RecordRequest] calls, whose [TotalErrors] is the number E of
    [RecordError] calls and whose [ErrorRate] is the [float64] quotient
    [float64(E) / float64(N)], [0.0] when there was no request. *)
Theorem GetUsageStats_after_calls (component : string) (version : Version)
    (calls : list MetricsCall) (requestOrder errorOrder : list (string * Z)) :
  requestCalls calls ≤ maxInt64 →
  errorCalls calls ≤ maxInt64 →
  enumerates (replay component version calls) component requestOrder errorOrder →
  (calls = [] →
   GetUsageStats (replay component version calls) component requestOrder errorOrder = None) ∧
  (calls ≠ [] →
   reports calls
     (GetUsageStats (replay component version calls) component requestOrder errorOrder)).
Proof.
  intros Hn He Henum. split; [intros ->; reflexivity|]. intros Hne.
  pose proof (tracks_replay component version calls Hn He) as Ht.
  unfold tracks in Ht. rewrite (calls_counted calls Hne) in Ht.
  destruct Ht as [la Hm].
  destruct (Henum _ Hm) as [Hreq Herr]. cbn [VersionMetrics ErrorCounts] in Hreq, Herr.
  apply countsMap_enumeration in Hreq, Herr.
  pose proof (requestCalls_nonneg calls) as Hn0.
  pose proof (errorCalls_nonneg calls) as He0.
  unfold reports, GetUsageStats, GetMetrics. rewrite Hm.
  eexists. split; [reflexivity|]. cbn [TotalRequests TotalErrors ErrorRate LastAccessed].
  assert (Htotal : totalRequests
            (fold_left (usageStep la) requestOrder (mkUsageAcc 0 0 (-1) "" "" ""))
          = requestCalls calls).
  { rewrite Hreq. destruct (Z.eqb_spec (requestCalls calls) 0) as [-> | Hpos]; [reflexivity|].
    cbn [fold_left usageStep]. cbn [totalRequests mostUsedCount leastUsedCount].
    destruct (requestCalls calls >? 0), ((-1 =? -1) || (requestCalls calls <? -1)),
      (la !! String_ version) as [t|];
      cbn [totalRequests]; try destruct (_ || _)%bool; cbn [totalRequests];
      apply wrap64_small; unfold minInt64, maxInt64 in *; lia. }
  assert (Herrors : fold_left (fun total entry => wrap64 (total + snd entry)) errorOrder 0
                    = errorCalls calls).
  { rewrite Herr. destruct (Z.eqb_spec (errorCalls calls) 0) as [-> | Hpos]; [reflexivity|].
    cbn. apply wrap64_small. unfold minInt64, maxInt64 in *. lia. }
  rewrite Htotal, Herrors. split; [reflexivity|]. split; [reflexivity|].
  destruct (Z.eqb_spec (requestCalls calls) 0) as [-> | Hpos]; [reflexivity|].
  replace (requestCalls calls >? 0) with true by (symmetry; apply Z.gtb_lt; lia).
  reflexivity.
Qed.

(** Two requests and one error for ("users", v1.0.0). *)
Lemma GetUsageStats_after_calls_witness :
  reports [CallRecordRequest "2024-01-01T00:00:00Z"; CallRecordError;
           CallRecordRequest "2024-01-01T00:00:05Z"]
    (GetUsageStats
       (replay "users" (NewVersion 1 0 0)
          [CallRecordRequest "2024-01-01T00:00:00Z"; CallRecordError;
           CallRecordRequest "2024-01-01T00:00:05Z"])
       "users" [("v1.0.0", 2)] [("v1.0.0", 1)]).
Proof.
  refine (proj2 (GetUsageStats_after_calls "users" (NewVersion 1 0 0)
                   [CallRecordRequest "2024-01-01T00:00:00Z"; CallRecordError;
                    CallRecordRequest "2024-01-01T00:00:05Z"]
                   [("v1.0.0", 2)] [("v1.0.0", 1)] _ _ _) _).
  - vm_compute. discriminate.
  - vm_compute. discriminate.
  - intros m Hm. vm_compute in Hm. injection Hm as <-.
    split; vm_compute; apply Permutation_refl.
  - discriminate.
Defined.

(** The error rate is a rounded quotient: one error in three requests
    gives the [float64] nearest to 1/3. *)
Example ErrorRate_one_third :
  ErrorRate <$>
    GetUsageStats
      (replay "users" (NewVersion 1 0 0)
         [CallRecordRequest "t1"; CallRecordRequest "t2"; CallRecordRequest "t3";
          CallRecordError])
      "users" [("v1.0.0", 3)] [("v1.0.0", 1)]
  = Some (S754_finite false 6004799503160661 (-54)).
Proof. vm_compute. reflexivity. Qed.

(** C8 (as stated) fails for N = 0 and E = 0: nothing was recorded for the
    component, and [GetUsageStats] returns nil instead of statistics. *)
Lemma GetUsageStats_no_calls_counterexample : ¬ usage_stats_for_all_counts.
Proof.
  intros H.
  destruct (H "users" (NewVersion 1 0 0) [] [] []) as (stats & Hsome & _).
  - intros m Hm. vm_compute in Hm. discriminate Hm.
  - vm_compute in Hsome. discriminate Hsome.
Qed.

(* ===================================================================== *)
(** ** Properties of the field-mapping transform                          *)
(* ===================================================================== *)

Section FieldMappingTransform.

Variable inputMap : gmap string Value.

(** Only the hook "string" changes a value; no hook fails. *)
Lemma transformValue_passthrough (value : Value) (transform : string) :
  transform ≠ "string" → transformValue value transform = Ok value.
Proof.
  intros Hne. unfold transformValue.
  destruct (String.eqb transform ""); [reflexivity|].
  destruct (String.eqb_spec transform "string") as [-> | _]; [congruence|].
  destruct (String.eqb transform "int"); [|reflexivity].
  now destruct value.
Qed.

Lemma transformValue_Ok (value : Value) (transform : string) :
  ∃ transformed, transformValue value transform = Ok transformed.
Proof.
  unfold transformValue.
  destruct (String.eqb transform ""); [eauto|].
  destruct (String.eqb transform "string"); [eauto|].
  destruct (String.eqb transform "int"); [destruct value|]; eauto.
Qed.

Lemma transformValue_written (mapping : FieldMapping) (value : Value) :
  inputMap !! FromField mapping = Some value →
  transformValue value (Transform mapping) = Ok (written inputMap mapping).
Proof.
  intros H. unfold written. rewrite H.
  destruct (transformValue_Ok value (Transform mapping)) as [w Hw]. now rewrite Hw.
Qed.

(** One iteration of the mapping loop, by cases on the mapping. *)
Lemma applyMappings_cons (mapping : FieldMapping) (rest : list FieldMapping)
    (resultMap : gmap string Value) :
  applyMappings inputMap (mapping :: rest) resultMap
  = if blocks inputMap mapping
    then Err (ErrorString ("required field " +:+ FromField mapping +:+ " is missing"))
    else if fires inputMap mapping
         then applyMappings inputMap rest
                (<[ToField mapping := written inputMap mapping]> resultMap)
         else applyMappings inputMap rest resultMap.
Proof.
  cbn [applyMappings]. unfold blocks, fires.
  destruct (inputMap !! FromField mapping) as [value|] eqn:E.
  - rewrite (transformValue_written mapping value E).
    rewrite bool_decide_eq_true_2 by eauto. reflexivity.
  - rewrite (bool_decide_eq_false_2 (is_Some None)) by (intros [? ?]; discriminate).
    cbn [negb orb andb].
    unfold written. rewrite E.
    destruct (bool_decide (DefaultValue mapping = VNil)); cbn [negb andb]; [|reflexivity].
    destruct (Required mapping); reflexivity.
Qed.

Lemma applyMappings_blocked (mappings : list FieldMapping) (resultMap : gmap string Value) :
  (∃ mapping, mapping ∈ mappings ∧ blocks inputMap mapping = true) →
  ∃ e, applyMappings inputMap mappings resultMap = Err e.
Proof.
  revert resultMap. induction mappings as [|mapping rest IH]; intros resultMap (mp & Hin & Hb).
  - inversion Hin.
  - rewrite applyMappings_cons. destruct (blocks inputMap mapping) eqn:E; [eauto|].
    apply elem_of_cons in Hin as [-> | Hin]; [congruence|].
    destruct (fires inputMap mapping); apply IH; eauto.
Qed.

Lemma applyMappings_total (mappings : list FieldMapping) (resultMap : gmap string Value) :
  (∀ mapping, mapping ∈ mappings → blocks inputMap mapping = false) →
  ∃ out, applyMappings inputMap mappings resultMap = Ok out.
Proof.
  revert resultMap. induction mappings as [|mapping rest IH]; intros resultMap Hnb.
  - eauto.
  - rewrite applyMappings_cons, (Hnb mapping (list_elem_of_here _ _)).
    destruct (fires inputMap mapping); apply IH;
      intros mp Hmp; apply Hnb; now apply list_elem_of_further.
Qed.

(** A key no firing mapping writes keeps its value. *)
Lemma applyMappings_untouched (mappings : list FieldMapping)
    (resultMap out : gmap string Value) (key : string) :
  applyMappings inputMap mappings resultMap = Ok out →
  (∀ mapping, mapping ∈ mappings → fires inputMap mapping = true → ToField mapping ≠ key) →
  out !! key = resultMap !! key.
Proof.
  revert resultMap. induction mappings as [|mapping rest IH]; intros resultMap Hout Hno.
  - cbn in Hout. now injection Hout as <-.
  - rewrite applyMappings_cons in Hout.
    destruct (blocks inputMap mapping); [discriminate|].
    assert (Hrest : ∀ mp, mp ∈ rest → fires inputMap mp = true → ToField mp ≠ key)
      by (intros mp Hmp; apply Hno; now apply list_elem_of_further).
    destruct (fires inputMap mapping) eqn:Ef.
    + rewrite (IH _ Hout Hrest).
      apply lookup_insert_ne, (Hno mapping (list_elem_of_here _ _) Ef).
    + exact (IH _ Hout Hrest).
Qed.

(** The last firing mapping with a given destination decides its value. *)
Lemma applyMappings_last (pre post : list FieldMapping) (mapping : FieldMapping)
    (resultMap out : gmap string Value) :
  applyMappings inputMap (pre ++ mapping :: post) resultMap = Ok out →
  fires inputMap mapping = true →
  (∀ later, later ∈ post → fires inputMap later = true → ToField later ≠ ToField mapping) →
  out !! ToField mapping = Some (written inputMap mapping).
Proof.
  revert resultMap. induction pre as [|first pre IH]; intros resultMap Hout Hf Hpost.
  - cbn [app] in Hout. rewrite applyMappings_cons, Hf in Hout.
    destruct (blocks inputMap mapping); [discriminate|].
    rewrite (applyMappings_untouched _ _ _ _ Hout Hpost). apply lookup_insert_eq.
  - cbn [app] in Hout. rewrite applyMappings_cons in Hout.
    destruct (blocks inputMap first); [discriminate|].
    destruct (fires inputMap first); exact (IH _ Hout Hf Hpost).
Qed.

(** The copy pass over entries with distinct keys. *)
Lemma copyUnmapped_lookup (mappings : list FieldMapping) (entries : list (string * Value))
    (resultMap : gmap string Value) (key : string) :
  NoDup entries.*1 →
  copyUnmapped mappings entries resultMap !! key
  = if mappingExists mappings key then resultMap !! key
    else match (list_to_map entries : gmap string Value) !! key with
         | Some value => Some value
         | None => resultMap !! key
         end.
Proof.
  revert resultMap. induction entries as [|[k v] rest IH]; intros resultMap Hnd.
  - cbn. rewrite lookup_empty. now destruct (mappingExists mappings key).
  - rewrite fmap_cons in Hnd. apply NoDup_cons in Hnd as [Hk Hnd]. cbn [fst] in Hk.
    change (copyUnmapped mappings ((k, v) :: rest) resultMap)
      with (copyUnmapped mappings rest
              (if negb (mappingExists mappings k) then <[k := v]> resultMap else resultMap)).
    rewrite (IH _ Hnd). clear IH. rewrite list_to_map_cons.
    destruct (decide (k = key)) as [-> | Hne].
    + rewrite lookup_insert_eq.
      rewrite (not_elem_of_list_to_map_1 (M := gmap string) rest key Hk).
      destruct (mappingExists mappings key); cbn [negb]; [reflexivity|].
      apply lookup_insert_eq.
    + rewrite lookup_insert_ne by exact Hne.
      destruct (mappingExists mappings k); cbn [negb]; [reflexivity|].
      rewrite lookup_insert_ne by exact Hne. reflexivity.
Qed.

(** The order in which the copy pass visits the input does not matter. *)
Lemma copyUnmapped_order (mappings : list FieldMapping) (entries : list (string * Value))
    (resultMap : gmap string Value) :
  entries ≡ₚ map_to_list inputMap →
  copyUnmapped mappings entries resultMap
  = copyUnmapped mappings (map_to_list inputMap) resultMap.
Proof.
  intros Hperm. apply map_eq. intros key.
  assert (Hnd : NoDup entries.*1).
  { rewrite Hperm. apply NoDup_fst_map_to_list. }
  rewrite !copyUnmapped_lookup by (assumption || apply NoDup_fst_map_to_list).
  rewrite (list_to_map_proper (M := gmap string) _ _ Hnd Hperm). reflexivity.
Qed.

Lemma copyUnmapped_input (mappings : list FieldMapping) (resultMap : gmap string Value)
    (key : string) :
  copyUnmapped mappings (map_to_list inputMap) resultMap !! key
  = if unmapped mappings inputMap key then inputMap !! key else resultMap !! key.
Proof.
  rewrite copyUnmapped_lookup by apply NoDup_fst_map_to_list.
  rewrite list_to_map_to_list. unfold unmapped.
  destruct (mappingExists mappings key); cbn [negb]; [now rewrite andb_false_r|].
  rewrite andb_true_r. destruct (inputMap !! key) eqn:E.
  - rewrite bool_decide_eq_true_2 by eauto. reflexivity.
  - rewrite bool_decide_eq_false_2 by (intros [? ?]; discriminate). reflexivity.
Qed.

End FieldMappingTransform.

(** C4 (as amended).  For a migration with field mappings [ms] and an
    input of type map[string]interface{}:
    - the transform fails when some mapping has its source absent, no
      default and is required; otherwise it produces an output map;
    - every input field that is not the source of a mapping is in the
      output unchanged;
    - a mapping whose source is present, or absent with a default, shows in
      the output at its destination (the transformed source value, resp.
      the default), PROVIDED no later mapping that writes has the same
      destination and the destination is not an input field copied
      through;
    - a key that is neither copied through nor written by a mapping is not
      in the output;
    - hooks other than "string" pass the value through;
    - the enumeration order of the input is immaterial;
    - the example mapping applied to the example input gives the example
      output, also through [AddAutomaticMigration] and [Migrate]. *)
Theorem migrateMapData_field_mappings (migration : VersionMigration)
    (inputMap : gmap string Value) :
  let ms := FieldMappings migration in
  ((∃ mapping, mapping ∈ ms ∧ blocks inputMap mapping = true) →
   ∃ e, migrateMapData migration (AMap inputMap) = Err e) ∧
  ((∀ mapping, mapping ∈ ms → blocks inputMap mapping = false) →
   ∃ out,
     migrateMapData migration (AMap inputMap) = Ok (AMap out) ∧
     (∀ key value, inputMap !! key = Some value → mappingExists ms key = false →
                   out !! key = Some value) ∧
     (∀ pre mapping post,
         ms = (pre ++ mapping :: post)%list →
         fires inputMap mapping = true →
         unmapped ms inputMap (ToField mapping) = false →
         (∀ later, later ∈ post → fires inputMap later = true →
                   ToField later ≠ ToField mapping) →
         out !! ToField mapping = Some (written inputMap mapping)) ∧
     (∀ key, unmapped ms inputMap key = false →
             (∀ mapping, mapping ∈ ms → fires inputMap mapping = true →
                         ToField mapping ≠ key) →
             out !! key = None)) ∧
  (∀ value transform, transform ≠ "string" → transformValue value transform = Ok value) ∧
  (∀ entries resultMap,
      entries ≡ₚ map_to_list inputMap →
      copyUnmapped ms entries resultMap = copyUnmapped ms (map_to_list inputMap) resultMap) ∧
  migrateMapData
    (mkVersionMigration (NewVersion 1 0 0) (NewVersion 2 0 0) MigrationStrategyAutomatic
       exampleMappings None false "" ∅) (AMap exampleInput)
  = Ok (AMap exampleOutput) ∧
  Migrate
    (fst (AddAutomaticMigration (NewMigrator "users") (NewVersion 1 0 0) (NewVersion 2 0 0)
            exampleMappings false))
    (NewVersion 1 0 0) (NewVersion 2 0 0) (AMap exampleInput)
  = Ok (AMap exampleOutput).
Proof.
  intros ms. split; [|split; [|split; [|split; [|split]]]].
  - intros Hb. unfold migrateMapData. fold ms.
    destruct (applyMappings_blocked inputMap ms ∅ Hb) as [e ->]. eauto.
  - intros Hnb. unfold migrateMapData. fold ms.
    destruct (applyMappings_total inputMap ms ∅ Hnb) as [res Hres]. rewrite Hres.
    eexists. split; [reflexivity|]. split; [|split].
    + intros key value Hin Hex. rewrite copyUnmapped_input.
      unfold unmapped. rewrite Hex, bool_decide_eq_true_2 by eauto. exact Hin.
    + intros pre mapping post Hms Hf Hun Hpost. rewrite copyUnmapped_input, Hun.
      rewrite Hms in Hres. exact (applyMappings_last inputMap _ _ _ _ _ Hres Hf Hpost).
    + intros key Hun Hno. rewrite copyUnmapped_input, Hun.
      rewrite (applyMappings_untouched inputMap _ _ _ _ Hres Hno). apply lookup_empty.
  - apply transformValue_passthrough.
  - intros entries resultMap. apply copyUnmapped_order.
  - vm_compute. reflexivity.
  - vm_compute. reflexivity.
Qed.

(** The mapping [name -> display_name] of the example at work: a key that
    is not an input field, written once. *)
Lemma migrateMapData_field_mappings_witness :
  ∃ out,
    migrateMapData
      (mkVersionMigration (NewVersion 1 0 0) (NewVersion 2 0 0) MigrationStrategyAutomatic
         exampleMappings None false "" ∅) (AMap exampleInput)
    = Ok (AMap out) ∧
    out !! "display_name" = Some (VString "John Doe") ∧
    out !! "role" = Some (VString "admin").
Proof.
  destruct (proj1 (proj2 (migrateMapData_field_mappings
              (mkVersionMigration (NewVersion 1 0 0) (NewVersion 2 0 0)
                 MigrationStrategyAutomatic exampleMappings None false "" ∅)
              exampleInput)))
    as (out & Hout & Hcopy & Hmap & _).
  - intros mapping Hin.
    repeat (apply elem_of_cons in Hin as [-> | Hin]; [vm_compute; reflexivity|]).
    inversion Hin.
  - exists out. split; [exact Hout|]. split.
    + refine (Hmap [] (mkFieldMapping "name" "display_name" "" VNil true) _ eq_refl _ _ _).
      * vm_compute. reflexivity.
      * vm_compute. reflexivity.
      * intros later Hin.
        repeat (apply elem_of_cons in Hin as [-> | Hin]; [intros _; discriminate|]).
        inversion Hin.
    + apply Hcopy; vm_compute; reflexivity.
Defined.

(** C4 (as stated) fails: with the one mapping [a -> b] and the input
    {a: 1, b: 2}, the unmapped input field [b] is copied through after the
    mapping wrote [b], so the output has [b = 2], not the mapped value 1. *)
Lemma migrateMapData_overwritten_counterexample : ¬ every_mapping_shows_in_output.
Proof.
  intros H.
  destruct (H (mkVersionMigration (NewVersion 1 0 0) (NewVersion 2 0 0)
                 MigrationStrategyAutomatic [mkFieldMapping "a" "b" "" VNil false]
                 None false "" ∅)
              {[ "a" := VInt 1; "b" := VInt 2 ]}
              {[ "b" := VInt 2 ]})
    as [Hmap _].
  - vm_compute. reflexivity.
  - specialize (Hmap (mkFieldMapping "a" "b" "" VNil false) (list_elem_of_here _ _)).
    vm_compute in Hmap. specialize (Hmap eq_refl). discriminate Hmap.
Qed.

(* ===================================================================== *)
(** * Further properties of the package                                   *)
(* ===================================================================== *)

(* ===================================================================== *)
(** ** Ordering of versions                                               *)
(* ===================================================================== *)

(** The value of [Compare] against the lexicographic order of the
    triples. *)
Lemma Compare_cases (a b : Version) :
  (Compare a b = -1 ∧ tripleLt a b) ∨
  (Compare a b = 0 ∧ Major a = Major b ∧ Minor a = Minor b ∧ Patch a = Patch b) ∨
  (Compare a b = 1 ∧ tripleLt b a).
Proof.
  unfold Compare, tripleLt.
  destruct (Z.eqb_spec (Major a) (Major b)) as [HM | HM]; cbn [negb].
  - destruct (Z.eqb_spec (Minor a) (Minor b)) as [Hm | Hm]; cbn [negb].
    + destruct (Z.eqb_spec (Patch a) (Patch b)) as [Hp | Hp]; cbn [negb].
      * right. left. auto.
      * destruct (Z.ltb_spec (Patch a) (Patch b)); [left | right; right];
          (split; [reflexivity | lia]).
    + destruct (Z.ltb_spec (Minor a) (Minor b)); [left | right; right];
        (split; [reflexivity | lia]).
  - destruct (Z.ltb_spec (Major a) (Major b)); [left | right; right];
      (split; [reflexivity | lia]).
Qed.

Lemma Compare_neg (a b : Version) : Compare a b = - Compare b a.
Proof.
  destruct (Compare_cases a b) as [[-> H1] | [[-> H1] | [-> H1]]];
    destruct (Compare_cases b a) as [[-> H2] | [[-> H2] | [-> H2]]];
    unfold tripleLt in *; lia.
Qed.

Lemma Compare_le_trans (a b c : Version) :
  Compare a b ≤ 0 → Compare b c ≤ 0 → Compare a c ≤ 0.
Proof.
  destruct (Compare_cases a b) as [[-> H1] | [[-> H1] | [-> H1]]];
    destruct (Compare_cases b c) as [[-> H2] | [[-> H2] | [-> H2]]];
    destruct (Compare_cases a c) as [[-> H3] | [[-> H3] | [-> H3]]];
    intros; unfold tripleLt in *; lia.
Qed.

(** X1.  [Compare] is a three-way comparison: its value is -1, 0 or 1, and
    exchanging the arguments negates it. *)
Theorem Compare_antisymmetric (a b : Version) :
  Compare a b = - Compare b a ∧ (Compare a b = -1 ∨ Compare a b = 0 ∨ Compare a b = 1).
Proof.
  split; [apply Compare_neg|].
  destruct (Compare_cases a b) as [[-> _] | [[-> _] | [-> _]]]; auto.
Qed.

(** X2.  [Compare] orders versions transitively. *)
Theorem Compare_transitive (a b c : Version) :
  Compare a b ≤ 0 → Compare b c ≤ 0 → Compare a c ≤ 0.
Proof. apply Compare_le_trans. Qed.

Lemma Compare_transitive_witness :
  Compare (ParseVersion "v1.2.3") (ParseVersion "v2.0.0-beta") ≤ 0.
Proof.
  apply (Compare_transitive (ParseVersion "v1.2.3") (NewVersion 1 10 0)
           (ParseVersion "v2.0.0-beta")); vm_compute; discriminate.
Defined.

(** X3.  [IsCompatible] is reflexive and transitive, and two versions that
    are compatible in both directions have the same (major, minor, patch):
    the relation is not symmetric. *)
Theorem IsCompatible_order (a b c : Version) :
  IsCompatible a a = true ∧
  (IsCompatible a b = true → IsCompatible b a = true → sameTriple a b = true) ∧
  (IsCompatible a b = true → IsCompatible b c = true → IsCompatible a c = true).
Proof.
  unfold IsCompatible, sameTriple. split; [|split].
  - rewrite Z.eqb_refl. cbn [negb]. rewrite Compare_refl. reflexivity.
  - destruct (Z.eqb_spec (Major a) (Major b)) as [HM|]; [|discriminate].
    destruct (Z.eqb_spec (Major b) (Major a)) as [_|]; [|discriminate].
    cbn [negb]. intros Hab%Z.geb_le Hba%Z.geb_le.
    assert (Compare a b = 0) as Hz by (pose proof (Compare_neg a b); lia).
    apply Compare_zero_triple in Hz as (_ & Hm & Hp).
    now rewrite Hm, Hp, !Z.eqb_refl.
  - destruct (Z.eqb_spec (Major a) (Major b)) as [HM|]; [|discriminate].
    destruct (Z.eqb_spec (Major b) (Major c)) as [HM'|]; [|discriminate].
    rewrite HM, HM', Z.eqb_refl. cbn [negb]. intros Hab%Z.geb_le Hbc%Z.geb_le.
    apply Z.geb_le.
    pose proof (Compare_neg a b). pose proof (Compare_neg b c).
    pose proof (Compare_neg a c). pose proof (Compare_le_trans c b a). lia.
Qed.

Lemma IsCompatible_order_witness :
  IsCompatible (NewVersion 1 2 3) (ParseVersion "v1.0.0") = true ∧
  IsCompatible (ParseVersion "v1.0.0") (NewVersion 1 2 3) = false.
Proof.
  split; [|reflexivity].
  apply (proj2 (proj2 (IsCompatible_order (NewVersion 1 2 3) (NewVersion 1 1 0)
                         (ParseVersion "v1.0.0")))); reflexivity.
Defined.

(** X4.  The three upgrade predicates split "newer": [v] compares greater
    than [other] exactly when one of [IsMajorBreaking], [IsMinorUpgrade],
    [IsPatchUpgrade] holds, and no two of them hold together. *)
Theorem upgrade_kinds_partition (v other : Version) :
  IsNewerVersion v other
  = IsMajorBreaking v other || IsMinorUpgrade v other || IsPatchUpgrade v other ∧
  IsMajorBreaking v other && IsMinorUpgrade v other = false ∧
  IsMajorBreaking v other && IsPatchUpgrade v other = false ∧
  IsMinorUpgrade v other && IsPatchUpgrade v other = false.
Proof.
  unfold IsNewerVersion, IsMajorBreaking, IsMinorUpgrade, IsPatchUpgrade.
  rewrite !Z.gtb_ltb.
  destruct (Compare_cases v other) as [[-> H] | [[-> H] | [-> H]]]; unfold tripleLt in H;
    destruct (Z.ltb_spec (Major other) (Major v)), (Z.eqb_spec (Major v) (Major other));
    try lia; cbn [andb orb];
    destruct (Z.ltb_spec (Minor other) (Minor v)), (Z.eqb_spec (Minor v) (Minor other));
    try lia; cbn [andb orb];
    destruct (Z.ltb_spec (Patch other) (Patch v)); try lia; auto.
Qed.

(* ===================================================================== *)
(** ** Parsing and printing                                               *)
(* ===================================================================== *)

Lemma ParseVersion_VersionStr (s : string) : VersionStr (ParseVersion s) = s.
Proof.
  unfold ParseVersion.
  destruct (String.eqb_spec s "") as [-> | _]; [reflexivity|].
  destruct (_ || _)%bool; [reflexivity|].
  destruct (Contains (TrimPrefix s "v") "-"); cbv zeta;
    match goal with |- context [match ?o with Some _ => _ | None => _ end] => destruct o end;
    reflexivity.
Qed.

Lemma ParseVersion_IsZero (s : string) : IsZero (ParseVersion s) = String.eqb s "".
Proof.
  destruct (String.eqb_spec s "") as [-> | Hne]; [reflexivity|].
  unfold IsZero. rewrite ParseVersion_VersionStr.
  destruct (String.eqb_spec s ""); [congruence | reflexivity].
Qed.

Lemma String_ParseVersion (s : string) : s ≠ "" → String_ (ParseVersion s) = s.
Proof.
  intros Hne. unfold String_. rewrite ParseVersion_VersionStr.
  destruct (String.eqb_spec s ""); [congruence | reflexivity].
Qed.

(** X5.  [ParseVersion] keeps its input: the [Version] field of the result
    is the input string, so the result is the zero version only for the
    empty input and, for a non-empty input, prints back as the input
    itself (no normalisation: "v2" stays "v2"). *)
Theorem ParseVersion_keeps_input (s : string) :
  VersionStr (ParseVersion s) = s ∧
  (IsZero (ParseVersion s) = true ↔ s = "") ∧
  (s ≠ "" → String_ (ParseVersion s) = s).
Proof.
  split; [apply ParseVersion_VersionStr|]. split.
  - rewrite ParseVersion_IsZero. apply String.eqb_eq.
  - apply String_ParseVersion.
Qed.

Lemma ParseVersion_keeps_input_witness : String_ (ParseVersion "v2") = "v2".
Proof. apply (proj2 (proj2 (ParseVersion_keeps_input "v2"))). discriminate. Defined.

(** X6.  No string is rejected: [ValidateVersionString] returns nil and
    [MustParseVersion] returns without panicking for every input, the
    unparseable ones included. *)
Theorem no_version_string_is_invalid (s : string) :
  ValidateVersionString s = None ∧ MustParseVersion s = Some (ParseVersion s).
Proof.
  unfold ValidateVersionString, MustParseVersion. cbv zeta.
  rewrite ParseVersion_IsZero. now destruct (String.eqb s "").
Qed.

(** X7.  Parsing a list of strings and printing the result gives back the
    non-empty strings of the list, in order. *)
Theorem ParseVersionSlice_roundtrip (versionStrs : list string) :
  VersionStringSlice (ParseVersionSlice versionStrs)
  = List.filter (fun s => negb (String.eqb s "")) versionStrs.
Proof.
  unfold VersionStringSlice, ParseVersionSlice.
  induction versionStrs as [|s rest IH]; [reflexivity|].
  cbn [map List.filter]. rewrite ParseVersion_IsZero.
  destruct (String.eqb_spec s "") as [-> | Hne]; cbn [negb]; [exact IH|].
  cbn [map]. rewrite IH. f_equal. now apply String_ParseVersion.
Qed.

Section Decimal.

Lemma digits_string_of_uint (d : Decimal.uint) (acc : Z) :
  digits acc (NilEmpty.string_of_uint d) = Some (uintZ acc d).
Proof.
  revert acc. induction d; intros acc; cbn [NilEmpty.string_of_uint uintZ digits];
    [reflexivity | exact (IHd _)..].
Qed.

Lemma uintZ_pos (d : Decimal.uint) (p : positive) :
  uintZ (Zpos p) d = Zpos (Pos.of_uint_acc d p).
Proof.
  revert p. induction d; intros p; cbn [uintZ Pos.of_uint_acc]; [reflexivity|..];
    match goal with
    | |- uintZ ?z _ = Zpos (Pos.of_uint_acc _ ?q) =>
        replace z with (Zpos q) by lia; apply IHd
    end.
Qed.

Lemma uintZ_zero (d : Decimal.uint) : uintZ 0 d = Z.of_N (Pos.of_uint d).
Proof.
  induction d; cbn [uintZ Pos.of_uint]; [reflexivity | exact IHd |..];
    match goal with |- uintZ ?z _ = _ => change z with (Zpos (Z.to_pos z)) end;
    cbn [Z.to_pos Z.of_N]; apply uintZ_pos.
Qed.

Lemma allDigits_string_of_uint (d : Decimal.uint) :
  allDigits (NilEmpty.string_of_uint d) = true.
Proof. induction d; cbn [NilEmpty.string_of_uint allDigits]; [reflexivity | exact IHd..]. Qed.

(** The decimal string of a positive number: non-empty, digits only, and
    read back by [digits]. *)
Lemma string_of_pos (p : positive) :
  ∃ c rest,
    NilZero.string_of_uint (Pos.to_uint p) = String c rest ∧
    allDigits (String c rest) = true ∧
    digits 0 (String c rest) = Some (Zpos p).
Proof.
  pose proof (digits_string_of_uint (Pos.to_uint p) 0) as Hd.
  rewrite uintZ_zero, DecimalPos.Unsigned.of_to in Hd. cbn [Z.of_N] in Hd.
  pose proof (allDigits_string_of_uint (Pos.to_uint p)) as Ha.
  unfold NilZero.string_of_uint.
  destruct (Pos.to_uint p) eqn:E; [cbn in Hd; discriminate Hd|..];
    cbn [NilEmpty.string_of_uint] in *; eauto.
Qed.

Lemma digit_not_sign (c : ascii) :
  isDigit c = true → c ≠ "-"%char ∧ c ≠ "+"%char.
Proof. intros H. split; intros ->; discriminate H. Qed.

Lemma Atoi_unsigned (c : ascii) (rest : string) (n : Z) :
  isDigit c = true →
  digits 0 (String c rest) = Some n →
  0 ≤ n ≤ maxInt64 →
  Atoi (String c rest) = Some n.
Proof.
  intros Hc Hd Hn. destruct (digit_not_sign c Hc) as [Hminus Hplus].
  unfold Atoi.
  assert (Hbody : (match String c rest with
                   | String "-"%char r => (true, r)
                   | String "+"%char r => (false, r)
                   | _ => (false, String c rest)
                   end) = (false, String c rest)).
  { destruct c as [[] [] [] [] [] [] [] []]; try reflexivity; congruence. }
  rewrite Hbody, Hd.
  replace (minInt64 <=? n) with true by (symmetry; apply Z.leb_le; unfold minInt64; lia).
  replace (n <=? maxInt64) with true by (symmetry; apply Z.leb_le; lia).
  reflexivity.
Qed.

(** [strconv.Atoi] reads back what [%d] prints, over all of [int]. *)
Lemma Atoi_Itoa (z : Z) : minInt64 ≤ z ≤ maxInt64 → Atoi (Itoa z) = Some z.
Proof.
  intros Hz. unfold Itoa. destruct z as [|p|p]; [reflexivity|..];
    cbn [Z.to_int NilZero.string_of_int];
    destruct (string_of_pos p) as (c & rest & -> & Ha & Hd).
  - apply Atoi_unsigned; [|exact Hd | lia].
    cbn [allDigits] in Ha. now apply andb_prop in Ha as [? _].
  - unfold Atoi. rewrite Hd.
    replace (minInt64 <=? - Z.pos p) with true by (symmetry; apply Z.leb_le; lia).
    replace (- Z.pos p <=? maxInt64) with true
      by (symmetry; apply Z.leb_le; unfold maxInt64 in *; lia).
    reflexivity.
Qed.

Lemma allDigits_Itoa (z : Z) : 0 ≤ z → allDigits (Itoa z) = true.
Proof.
  intros Hz. unfold Itoa. destruct z as [|p|p]; [reflexivity | | lia].
  cbn [Z.to_int NilZero.string_of_int].
  destruct (string_of_pos p) as (c & rest & -> & Ha & _). exact Ha.
Qed.

Lemma hasByte_allDigits (c : ascii) (s : string) :
  isDigit c = false → allDigits s = true → hasByte c s = false.
Proof.
  intros Hc. induction s as [|a s IH]; [reflexivity|].
  cbn [allDigits hasByte]. intros [Ha Hs]%andb_prop.
  destruct (Ascii.eqb_spec a c) as [-> | _]; [congruence | now apply IH].
Qed.

End Decimal.

Section PrintParse.

Variables (a b c : Z).
Hypothesis (Ha : 0 ≤ a ≤ maxInt64) (Hb : 0 ≤ b ≤ maxInt64) (Hc : 0 ≤ c ≤ maxInt64).

(** The printed triple without its leading 'v'. *)
Let triple : string := Itoa a +:+ "." +:+ Itoa b +:+ "." +:+ Itoa c.

Lemma triple_no_dash : hasByte "-" triple = false.
Proof.
  unfold triple. rewrite !hasByte_app.
  rewrite (hasByte_allDigits "-" (Itoa a)), (hasByte_allDigits "-" (Itoa b)),
    (hasByte_allDigits "-" (Itoa c))
    by (reflexivity || (apply allDigits_Itoa; lia)).
  reflexivity.
Qed.

Lemma triple_pieces : dotPieces triple [Itoa a; Itoa b; Itoa c].
Proof.
  split; [discriminate|]. split; [reflexivity|].
  repeat constructor; apply hasByte_allDigits; try reflexivity; apply allDigits_Itoa; lia.
Qed.

Lemma parsedAs_triple (s label : string) :
  special s = false →
  parsedAs s label [Itoa a; Itoa b; Itoa c] = mkVersion s a b c label.
Proof.
  intros Hs. unfold parsedAs, numField, index. rewrite Hs. cbn [nth lookup list_lookup].
  rewrite !Atoi_Itoa by (unfold minInt64; lia). reflexivity.
Qed.

Lemma special_v (rest : string) : special (String "v" rest) = false.
Proof. reflexivity. Qed.

Lemma ParseVersion_printed (label : string) :
  ParseVersion (VersionStr (NewVersionWithLabel a b c label))
  = NewVersionWithLabel a b c label.
Proof.
  unfold NewVersionWithLabel. cbn [VersionStr].
  change (fmtTriple a b c) with (String "v" triple).
  destruct (String.eqb_spec label "") as [-> | Hne]; cbn [negb].
  - rewrite (ParseVersion_parsedAs (String "v" triple) triple "" [Itoa a; Itoa b; Itoa c]).
    + now rewrite parsedAs_triple by apply special_v.
    + right. split; [apply triple_no_dash | split; reflexivity].
    + apply triple_pieces.
  - rewrite append_cons.
    rewrite (ParseVersion_parsedAs (String "v" (triple +:+ "-" +:+ label)) triple label
               [Itoa a; Itoa b; Itoa c]).
    + now rewrite parsedAs_triple by apply special_v.
    + left. split; [reflexivity | apply triple_no_dash].
    + apply triple_pieces.
Qed.

End PrintParse.

(** X8.  Printing and parsing are inverse on constructed versions with
    non-negative components: for 0 <= major, minor, patch < 2^63 and any
    label (also one that contains '-'), [ParseVersion] applied to the
    string of [NewVersionWithLabel] (of [NewVersion] for the empty label)
    gives back that version. *)
Theorem ParseVersion_String_roundtrip (a b c : Z) (label : string) :
  0 ≤ a ≤ maxInt64 → 0 ≤ b ≤ maxInt64 → 0 ≤ c ≤ maxInt64 →
  ParseVersion (String_ (NewVersionWithLabel a b c label)) = NewVersionWithLabel a b c label ∧
  ParseVersion (String_ (NewVersion a b c)) = NewVersion a b c.
Proof.
  intros Ha Hb Hc.
  assert (Hstr : ∀ l, String_ (NewVersionWithLabel a b c l)
                      = VersionStr (NewVersionWithLabel a b c l)).
  { intros l. unfold String_, NewVersionWithLabel. cbn [VersionStr].
    change (fmtTriple a b c)
      with (String "v" (Itoa a +:+ "." +:+ Itoa b +:+ "." +:+ Itoa c)).
    destruct (negb (String.eqb l "")); [rewrite append_cons|]; reflexivity. }
  split.
  - rewrite Hstr. now apply ParseVersion_printed.
  - change (NewVersion a b c) with (NewVersionWithLabel a b c "").
    rewrite Hstr. now apply ParseVersion_printed.
Qed.

Lemma ParseVersion_String_roundtrip_witness :
  ParseVersion (String_ (NewVersionWithLabel 1 20 3 "rc-1"))
  = NewVersionWithLabel 1 20 3 "rc-1".
Proof.
  apply (ParseVersion_String_roundtrip 1 20 3 "rc-1"); vm_compute; split; discriminate.
Defined.

(** A negative component does not survive the round trip: its sign is
    taken for the start of the label. *)
Example ParseVersion_negative_major :
  ParseVersion (String_ (NewVersion (-1) 0 0)) = opaqueVersion "v-1.0.0".
Proof. reflexivity. Qed.

(* ===================================================================== *)
(** ** Version ranges and version lists                                   *)
(* ===================================================================== *)

Lemma Compare_sameTriple_l (v w x : Version) :
  sameTriple v w = true → Compare v x = Compare w x.
Proof.
  unfold sameTriple. intros [[HM%Z.eqb_eq Hm%Z.eqb_eq]%andb_prop Hp%Z.eqb_eq]%andb_prop.
  unfold Compare. now rewrite HM, Hm, Hp.
Qed.

(** X9.  [VersionRange.Contains] looks only at (major, minor, patch) of the
    tested version: two versions with the same triple (whatever their labels
    and strings) are both inside or both outside any range. *)
Theorem Contains_triple_only (vr : VersionRange) (v w : Version) :
  sameTriple v w = true → Contains_ vr v = Contains_ vr w.
Proof.
  intros Hvw. unfold Contains_.
  rewrite !(Compare_sameTriple_l v w _ Hvw).
  destruct (0 <? length (Exact vr))%nat; [|reflexivity].
  induction (Exact vr) as [|x xs IH]; [reflexivity|].
  cbn [existsb]. rewrite IH. f_equal.
  unfold sameTriple in *.
  apply andb_prop in Hvw as [[HM%Z.eqb_eq Hm%Z.eqb_eq]%andb_prop Hp%Z.eqb_eq].
  now rewrite HM, Hm, Hp.
Qed.

Lemma Contains_triple_only_witness :
  Contains_ (NewVersionRange (NewVersion 1 0 0) (NewVersion 2 0 0))
    (ParseVersion "v1.5.0-beta")
  = Contains_ (NewVersionRange (NewVersion 1 0 0) (NewVersion 2 0 0)) (NewVersion 1 5 0).
Proof. apply Contains_triple_only. reflexivity. Defined.

(* ===================================================================== *)
(** ** Latest, oldest and closest version                                 *)
(* ===================================================================== *)

Lemma versionGreater_false (x y : Version) :
  versionGreater x y = false → Compare x y ≤ 0.
Proof.
  unfold versionGreater. intros H%Z.ltb_ge. pose proof (Compare_neg x y). lia.
Qed.

Lemma versionLess_false (x y : Version) :
  versionLess x y = false → Compare y x ≤ 0.
Proof.
  unfold versionLess. intros H%Z.ltb_ge. pose proof (Compare_neg x y). lia.
Qed.

(** The first element of a sort outcome is in the input and no element of
    the input is [less] than it. *)
Lemma sortOutcome_head (less : Version → Version → bool) (input output : list Version) :
  (∀ x, less x x = false) →
  sortOutcome less input output →
  input ≠ [] →
  nth 0 output zeroVersion ∈ input ∧
  ∀ w, w ∈ input → less w (nth 0 output zeroVersion) = false.
Proof.
  intros Hirr [Hperm Hsorted] Hne.
  destruct output as [|h rest].
  { apply Permutation_nil_l in Hperm. congruence. }
  cbn [nth]. split.
  - rewrite <- Hperm. apply list_elem_of_here.
  - intros w Hw. rewrite <- Hperm in Hw.
    apply elem_of_cons in Hw as [-> | Hw]; [apply Hirr|].
    apply list_elem_of_lookup in Hw as [j Hj].
    apply (Hsorted 0%nat (S j) h w); [lia | reflexivity | exact Hj].
Qed.

Lemma versionGreater_irrefl (x : Version) : versionGreater x x = false.
Proof. unfold versionGreater. now rewrite Compare_refl. Qed.

Lemma versionLess_irrefl (x : Version) : versionLess x x = false.
Proof. unfold versionLess. now rewrite Compare_refl. Qed.

Lemma GetLatestVersion_max (versions sorted : list Version) :
  sortOutcome versionGreater versions sorted →
  versions ≠ [] →
  GetLatestVersion versions sorted ∈ versions ∧
  ∀ w, w ∈ versions → Compare w (GetLatestVersion versions sorted) ≤ 0.
Proof.
  intros Hsort Hne. unfold GetLatestVersion.
  destruct versions as [|v vs]; [congruence|]. cbn [length Nat.eqb].
  destruct (sortOutcome_head _ _ _ versionGreater_irrefl Hsort Hne) as [Hin Hmax].
  split; [exact Hin|]. intros w Hw. apply versionGreater_false, Hmax, Hw.
Qed.

(** X10.  Whatever order the (unstable) sort leaves equal versions in:
    [GetLatestVersion] of a non-empty list is an element of the list that no
    element exceeds, [GetOldestVersion] one that no element is below, and
    both are the zero version for the empty list. *)
Theorem latest_and_oldest (versions descending ascending : list Version) :
  sortOutcome versionGreater versions descending →
  sortOutcome versionLess versions ascending →
  (versions = [] →
   GetLatestVersion versions descending = zeroVersion ∧
   GetOldestVersion versions ascending = zeroVersion) ∧
  (versions ≠ [] →
   GetLatestVersion versions descending ∈ versions ∧
   GetOldestVersion versions ascending ∈ versions ∧
   ∀ w, w ∈ versions →
        Compare w (GetLatestVersion versions descending) ≤ 0 ∧
        Compare (GetOldestVersion versions ascending) w ≤ 0).
Proof.
  intros Hdesc Hasc. split; [intros ->; split; reflexivity|]. intros Hne.
  destruct (GetLatestVersion_max _ _ Hdesc Hne) as [Hin Hmax].
  unfold GetOldestVersion.
  destruct versions as [|v vs] eqn:E; [congruence|]. cbn [length Nat.eqb].
  destruct (sortOutcome_head _ _ _ versionLess_irrefl Hasc Hne) as [Hin' Hmin].
  split; [exact Hin|]. split; [exact Hin'|].
  intros w Hw. split; [now apply Hmax|]. apply versionLess_false, Hmin, Hw.
Qed.

Lemma sortOutcome_three (less : Version → Version → bool) (x y z : Version) (input : list Version) :
  [x; y; z] ≡ₚ input →
  less y x = false → less z x = false → less z y = false →
  sortOutcome less input [x; y; z].
Proof.
  intros Hperm Hyx Hzx Hzy. split; [exact Hperm|].
  intros i j a b Hij Hi Hj.
  destruct i as [|[|[|i]]], j as [|[|[|j]]]; try lia; cbn in Hi, Hj;
    try discriminate; injection Hi as <-; injection Hj as <-; assumption.
Qed.

Lemma latest_and_oldest_witness :
  GetLatestVersion [NewVersion 1 0 0; NewVersion 2 0 0; NewVersion 1 1 0]
    [NewVersion 2 0 0; NewVersion 1 1 0; NewVersion 1 0 0]
  ∈ [NewVersion 1 0 0; NewVersion 2 0 0; NewVersion 1 1 0].
Proof.
  refine (proj1 (proj2 (latest_and_oldest
            [NewVersion 1 0 0; NewVersion 2 0 0; NewVersion 1 1 0]
            [NewVersion 2 0 0; NewVersion 1 1 0; NewVersion 1 0 0]
            [NewVersion 1 0 0; NewVersion 1 1 0; NewVersion 2 0 0] _ _) _)).
  - apply sortOutcome_three; [|reflexivity..].
    symmetry. apply (Permutation_cons_append [NewVersion 2 0 0; NewVersion 1 1 0]).
  - apply sortOutcome_three; [|reflexivity..].
    apply perm_skip, perm_swap.
  - discriminate.
Defined.

Lemma exact_is_compatible (v target : Version) :
  Compare v target = 0 → IsCompatible v target = true.
Proof.
  intros H. unfold IsCompatible.
  destruct (Compare_cases v target) as [[E _] | [[_ Heq] | [E _]]]; [lia | | lia].
  destruct Heq as (-> & _). rewrite Z.eqb_refl.
  cbn. apply Z.geb_le. lia.
Qed.

(** X11.  [FindClosestVersion] on a non-empty list returns an element of the
    list: the first one equal to the target on (major, minor, patch) if
    there is one; otherwise a highest one among those compatible with the
    target if there is one; otherwise a highest one of all. *)
Theorem FindClosestVersion_choice (target : Version) (available : list Version)
    (sortedCompatible sortedAvailable : list Version) :
  available ≠ [] →
  sortOutcome versionGreater
    (List.filter (fun v => IsCompatible v target) available) sortedCompatible →
  sortOutcome versionGreater available sortedAvailable →
  let result := FindClosestVersion target available sortedCompatible sortedAvailable in
  result ∈ available ∧
  ((∃ v, v ∈ available ∧ Compare v target = 0) → Compare result target = 0) ∧
  ((∃ v, v ∈ available ∧ IsCompatible v target = true) →
   IsCompatible result target = true ∧
   ((∀ v, v ∈ available → Compare v target ≠ 0) →
    ∀ w, w ∈ available → IsCompatible w target = true → Compare w result ≤ 0)) ∧
  ((∀ v, v ∈ available → IsCompatible v target = false) →
   ∀ w, w ∈ available → Compare w result ≤ 0).
Proof.
  intros Hne Hcomp Havail result. subst result. unfold FindClosestVersion.
  destruct available as [|a0 rest] eqn:Eav; [congruence|]. rewrite <- Eav in *.
  replace (length available =? 0)%nat with false by (subst available; reflexivity).
  destruct (List.find (fun v => Compare v target =? 0) available) as [v|] eqn:Efind.
  - apply find_some in Efind as [Hin Hcmp]. apply Z.eqb_eq in Hcmp.
    apply list_elem_of_In in Hin.
    split; [exact Hin|]. split; [intros _; exact Hcmp|].
    split.
    + intros _. split; [now apply exact_is_compatible|].
      intros Hno. destruct (Hno v Hin Hcmp).
    + intros Hno. pose proof (exact_is_compatible _ _ Hcmp) as Hc.
      rewrite (Hno v Hin) in Hc. discriminate.
  - assert (Hnone : ∀ v, v ∈ available → Compare v target ≠ 0).
    { intros v Hv%list_elem_of_In Hcmp.
      pose proof (find_none _ _ Efind v Hv) as Hf. cbn in Hf. lia. }
    set (compatible := List.filter (fun v => IsCompatible v target) available) in *.
    assert (Hmem : ∀ w, w ∈ compatible ↔ w ∈ available ∧ IsCompatible w target = true).
    { intros w. unfold compatible. rewrite !list_elem_of_In.
      apply (filter_In (fun v => IsCompatible v target)). }
    cbn zeta.
    destruct compatible as [|c cs] eqn:Ecomp.
    + cbn [length Nat.ltb Nat.leb].
      destruct (GetLatestVersion_max _ _ Havail) as [Hin Hmax]; [congruence|].
      split; [exact Hin|]. split.
      { intros (v & Hv & Hcmp). destruct (Hnone v Hv Hcmp). }
      split.
      { intros (v & Hv & Hc). exfalso.
        assert (H : v ∈ ([] : list Version)) by (apply Hmem; split; assumption).
        inversion H. }
      intros _. exact Hmax.
    + rewrite <- Ecomp in *.
      replace (0 <? length compatible)%nat with true by (rewrite Ecomp; reflexivity).
      destruct (GetLatestVersion_max _ _ Hcomp) as [Hin Hmax]; [congruence|].
      apply Hmem in Hin as [Hin Hc].
      split; [exact Hin|]. split.
      { intros (v & Hv & Hcmp). destruct (Hnone v Hv Hcmp). }
      split.
      { intros _. split; [exact Hc|]. intros _ w Hw Hwc. apply Hmax, Hmem. split; assumption. }
      intros Hno. rewrite (Hno _ Hin) in Hc. discriminate.
Qed.

Lemma sortOutcome_one (less : Version → Version → bool) (x : Version) :
  sortOutcome less [x] [x].
Proof.
  split; [reflexivity|]. intros i j a b Hij Hi Hj.
  destruct i as [|i], j as [|j]; try lia; cbn in Hj; discriminate.
Qed.

Lemma FindClosestVersion_choice_witness :
  IsCompatible
    (FindClosestVersion (NewVersion 1 1 0)
       [NewVersion 1 0 0; NewVersion 1 2 0; NewVersion 2 0 0]
       [NewVersion 1 2 0]
       [NewVersion 2 0 0; NewVersion 1 2 0; NewVersion 1 0 0])
    (NewVersion 1 1 0) = true.
Proof.
  refine (proj1 (proj1 (proj2 (proj2 (FindClosestVersion_choice (NewVersion 1 1 0)
            [NewVersion 1 0 0; NewVersion 1 2 0; NewVersion 2 0 0]
            [NewVersion 1 2 0]
            [NewVersion 2 0 0; NewVersion 1 2 0; NewVersion 1 0 0] _ _ _))) _)).
  - discriminate.
  - apply sortOutcome_one.
  - apply sortOutcome_three; [|reflexivity..].
    symmetry. etransitivity; [apply (Permutation_cons_append [NewVersion 1 2 0; NewVersion 2 0 0])|].
    cbn. apply perm_swap.
  - exists (NewVersion 1 2 0). split; [|reflexivity].
    apply list_elem_of_further, list_elem_of_here.
Defined.

(** X12.  [GetMajorVersions] lists exactly the major numbers that occur,
    each once, in ascending order. *)
Theorem GetMajorVersions_sorted_distinct (versions : list Version) :
  Sorted Z.le (GetMajorVersions versions) ∧
  NoDup (GetMajorVersions versions) ∧
  ∀ major, major ∈ GetMajorVersions versions ↔ ∃ v, v ∈ versions ∧ Major v = major.
Proof.
  unfold GetMajorVersions. split; [|split].
  - apply Sorted_merge_sort. apply _.
  - rewrite merge_sort_Permutation. apply NoDup_elements.
  - intros major. rewrite merge_sort_Permutation, elem_of_elements, elem_of_list_to_set.
    rewrite list_elem_of_In, in_map_iff. split.
    + intros (v & Hm & Hv). exists v. split; [now apply list_elem_of_In | exact Hm].
    + intros (v & Hv & Hm). exists v. split; [exact Hm | now apply list_elem_of_In].
Qed.

Example GetMajorVersions_example :
  GetMajorVersions [NewVersion 2 0 0; NewVersion 1 4 0; NewVersion 2 1 0; NewVersion 1 0 0]
  = [1; 2].
Proof. vm_compute. reflexivity. Qed.

(* ===================================================================== *)
(** ** Further properties of the detector                                 *)
(* ===================================================================== *)

Lemma detectFromString_nonempty (s : string) :
  s ≠ "" → detectFromString s = (ParseVersion s, s) ∧ IsZero (ParseVersion s) = false.
Proof.
  intros Hs. unfold detectFromString.
  destruct (String.eqb_spec s "") as [->|_]; [congruence|].
  rewrite ParseVersion_IsZero.
  destruct (String.eqb_spec s "") as [->|_]; [congruence|]. split; reflexivity.
Qed.

(** X13.  A non-empty API-Version header, X-API-Version header or version
    query parameter is always taken as the version, well-formed or not: its
    method yields [ParseVersion] of the raw value, and when that method is
    the first one enabled the detection result is that version. *)
Theorem raw_version_value_accepted (d : Detector) (r : Request)
    (method : DetectionMethod) (s : string) :
  s ≠ "" →
  (method = DetectionMethodAPIVersionHeader ∧ valuesGet (Header r) "Api-Version" = s) ∨
  (method = DetectionMethodXAPIVersionHeader ∧ valuesGet (Header r) "X-Api-Version" = s) ∨
  (method = DetectionMethodQueryParameter ∧ valuesGet (Query r) (queryParamName d) = s) →
  yields d r method (ParseVersion s) s ∧
  ∀ post, enabledMethods d = method :: post →
          DetectFromHTTPRequest d r = mkDetectionResult (ParseVersion s) method s.
Proof.
  intros Hs Hsrc. destruct (detectFromString_nonempty s Hs) as [Hdet Hz].
  assert (Hy : yields d r method (ParseVersion s) s).
  { split; [|exact Hz].
    destruct Hsrc as [[-> Hv] | [[-> Hv] | [-> Hv]]]; cbn [detectMethod];
      unfold detectFromAPIVersionHeader, detectFromXAPIVersionHeader,
             detectFromQueryParameter; now rewrite Hv, Hdet. }
  split; [exact Hy|]. intros post Hm. unfold DetectFromHTTPRequest. rewrite Hm.
  pose proof (detectLoop_first d r [] post method _ _ (Forall_nil_2 _) Hy) as Hloop.
  cbn [app] in Hloop. now rewrite Hloop.
Qed.

Lemma raw_version_value_accepted_witness :
  DetectFromHTTPRequest
    (NewDetector [WithEnabledMethods [DetectionMethodAPIVersionHeader; DetectionMethodDefault]])
    (mkRequest {["Api-Version" := ["not a version"]]} ∅ "/users" ∅)
  = mkDetectionResult (opaqueVersion "not a version") DetectionMethodAPIVersionHeader
      "not a version".
Proof.
  refine (proj2 (raw_version_value_accepted
            (NewDetector [WithEnabledMethods
                            [DetectionMethodAPIVersionHeader; DetectionMethodDefault]])
            (mkRequest {["Api-Version" := ["not a version"]]} ∅ "/users" ∅)
            DetectionMethodAPIVersionHeader "not a version" _ _)
          [DetectionMethodDefault] _).
  - discriminate.
  - left. split; reflexivity.
  - reflexivity.
Defined.

(** The result of a detection is either the default result or a non-zero
    version reported by one of the enabled methods, tagged with it. *)
Lemma DetectFromHTTPRequest_kinds (d : Detector) (r : Request) :
  (Forall (silent d r) (enabledMethods d) ∧
   DetectFromHTTPRequest d r
   = mkDetectionResult (defaultVersion d) DetectionMethodDefault "default_version") ∨
  (IsZero (drVersion (DetectFromHTTPRequest d r)) = false ∧
   drMethod (DetectFromHTTPRequest d r) ∈ enabledMethods d ∧
   detectMethod d r (drMethod (DetectFromHTTPRequest d r))
   = Some (drVersion (DetectFromHTTPRequest d r), drSource (DetectFromHTTPRequest d r))).
Proof.
  unfold DetectFromHTTPRequest.
  destruct (first_yield_or_silent d r (enabledMethods d))
    as [(pre & m & post & v & src & -> & Hpre & Hy) | Hall].
  - right. rewrite (detectLoop_first d r pre post m v src Hpre Hy).
    destruct Hy as [Hm Hz]. cbn. split; [exact Hz|]. split; [|exact Hm].
    apply elem_of_app. right. apply list_elem_of_here.
  - left. split; [exact Hall|]. now rewrite (detectLoop_silent d r _ Hall).
Qed.

(** X14.  [DetectVersion] returns the zero version exactly when the
    configured default is the zero version and no enabled method yields;
    with the default configuration it never returns the zero version. *)
Theorem DetectVersion_zero_iff (d : Detector) (r : Request) :
  (IsZero (DetectVersion d r) = true ↔
   IsZero (defaultVersion d) = true ∧ Forall (silent d r) (enabledMethods d)) ∧
  IsZero (DetectVersion (NewDetector []) r) = false.
Proof.
  assert (Hiff : ∀ d', IsZero (DetectVersion d' r) = true ↔
            IsZero (defaultVersion d') = true ∧ Forall (silent d' r) (enabledMethods d')).
  { intros d'. unfold DetectVersion.
    destruct (DetectFromHTTPRequest_kinds d' r) as [[Hall ->] | (Hz & _ & _)]; cbn.
    - tauto.
    - split; [rewrite Hz; discriminate|]. intros [Hd Hall].
      unfold DetectFromHTTPRequest. rewrite (detectLoop_silent d' r _ Hall).
      exact Hd. }
  split; [apply Hiff|].
  destruct (IsZero (DetectVersion (NewDetector []) r)) eqn:E; [|reflexivity].
  apply Hiff in E as [E _]. discriminate E.
Qed.





Lemma TrimPrefix_slash (s : string) : TrimPrefix ("/" +:+ s) "/" = s.
Proof. reflexivity. Qed.

(** X16.  Both path readers look at the first segment of the path only by
    its first byte: a first segment starting with 'v' is the version source,
    whatever follows the 'v', and the pipeline name is then the second
    segment (empty if there is none); any other first segment is the
    pipeline name, and the path carries no version. *)
Theorem path_first_segment (d : Detector) (r : Request) (seg : string) (rest : list string) :
  Forall (fun q => hasByte "/" q = false) (seg :: rest) →
  URLPath r = "/" +:+ Join (seg :: rest) "/" →
  if HasPrefix seg "v"
  then detectFromURLPath d r = (ParseVersion seg, seg) ∧
       IsZero (ParseVersion seg) = false ∧
       ExtractPipelineFromPath d r = hd "" rest
  else detectFromURLPath d r = (zeroVersion, "") ∧
       ExtractPipelineFromPath d r = seg.
Proof.
  intros Hall Hpath. unfold detectFromURLPath, ExtractPipelineFromPath.
  rewrite Hpath, TrimPrefix_slash.
  assert (Hsplit : Split (Join (seg :: rest) "/") "/" = seg :: rest).
  { unfold Split. now rewrite (splitLoop_Join "/" seg rest "" Hall). }
  destruct (String.eqb_spec (Join (seg :: rest) "/") "") as [Hempty | Hne].
  - assert (seg = "") as ->.
    { destruct seg as [|a seg]; [reflexivity|]. destruct rest; discriminate Hempty. }
    cbn. split; reflexivity.
  - rewrite Hsplit. cbn [length Nat.ltb Nat.leb index nth andb].
    destruct (HasPrefix seg "v") eqn:Hv.
    + assert (Hseg : seg ≠ "") by (intros ->; discriminate Hv).
      rewrite ParseVersion_IsZero.
      destruct (String.eqb_spec seg "") as [?|_]; [congruence|]. cbn [negb].
      split; [reflexivity|]. split; [reflexivity|].
      destruct rest as [|p rest']; reflexivity.
    + split; reflexivity.
Qed.

Lemma path_first_segment_witness :
  detectFromURLPath (NewDetector []) (mkRequest ∅ ∅ "/videos/123" ∅)
  = (opaqueVersion "videos", "videos") ∧
  IsZero (opaqueVersion "videos") = false ∧
  ExtractPipelineFromPath (NewDetector []) (mkRequest ∅ ∅ "/videos/123" ∅) = "123".
Proof.
  refine (path_first_segment (NewDetector []) (mkRequest ∅ ∅ "/videos/123" ∅)
            "videos" ["123"] _ _).
  - repeat constructor.
  - reflexivity.
Defined.

Example ExtractComponentFromPath_order :
  ExtractComponentFromPath (NewDetector [])
    (mkRequest {["X-Component" := ["orders"]]} {["component" := ["users"]]} "/v1/items" ∅)
  = "orders" ∧
  ExtractComponentFromPath (NewDetector [])
    (mkRequest ∅ {["component" := ["users"]]} "/v1/items" ∅) = "users" ∧
  ExtractComponentFromPath (NewDetector []) (mkRequest ∅ ∅ "/v1/items" ∅) = "items" ∧
  ExtractComponentFromPath (NewDetector []) (mkRequest ∅ ∅ "/v1" ∅) = "".
Proof. vm_compute. repeat split. Qed.

(* ===================================================================== *)
(** ** Further properties of the manager                                  *)
(* ===================================================================== *)

Lemma RegisterWithConstraints_ok (m m' : Manager) (c : VersionedComponent)
    (cs : list VersionConstraint) (now : string) :
  RegisterWithConstraints m (Some c) cs now = (m', None) →
  components m !! Name c = None ∧
  components m' = <[Name c := c]> (components m) ∧
  (∃ meta, componentMeta m' = <[Name c := setConstraints cs meta]> (componentMeta m) ∧
           snd (Register m (Some c) now) = None ∧
           componentMeta (fst (Register m (Some c) now))
           = <[Name c := meta]> (componentMeta m)) ∧
  constraints m' = <[Name c := cs]> (constraints m) ∧
  metricsCollector m' = metricsCollector m ∧ detector m' = detector m.
Proof.
  unfold RegisterWithConstraints, Register.
  destruct (String.eqb (Name c) ""); [discriminate|].
  destruct (components m !! Name c) eqn:E; [discriminate|].
  intros [= <-]. cbn. split; [reflexivity|]. split; [reflexivity|].
  split; [|repeat split].
  eexists. split; [|split; reflexivity]. now rewrite alter_insert_eq.
Qed.

Lemma aligned_fresh (m : Manager) (name : string) :
  aligned m → components m !! name = None →
  componentMeta m !! name = None ∧ constraints m !! name = None.
Proof.
  intros [Hmeta Hcs] Hnone. split.
  - destruct (componentMeta m !! name) eqn:E; [|reflexivity].
    destruct (proj1 (Hmeta name)) as [x Hx]; [rewrite E; eauto | congruence].
  - destruct (constraints m !! name) eqn:E; [|reflexivity].
    destruct (Hcs name) as [x Hx]; [rewrite E; eauto | congruence].
Qed.

(** X17.  On a manager whose maps are aligned (as after any sequence of
    registry calls), [Unregister] undoes a successful [Register] or
    [RegisterWithConstraints]: the manager is the one before the
    registration.  Before the removal a second registration under the same
    name is refused and changes nothing. *)
Theorem Unregister_undoes_Register (m m' : Manager) (c : VersionedComponent)
    (cs : list VersionConstraint) (now : string) :
  aligned m →
  Register m (Some c) now = (m', None) ∨
  RegisterWithConstraints m (Some c) cs now = (m', None) →
  Unregister m' (Name c) = (m, None) ∧
  ∀ c' cs' now', Name c' = Name c →
    (∃ e, Register m' (Some c') now' = (m', Some e)) ∧
    (∃ e, RegisterWithConstraints m' (Some c') cs' now' = (m', Some e)).
Proof.
  intros Hal Hreg.
  assert (Hfresh : components m !! Name c = None)
    by (destruct Hreg as [H|H];
        [apply (Register_ok _ _ _ _ H) | apply (RegisterWithConstraints_ok _ _ _ _ _ H)]).
  destruct (aligned_fresh m (Name c) Hal Hfresh) as [Hmeta Hcs].
  assert (Hname : String.eqb (Name c) "" = false).
  { destruct Hreg as [H|H]; unfold RegisterWithConstraints, Register in H;
      destruct (String.eqb (Name c) ""); try discriminate H; reflexivity. }
  assert (Hc : components m' = <[Name c := c]> (components m))
    by (destruct Hreg as [H|H];
        [apply (Register_ok _ _ _ _ H) | apply (RegisterWithConstraints_ok _ _ _ _ _ H)]).
  split.
  - unfold Unregister. rewrite Hc, lookup_insert_eq. f_equal.
    destruct m as [comps metas conss mc d]. cbn in *.
    destruct Hreg as [H|H].
    + unfold Register in H. cbn in H. rewrite Hname, Hfresh in H.
      injection H as <-. cbn.
      now rewrite !delete_insert_id, (delete_id conss) by assumption.
    + unfold RegisterWithConstraints, Register in H. cbn in H.
      rewrite Hname, Hfresh in H. injection H as <-. cbn.
      rewrite alter_insert_eq. now rewrite !delete_insert_id by assumption.
  - intros c' cs' now' Hsame.
    assert (Hdup : ∃ e, Register m' (Some c') now' = (m', Some e)).
    { unfold Register. rewrite Hsame, Hname, Hc, lookup_insert_eq. eauto. }
    split; [exact Hdup|]. destruct Hdup as [e He].
    exists e. unfold RegisterWithConstraints. now rewrite He.
Qed.

Lemma Unregister_undoes_Register_witness :
  Unregister (fst (Register (NewManager []) (Some usersService) "2024-01-01T00:00:00Z"))
    "users"
  = (NewManager [], None).
Proof.
  refine (proj1 (Unregister_undoes_Register (NewManager [])
                   (fst (Register (NewManager []) (Some usersService) "2024-01-01T00:00:00Z"))
                   usersService [] "2024-01-01T00:00:00Z" _ _)).
  - apply aligned_NewManager.
  - left. reflexivity.
Defined.

Lemma mirrored_call (m : Manager) (op : ManagerCall) :
  aligned m → mirrored m → mirrored (fst (call m op)).
Proof.
  intros Hal Hmir. destruct op as [c now | c cs now | name]; cbn [call].
  - destruct (Register m c now) as [m' [e|]] eqn:E;
      [now rewrite (Register_err _ _ _ _ _ E)|].
    destruct c as [c|]; [|discriminate E].
    pose proof (Register_ok _ _ _ _ E) as (Hfresh & _).
    destruct (aligned_fresh m (Name c) Hal Hfresh) as [_ Hcs].
    unfold Register in E. destruct (String.eqb (Name c) ""); [discriminate E|].
    rewrite Hfresh in E. injection E as <-. cbn [fst].
    intros name c'. cbn. destruct (decide (Name c = name)) as [<- | Hne].
    + rewrite !lookup_insert_eq. intros [= <-]. split; [reflexivity|].
      eexists. split; [reflexivity|]. cbn. rewrite Hcs. repeat split.
    + rewrite !lookup_insert_ne by exact Hne. apply Hmir.
  - destruct (RegisterWithConstraints m c cs now) as [m' [e|]] eqn:E.
    { change (RegisterWithConstraints m c cs now)
        with (call m (CallRegisterWithConstraints c cs now)) in E.
      now rewrite (call_err _ _ _ _ E). }
    destruct c as [c|];
      [|unfold RegisterWithConstraints, Register in E; discriminate E].
    pose proof (RegisterWithConstraints_ok _ _ _ _ _ E) as (Hfresh & _).
    unfold RegisterWithConstraints, Register in E.
    destruct (String.eqb (Name c) ""); [discriminate E|].
    rewrite Hfresh in E. injection E as <-. cbn [fst].
    intros name c'. cbn. rewrite alter_insert_eq.
    destruct (decide (Name c = name)) as [<- | Hne].
    + rewrite !lookup_insert_eq. intros [= <-]. split; [reflexivity|].
      eexists. split; [reflexivity|]. cbn. repeat split.
    + rewrite !lookup_insert_ne by exact Hne. apply Hmir.
  - unfold Unregister. destruct (components m !! name) eqn:E; [|exact Hmir].
    cbn [fst]. intros name' c'. cbn.
    destruct (decide (name = name')) as [<- | Hne].
    + rewrite lookup_delete_eq. discriminate.
    + rewrite !lookup_delete_ne by exact Hne. apply Hmir.
Qed.

Lemma mirrored_calls (ops : list ManagerCall) (m : Manager) :
  aligned m → mirrored m → mirrored (calls m ops).
Proof.
  revert m. induction ops as [|op ops IH]; intros m Hal Hmir; [exact Hmir|].
  cbn. apply IH; [apply aligned_call, Hal | apply mirrored_call; assumption].
Qed.

(** X18.  After any sequence of [Register], [RegisterWithConstraints] and
    [Unregister] calls on a new manager, every component is stored under its
    own name and its metadata record carries the component's name, type,
    supported versions and default version and the constraints stored for
    the name (none if there are none); so the supported versions reported
    from the components are those of the metadata. *)
Theorem registry_meta_mirrors (ops : list ManagerCall) :
  mirrored (calls (NewManager []) ops) ∧
  ∀ name, GetAllSupportedVersions (calls (NewManager []) ops) !! name
          = metaSupportedVersions <$> GetMeta (calls (NewManager []) ops) name.
Proof.
  assert (Hal : aligned (calls (NewManager []) ops))
    by apply aligned_calls, aligned_NewManager.
  assert (Hmir : mirrored (calls (NewManager []) ops)).
  { apply mirrored_calls; [apply aligned_NewManager|].
    intros name c. cbn. rewrite lookup_empty. discriminate. }
  split; [exact Hmir|]. intros name.
  unfold GetAllSupportedVersions, GetMeta. rewrite lookup_fmap.
  destruct (components (calls (NewManager []) ops) !! name) as [c|] eqn:E.
  - destruct (Hmir name c E) as (_ & meta & -> & _ & _ & Hsv & _). cbn. now rewrite Hsv.
  - destruct (aligned_fresh _ name Hal E) as [-> _]. reflexivity.
Qed.

Example registry_meta_example :
  let m := fst (RegisterWithConstraints (NewManager []) (Some usersService)
                  [mkVersionConstraint "products" (NewExactVersions [NewVersion 1 0 0]) []]
                  "2024-01-01T00:00:00Z") in
  (metaConstraints <$> GetMeta m "users")
  = Some [mkVersionConstraint "products" (NewExactVersions [NewVersion 1 0 0]) []] ∧
  GetSupportedVersions m "users" = Ok [NewVersion 1 0 0; NewVersion 2 0 0] ∧
  GetSupportedVersions m "orders" = Err (ErrorString "component 'orders' not found").
Proof. vm_compute. repeat split. Qed.

(** X19.  [List] returns the registered names, each once, in ascending
    byte order; [ListByType] returns, in the same order, exactly those whose
    component has the given type. *)
Theorem List_sorted_names (m : Manager) (componentType : string) :
  (Sorted String.le (List m) ∧ NoDup (List m) ∧
   ∀ name, name ∈ List m ↔ is_Some (components m !! name)) ∧
  (Sorted String.le (ListByType m componentType) ∧ NoDup (ListByType m componentType) ∧
   ∀ name, name ∈ ListByType m componentType ↔
           ∃ c, components m !! name = Some c ∧ Type_ c = componentType).
Proof.
  unfold List, ListByType. split; (split; [apply Sorted_merge_sort; apply _|]).
  - split.
    + rewrite merge_sort_Permutation. apply NoDup_fst_map_to_list.
    + intros name. rewrite merge_sort_Permutation, list_elem_of_fmap. split.
      * intros ([k c] & -> & H%elem_of_map_to_list). cbn. eauto.
      * intros [c Hc]. exists (name, c). split; [reflexivity|].
        now apply elem_of_map_to_list.
  - split.
    + rewrite merge_sort_Permutation.
      eapply sublist_NoDup; [apply (NoDup_fst_map_to_list (components m))|].
      apply fmap_sublist, sublist_filter.
    + intros name. rewrite merge_sort_Permutation, list_elem_of_fmap. split.
      * intros ([k c] & -> & H%list_elem_of_filter). cbn in *.
        destruct H as [Hty H%elem_of_map_to_list]. eauto.
      * intros (c & Hc & Hty). exists (name, c). split; [reflexivity|].
        apply list_elem_of_filter. split; [exact Hty|].
        now apply elem_of_map_to_list.
Qed.

Example List_example :
  let m := calls (NewManager [])
             [CallRegister (Some (mkVersionedComponent "users" "service" [] (fun _ => true)
                                    (NewVersion 1 0 0) None)) "t";
              CallRegister (Some (mkVersionedComponent "billing" "pipeline" [] (fun _ => true)
                                    (NewVersion 1 0 0) None)) "t";
              CallRegister (Some (mkVersionedComponent "Orders" "service" [] (fun _ => true)
                                    (NewVersion 1 0 0) None)) "t"] in
  List m = ["Orders"; "billing"; "users"] ∧ ListByType m "service" = ["Orders"; "users"].
Proof. vm_compute. repeat split. Qed.

Lemma newerFirst_irrefl (x : Version) : newerFirst x x = false.
Proof. unfold newerFirst. now rewrite Compare_refl. Qed.

Lemma newerFirst_false (x y : Version) : newerFirst x y = false → Compare x y ≤ 0.
Proof. unfold newerFirst. rewrite Z.gtb_ltb. now intros H%Z.ltb_ge. Qed.

(** X20.  The manager's [GetLatestVersion] fails for an unknown component
    and for a component without supported versions; otherwise, whatever
    order [sort.Slice] leaves equal versions in, it returns a supported
    version that no supported version exceeds, equal on (major, minor,
    patch) to what the package-level [GetLatestVersion] returns for the
    same versions. *)
Theorem Manager_GetLatestVersion_max (m : Manager) (componentName : string)
    (sorted descending : list Version) :
  (components m !! componentName = None →
   Manager_GetLatestVersion m componentName sorted
   = Err (ErrorString ("component '" +:+ componentName +:+ "' not found"))) ∧
  ∀ c, components m !! componentName = Some c →
    sortOutcome newerFirst (SupportedVersions c) sorted →
    sortOutcome versionGreater (SupportedVersions c) descending →
    (SupportedVersions c = [] →
     Manager_GetLatestVersion m componentName sorted
     = Err (ErrorString ("component '" +:+ componentName
                         +:+ "' has no supported versions"))) ∧
    (SupportedVersions c ≠ [] →
     ∃ latest,
       Manager_GetLatestVersion m componentName sorted = Ok latest ∧
       latest ∈ SupportedVersions c ∧
       (∀ w, w ∈ SupportedVersions c → Compare w latest ≤ 0) ∧
       Compare latest (GetLatestVersion (SupportedVersions c) descending) = 0).
Proof.
  unfold Manager_GetLatestVersion, GetComponent. split; [now intros ->|].
  intros c -> Hsorted Hdesc. split; [now intros ->|]. intros Hne.
  destruct (SupportedVersions c) as [|v vs] eqn:E; [congruence|]. rewrite <- E in *.
  replace (length (SupportedVersions c) =? 0)%nat with false by (rewrite E; reflexivity).
  destruct (sortOutcome_head _ _ _ newerFirst_irrefl Hsorted Hne) as [Hin Hmax].
  destruct (GetLatestVersion_max _ _ Hdesc Hne) as [Hin' Hmax'].
  eexists. split; [reflexivity|]. split; [exact Hin|].
  split; [intros w Hw; apply newerFirst_false, Hmax, Hw|].
  pose proof (newerFirst_false _ _ (Hmax _ Hin')) as H1.
  pose proof (Hmax' _ Hin) as H2.
  pose proof (Compare_neg (nth 0 sorted zeroVersion)
                (GetLatestVersion (SupportedVersions c) descending)). lia.
Qed.

Lemma Manager_GetLatestVersion_max_witness :
  ∃ latest,
    Manager_GetLatestVersion usersManager "users" [NewVersion 2 0 0; NewVersion 1 0 0]
    = Ok latest ∧
    latest ∈ SupportedVersions usersService ∧
    (∀ w, w ∈ SupportedVersions usersService → Compare w latest ≤ 0) ∧
    Compare latest (GetLatestVersion (SupportedVersions usersService)
                      [NewVersion 2 0 0; NewVersion 1 0 0]) = 0.
Proof.
  refine (proj2 (proj2 (Manager_GetLatestVersion_max usersManager "users"
                   [NewVersion 2 0 0; NewVersion 1 0 0]
                   [NewVersion 2 0 0; NewVersion 1 0 0]) usersService _ _ _) _).
  - reflexivity.
  - split; [apply perm_swap|]. intros i j x y Hij Hi Hj.
    destruct i as [|[|i]], j as [|[|j]]; try lia; cbn in Hi, Hj; try discriminate.
    injection Hi as <-. injection Hj as <-. reflexivity.
  - split; [apply perm_swap|]. intros i j x y Hij Hi Hj.
    destruct i as [|[|i]], j as [|[|j]]; try lia; cbn in Hi, Hj; try discriminate.
    injection Hi as <-. injection Hj as <-. reflexivity.
  - discriminate.
Defined.

Example GetCompatibleVersions_example :
  GetCompatibleVersions usersManager "users" (NewVersion 1 0 0) = Ok [NewVersion 1 0 0] ∧
  GetCompatibleVersions usersManager "users" (NewVersion 3 0 0) = Ok [] ∧
  GetCompatibleVersions usersManager "orders" (NewVersion 1 0 0)
  = Err (ErrorString "component 'orders' not found").
Proof. vm_compute. repeat split. Qed.

(* ===================================================================== *)
(** ** Further properties of the migrator                                 *)
(* ===================================================================== *)

Lemma plain_labelled (v : Version) : plain v → labelled v.
Proof. intros (a & b & c & Ha & Hb & Hc & ->). exists a, b, c, "". auto. Qed.

Lemma labelled_String (v : Version) : labelled v → String_ v = VersionStr v.
Proof.
  intros (a & b & c & l & _ & _ & _ & ->).
  unfold String_, NewVersionWithLabel. cbn [VersionStr].
  change (fmtTriple a b c)
    with (String "v" (Itoa a +:+ "." +:+ Itoa b +:+ "." +:+ Itoa c)).
  destruct (negb (String.eqb l "")); [rewrite append_cons|]; reflexivity.
Qed.

Lemma labelled_String_inj (v w : Version) :
  labelled v → labelled w → String_ v = String_ w → v = w.
Proof.
  intros Hv Hw. rewrite (labelled_String v Hv), (labelled_String w Hw).
  destruct Hv as (a & b & c & l & Ha & Hb & Hc & ->).
  destruct Hw as (a' & b' & c' & l' & Ha' & Hb' & Hc' & ->).
  intros Heq.
  rewrite <- (ParseVersion_printed a b c Ha Hb Hc l).
  rewrite <- (ParseVersion_printed a' b' c' Ha' Hb' Hc' l').
  now rewrite Heq.
Qed.

Lemma plain_no_dash (v : Version) : plain v → hasByte "-" (String_ v) = false.
Proof.
  intros (a & b & c & Ha & Hb & Hc & ->).
  change (String_ (NewVersion a b c))
    with (String "v" (Itoa a +:+ "." +:+ Itoa b +:+ "." +:+ Itoa c)).
  cbn [hasByte]. change (Ascii.eqb "v" "-") with false. cbn match.
  now apply triple_no_dash.
Qed.

(** X21.  The key of the migration table, the two version strings joined by
    '-', determines the pair of versions when the source version was built
    by [NewVersion] and the target by [NewVersion] or [NewVersionWithLabel]
    (non-negative components); with a labelled source version two
    different pairs can share a key, and a migration added for one pair is
    then found for the other. *)
Theorem migrationKey_injective (from to from' to' : Version) :
  plain from → plain from' → labelled to → labelled to' →
  migrationKey from to = migrationKey from' to' →
  from = from' ∧ to = to'.
Proof.
  intros Hf Hf' Ht Ht'. unfold migrationKey. intros Hkey.
  pose proof (cutFirst_first "-" "" (String_ from) (String_ to) (plain_no_dash _ Hf)) as H1.
  pose proof (cutFirst_first "-" "" (String_ from') (String_ to') (plain_no_dash _ Hf')) as H2.
  change (String_ from +:+ String "-" (String_ to))
    with (String_ from +:+ "-" +:+ String_ to) in H1.
  change (String_ from' +:+ String "-" (String_ to'))
    with (String_ from' +:+ "-" +:+ String_ to') in H2.
  rewrite Hkey, H2 in H1. rewrite !append_nil_l in H1. injection H1 as Hfrom Hto.
  split; apply labelled_String_inj; auto using plain_labelled.
Qed.

Lemma migrationKey_injective_witness :
  NewVersion 1 0 0 = NewVersion 1 0 0 ∧
  NewVersionWithLabel 2 0 0 "beta" = NewVersionWithLabel 2 0 0 "beta".
Proof.
  refine (migrationKey_injective (NewVersion 1 0 0) (NewVersionWithLabel 2 0 0 "beta")
            (NewVersion 1 0 0) (NewVersionWithLabel 2 0 0 "beta") _ _ _ _ _).
  - exists 1, 0, 0. repeat split; (discriminate || reflexivity).
  - exists 1, 0, 0. repeat split; (discriminate || reflexivity).
  - exists 2, 0, 0, "beta". repeat split; (discriminate || reflexivity).
  - exists 2, 0, 0, "beta". repeat split; (discriminate || reflexivity).
  - reflexivity.
Defined.

(** Two pairs with one key: (v1.0.0-v2.0.0, v3.0.0) and
    (v1.0.0, v2.0.0-v3.0.0).  After a migration is added for the first pair
    only, the migrator answers for the second pair too. *)
Example migrationKey_collision :
  let from := NewVersionWithLabel 1 0 0 "v2.0.0" in
  let to := NewVersion 3 0 0 in
  let from' := NewVersion 1 0 0 in
  let to' := NewVersionWithLabel 2 0 0 "v3.0.0" in
  let m := fst (AddAutomaticMigration (NewMigrator "users") from to [] false) in
  migrationKey from to = migrationKey from' to' ∧ to ≠ to' ∧
  CanMigrate m from' to' = true ∧
  (FromVersion <$> migrations m !! migrationKey from' to') = Some from.
Proof.
  cbn zeta. split; [reflexivity|]. split; [discriminate|].
  split; vm_compute; reflexivity.
Qed.

(** X22.  [CanMigrate] holds exactly when [GetMigrationPath] succeeds, and
    the path then has at most one step; when [CanMigrate] does not hold,
    [Migrate] fails with "no migration path available" whatever the
    input. *)
Theorem CanMigrate_iff_path (m : Migrator) (from to : Version) :
  (CanMigrate m from to = true ↔ ∃ path, GetMigrationPath m from to = Ok path) ∧
  (∀ path, GetMigrationPath m from to = Ok path → (length path ≤ 1)%nat) ∧
  (CanMigrate m from to = false →
   GetMigrationPath m from to
   = Err (NewMigrationError (component m) from to "no migration path found" None) ∧
   ∀ input, Migrate m from to input
            = Err (NewMigrationError (component m) from to
                     "no migration path available" None)).
Proof.
  unfold CanMigrate, GetMigrationPath, Migrate.
  destruct (Compare from to =? 0).
  - split; [split; eauto|]. split; [intros path [= <-]; cbn; lia | discriminate].
  - destruct (migrations m !! migrationKey from to) as [migration|].
    + split; [split; [eauto | intros _; apply bool_decide_eq_true; eauto]|].
      split; [intros path [= <-]; cbn; lia|].
      intros H. apply bool_decide_eq_false in H. destruct H. eauto.
    + split; [split; [intros H%bool_decide_eq_true; destruct H; discriminate
                     | intros [? ?]; discriminate]|].
      split; [discriminate|]. intros _. split; reflexivity.
Qed.

Lemma CanMigrate_iff_path_witness :
  Migrate (NewMigrator "users") (NewVersion 1 0 0) (NewVersion 2 0 0) (AVal (VInt 7))
  = Err (NewMigrationError "users" (NewVersion 1 0 0) (NewVersion 2 0 0)
           "no migration path available" None).
Proof.
  refine (proj2 (proj2 (proj2 (CanMigrate_iff_path (NewMigrator "users")
                                 (NewVersion 1 0 0) (NewVersion 2 0 0))) _) (AVal (VInt 7))).
  reflexivity.
Defined.

(** Migrations are not chained: with v1 to v2 and v2 to v3 in the table,
    v1 to v3 is no migration. *)
Example no_multi_step_migration :
  let m1 := fst (AddAutomaticMigration (NewMigrator "users")
                   (NewVersion 1 0 0) (NewVersion 2 0 0) [] false) in
  let m2 := fst (AddAutomaticMigration m1 (NewVersion 2 0 0) (NewVersion 3 0 0) [] false) in
  CanMigrate m2 (NewVersion 1 0 0) (NewVersion 2 0 0) = true ∧
  CanMigrate m2 (NewVersion 2 0 0) (NewVersion 3 0 0) = true ∧
  CanMigrate m2 (NewVersion 1 0 0) (NewVersion 3 0 0) = false.
Proof. vm_compute. repeat split. Qed.

(** X23.  A custom migration added as reversible is usable in one direction
    only: the synthesised reverse entry has no function, so for versions
    that differ on (major, minor, patch) [CanMigrate] and
    [GetMigrationPath] accept the reverse direction while [Migrate] fails
    with "custom migration function not provided" for every input. *)
Theorem reversible_custom_is_one_way (m : Migrator) (from to : Version)
    (migrationFunc : MigrationFunc) (description : string) (input : Any) :
  Compare to from ≠ 0 →
  let m' := fst (AddCustomMigration m from to (Some migrationFunc) true description) in
  snd (AddCustomMigration m from to (Some migrationFunc) true description) = None ∧
  CanMigrate m' to from = true ∧
  (∃ step, GetMigrationPath m' to from = Ok [step] ∧ CustomFunc step = None) ∧
  Migrate m' to from input
  = Err (NewMigrationError (component m) to from
           "custom migration function not provided" None).
Proof.
  intros Hne m'. subst m'. apply Z.eqb_neq in Hne.
  unfold AddCustomMigration, AddMigration, CanMigrate, GetMigrationPath, Migrate.
  cbn [Reversible FromVersion ToVersion fst snd migrations component].
  rewrite Hne, lookup_insert_eq. split; [reflexivity|].
  split; [apply bool_decide_eq_true; eauto|].
  split; [eexists; split; reflexivity | reflexivity].
Qed.

Lemma reversible_custom_is_one_way_witness :
  Migrate (fst (AddCustomMigration (NewMigrator "users") (NewVersion 1 0 0) (NewVersion 2 0 0)
                  (Some (fun _ _ input => Ok input)) true "upgrade"))
    (NewVersion 2 0 0) (NewVersion 1 0 0) (AVal (VInt 7))
  = Err (NewMigrationError "users" (NewVersion 2 0 0) (NewVersion 1 0 0)
           "custom migration function not provided" None).
Proof.
  refine (proj2 (proj2 (proj2 (reversible_custom_is_one_way (NewMigrator "users")
            (NewVersion 1 0 0) (NewVersion 2 0 0) (fun _ _ input => Ok input) "upgrade"
            (AVal (VInt 7)) _)))).
  discriminate.
Defined.

Section RenameRoundTrip.

Lemma mappingExists_spec (l : list FieldMapping) (k : string) :
  mappingExists l k = true ↔ ∃ mp, mp ∈ l ∧ FromField mp = k.
Proof.
  unfold mappingExists. rewrite existsb_exists. split.
  - intros (mp & Hin & Heq). exists mp. split; [now apply list_elem_of_In|].
    now apply String.eqb_eq.
  - intros (mp & Hin & Heq). exists mp. split; [now apply list_elem_of_In|].
    now apply String.eqb_eq.
Qed.

Lemma mappingExists_false (l : list FieldMapping) (k : string) :
  mappingExists l k = false → ∀ mp, mp ∈ l → FromField mp ≠ k.
Proof.
  intros Hf mp Hin Heq.
  assert (mappingExists l k = true) by (apply mappingExists_spec; eauto). congruence.
Qed.

Lemma reverseFieldMappings_fmap (l : list FieldMapping) :
  reverseFieldMappings l
  = (fun mp => mkFieldMapping (ToField mp) (FromField mp) "" VNil (Required mp)) <$> l.
Proof. induction l as [|mp l IH]; [reflexivity|]. cbn. now f_equal. Qed.

Lemma reverseFieldMappings_elem (l : list FieldMapping) (mp' : FieldMapping) :
  mp' ∈ reverseFieldMappings l ↔
  ∃ mp, mp ∈ l ∧ mp' = mkFieldMapping (ToField mp) (FromField mp) "" VNil (Required mp).
Proof.
  rewrite reverseFieldMappings_fmap, list_elem_of_fmap. split.
  - intros (mp & -> & Hin). eauto.
  - intros (mp & Hin & ->). eauto.
Qed.

Lemma reverseFieldMappings_ToField (l : list FieldMapping) :
  ToField <$> reverseFieldMappings l = FromField <$> l.
Proof. induction l as [|mp l IH]; [reflexivity|]. cbn. now f_equal. Qed.

(** The mapping loop on mappings with distinct destinations whose sources
    are all present: every mapping shows at its destination, nothing else
    is written. *)
Lemma applyMappings_distinct (im : gmap string Value) (l : list FieldMapping) :
  NoDup (ToField <$> l) →
  (∀ mp, mp ∈ l → is_Some (im !! FromField mp)) →
  ∃ res, applyMappings im l ∅ = Ok res ∧
         (∀ mp, mp ∈ l → res !! ToField mp = Some (written im mp)) ∧
         (∀ k, (∀ mp, mp ∈ l → ToField mp ≠ k) → res !! k = None).
Proof.
  intros Hnd Hsrc.
  assert (Hfires : ∀ mp, mp ∈ l → fires im mp = true).
  { intros mp Hin. unfold fires. now rewrite bool_decide_eq_true_2 by auto. }
  destruct (applyMappings_total im l ∅) as [res Hres].
  { intros mp Hin. unfold blocks. now rewrite bool_decide_eq_true_2 by auto. }
  exists res. split; [exact Hres|]. split.
  - intros mp Hin. destruct (list_elem_of_split _ _ Hin) as (pre & post & ->).
    apply (applyMappings_last im pre post mp ∅ res Hres (Hfires mp Hin)).
    intros later Hlater _ Heq.
    rewrite fmap_app, fmap_cons in Hnd.
    apply NoDup_app in Hnd as (_ & _ & Hnd). apply NoDup_cons in Hnd as [Hnotin _].
    apply Hnotin. rewrite <- Heq. now apply list_elem_of_fmap_2.
  - intros k Hno.
    rewrite (applyMappings_untouched im l ∅ res k Hres); [apply lookup_empty|].
    intros mp Hin _. now apply Hno.
Qed.

Variables (ms : list FieldMapping) (inputMap : gmap string Value).
Hypothesis HndF : NoDup (FromField <$> ms).
Hypothesis HndT : NoDup (ToField <$> ms).
Hypothesis Hsrc : ∀ mp, mp ∈ ms →
  is_Some (inputMap !! FromField mp) ∧ Transform mp ≠ "string".
Hypothesis Hdst : ∀ mp, mp ∈ ms →
  is_Some (inputMap !! ToField mp) → mappingExists ms (ToField mp) = true.

Lemma rename_written (mp : FieldMapping) :
  mp ∈ ms → Some (written inputMap mp) = inputMap !! FromField mp.
Proof.
  intros Hin. destruct (Hsrc mp Hin) as [[v Hv] Htr]. unfold written. rewrite Hv.
  now rewrite transformValue_passthrough.
Qed.

Variable migration : VersionMigration.
Hypothesis Hms : FieldMappings migration = ms.

(** The output of the migration, key by key. *)
Lemma rename_forward :
  ∃ out, migrateMapData migration (AMap inputMap) = Ok (AMap out) ∧
         (∀ mp, mp ∈ ms → out !! ToField mp = inputMap !! FromField mp) ∧
         (∀ k, (∀ mp, mp ∈ ms → ToField mp ≠ k) →
               out !! k = if mappingExists ms k then None else inputMap !! k).
Proof.
  destruct (applyMappings_distinct inputMap ms HndT) as (res & Hres & Hhit & Hmiss).
  { intros mp Hin. apply (Hsrc mp Hin). }
  unfold migrateMapData. rewrite Hms, Hres.
  eexists. split; [reflexivity|]. split.
  - intros mp Hin. rewrite copyUnmapped_input. unfold unmapped.
    destruct (inputMap !! ToField mp) as [w|] eqn:E.
    + rewrite (Hdst mp Hin) by (rewrite E; eauto). rewrite andb_false_r.
      rewrite (Hhit mp Hin). apply rename_written, Hin.
    + rewrite bool_decide_eq_false_2 by (intros [? ?]; discriminate).
      cbn [andb]. rewrite (Hhit mp Hin). apply rename_written, Hin.
  - intros k Hno. rewrite copyUnmapped_input. unfold unmapped.
    rewrite (Hmiss k Hno).
    destruct (mappingExists ms k); [now rewrite andb_false_r|].
    rewrite andb_true_r. destruct (inputMap !! k) eqn:E.
    + now rewrite bool_decide_eq_true_2 by eauto.
    + now rewrite bool_decide_eq_false_2 by (intros [? ?]; discriminate).
Qed.

End RenameRoundTrip.

Lemma mappingExists_reverse (l : list FieldMapping) (k : string) :
  mappingExists (reverseFieldMappings l) k = true ↔ ∃ mp, mp ∈ l ∧ ToField mp = k.
Proof.
  rewrite mappingExists_spec. split.
  - intros (mp' & Hin & Heq). apply reverseFieldMappings_elem in Hin as (mp & Hin & ->).
    eauto.
  - intros (mp & Hin & Heq). eexists. split; [apply reverseFieldMappings_elem; eauto|].
    exact Heq.
Qed.

(** Renaming forth and back on maps: the reverse mappings applied to the
    output of the mappings give the input again. *)
Lemma rename_there_and_back (ms : list FieldMapping) (inputMap : gmap string Value)
    (forward backward : VersionMigration) :
  FieldMappings forward = ms →
  FieldMappings backward = reverseFieldMappings ms →
  NoDup (FromField <$> ms) → NoDup (ToField <$> ms) →
  (∀ mp, mp ∈ ms → is_Some (inputMap !! FromField mp) ∧ Transform mp ≠ "string") →
  (∀ mp, mp ∈ ms → is_Some (inputMap !! ToField mp) → mappingExists ms (ToField mp) = true) →
  ∃ out, migrateMapData forward (AMap inputMap) = Ok (AMap out) ∧
         migrateMapData backward (AMap out) = Ok (AMap inputMap).
Proof.
  intros Hfw Hbw HndF HndT Hsrc Hdst.
  destruct (rename_forward ms inputMap HndT Hsrc Hdst forward Hfw)
    as (out & Hout & Hhit & Hmiss).
  exists out. split; [exact Hout|].
  destruct (rename_forward (reverseFieldMappings ms) out) with (migration := backward)
    as (back & Hback & Hhit' & Hmiss').
  - now rewrite reverseFieldMappings_ToField.
  - intros mp' Hin. apply reverseFieldMappings_elem in Hin as (mp & Hin & ->).
    cbn [FromField Transform]. split; [|discriminate].
    rewrite (Hhit mp Hin). apply (Hsrc mp Hin).
  - intros mp' Hin Hsome. apply reverseFieldMappings_elem in Hin as (mp & Hin & ->).
    cbn [ToField] in *.
    destruct (mappingExists (reverseFieldMappings ms) (FromField mp)) eqn:E; [reflexivity|].
    exfalso. rewrite Hmiss in Hsome.
    + rewrite (proj2 (mappingExists_spec ms (FromField mp))) in Hsome by eauto.
      destruct Hsome as [? ?]; discriminate.
    + intros mp2 Hin2 Heq.
      assert (mappingExists (reverseFieldMappings ms) (FromField mp) = true)
        by (apply mappingExists_reverse; eauto).
      congruence.
  - exact Hbw.
  - rewrite Hback. do 2 f_equal. apply map_eq. intros k.
    destruct (mappingExists ms k) eqn:EF.
    + apply mappingExists_spec in EF as (mp & Hin & <-).
      rewrite <- (Hhit mp Hin).
      apply (Hhit' (mkFieldMapping (ToField mp) (FromField mp) "" VNil (Required mp))).
      apply reverseFieldMappings_elem. eauto.
    + rewrite Hmiss'.
      * destruct (mappingExists (reverseFieldMappings ms) k) eqn:ET.
        -- apply mappingExists_reverse in ET as (mp & Hin & <-).
           destruct (inputMap !! ToField mp) eqn:E; [|reflexivity].
           rewrite (Hdst mp Hin) in EF by (rewrite E; eauto). discriminate.
        -- rewrite Hmiss, EF; [reflexivity|].
           intros mp Hin Heq.
           assert (mappingExists (reverseFieldMappings ms) k = true)
             by (apply mappingExists_reverse; eauto).
           congruence.
      * intros mp' Hin Heq. apply reverseFieldMappings_elem in Hin as (mp & Hin & ->).
        cbn [ToField] in Heq. apply (mappingExists_false ms k EF mp Hin Heq).
Qed.

(** X24.  A reversible automatic migration that only renames fields is
    undone by its reverse: when the sources of the mappings are distinct and
    all present in the input, the destinations are distinct and none is an
    input field that is copied through, and no mapping uses the "string"
    hook, [Migrate] from [from] to [to] succeeds on a map and [Migrate] back
    from [to] to [from] returns the original map. *)
Theorem reversible_rename_roundtrip (m : Migrator) (from to : Version)
    (ms : list FieldMapping) (inputMap : gmap string Value) :
  Compare from to ≠ 0 →
  migrationKey from to ≠ migrationKey to from →
  NoDup (FromField <$> ms) → NoDup (ToField <$> ms) →
  (∀ mp, mp ∈ ms → is_Some (inputMap !! FromField mp) ∧ Transform mp ≠ "string") →
  (∀ mp, mp ∈ ms → is_Some (inputMap !! ToField mp) → mappingExists ms (ToField mp) = true) →
  ∃ outMap,
    Migrate (fst (AddAutomaticMigration m from to ms true)) from to (AMap inputMap)
    = Ok (AMap outMap) ∧
    Migrate (fst (AddAutomaticMigration m from to ms true)) to from (AMap outMap)
    = Ok (AMap inputMap).
Proof.
  intros Hcmp Hkey HndF HndT Hsrc Hdst.
  assert (Hcmp' : Compare to from ≠ 0) by (pose proof (Compare_neg from to); lia).
  apply Z.eqb_neq in Hcmp, Hcmp'.
  set (description := "Automatic migration from " +:+ String_ from +:+ " to " +:+ String_ to).
  set (forward := mkVersionMigration from to MigrationStrategyAutomatic ms None true
                    description ∅).
  destruct (rename_there_and_back ms inputMap forward (reverseMigration forward)
              eq_refl eq_refl HndF HndT Hsrc Hdst) as (out & Hout & Hback).
  exists out.
  unfold Migrate, AddAutomaticMigration, AddMigration.
  cbn [Reversible FromVersion ToVersion fst migrations component].
  rewrite Hcmp, Hcmp', lookup_insert_eq.
  rewrite lookup_insert_ne by (intros H; apply Hkey; now rewrite H).
  rewrite lookup_insert_eq.
  fold description. fold forward.
  cbn [Strategy reverseMigration forward].
  unfold performAutomaticMigration. cbn [kindOf].
  fold forward. rewrite Hout.
  change (mkVersionMigration to from MigrationStrategyAutomatic (reverseFieldMappings ms)
            None false ("Reverse migration: " +:+ description) ∅)
    with (reverseMigration forward).
  rewrite Hback. split; reflexivity.
Qed.

Lemma reversible_rename_roundtrip_witness :
  ∃ outMap,
    Migrate (fst (AddAutomaticMigration (NewMigrator "users") (NewVersion 1 0 0)
                    (NewVersion 2 0 0) exampleMappings true))
      (NewVersion 1 0 0) (NewVersion 2 0 0) (AMap exampleInput)
    = Ok (AMap outMap) ∧
    Migrate (fst (AddAutomaticMigration (NewMigrator "users") (NewVersion 1 0 0)
                    (NewVersion 2 0 0) exampleMappings true))
      (NewVersion 2 0 0) (NewVersion 1 0 0) (AMap outMap)
    = Ok (AMap exampleInput).
Proof.
  refine (reversible_rename_roundtrip (NewMigrator "users") (NewVersion 1 0 0)
            (NewVersion 2 0 0) exampleMappings exampleInput _ _ _ _ _ _).
  - discriminate.
  - discriminate.
  - apply (bool_decide_unpack _). vm_compute. exact I.
  - apply (bool_decide_unpack _). vm_compute. exact I.
  - intros mp Hin.
    repeat (apply elem_of_cons in Hin as [-> | Hin];
            [split; [vm_compute; eauto | discriminate]|]).
    inversion Hin.
  - intros mp Hin.
    repeat (apply elem_of_cons in Hin as [-> | Hin];
            [first [intros _; vm_compute; reflexivity
                   | intros [v Hv]; vm_compute in Hv; discriminate Hv]|]).
    inversion Hin.
Defined.

(** The "string" hook is not undone by the reverse migration: the integer
    comes back as a string. *)
Example string_hook_not_reversed :
  let m := fst (AddAutomaticMigration (NewMigrator "users") (NewVersion 1 0 0)
                  (NewVersion 2 0 0) [mkFieldMapping "id" "user_id" "string" VNil true]
                  true) in
  Migrate m (NewVersion 1 0 0) (NewVersion 2 0 0) (AMap {[ "id" := VInt 7 ]})
  = Ok (AMap {[ "user_id" := VString "7" ]}) ∧
  Migrate m (NewVersion 2 0 0) (NewVersion 1 0 0) (AMap {[ "user_id" := VString "7" ]})
  = Ok (AMap {[ "id" := VString "7" ]}).
Proof. vm_compute. repeat split. Qed.

Lemma copyUnmapped_nil (inputMap : gmap string Value) :
  copyUnmapped [] (map_to_list inputMap) ∅ = inputMap.
Proof.
  apply map_eq. intros k. rewrite copyUnmapped_input. unfold unmapped.
  cbn [mappingExists existsb negb]. rewrite andb_true_r.
  destruct (inputMap !! k) eqn:E.
  - now rewrite bool_decide_eq_true_2 by eauto.
  - rewrite bool_decide_eq_false_2 by (intros [? ?]; discriminate). apply lookup_empty.
Qed.

(** X25.  What the automatic migration does by kind of input: nil, scalars
    and pointers to anything but a map or struct are returned unchanged; a
    map of another type than map[string]interface{}, and a pointer to any
    map, fail with "automatic migration failed"; a pointer to a struct is
    treated as the struct; a struct that migrates comes out as a map; and
    with no field mappings a map[string]interface{} comes out as it went
    in. *)
Theorem performAutomaticMigration_kinds (m : Migrator) (migration : VersionMigration) :
  let failed :=
    Err (NewMigrationError (component m) (FromVersion migration) (ToVersion migration)
           "automatic migration failed"
           (Some (ErrorString "input is not a map[string]interface{}"))) in
  (∀ v, performAutomaticMigration m migration (AVal v) = Ok (AVal v)) ∧
  (∀ a, kindOf a = KindOther ∨ kindOf a = KindPtr →
        performAutomaticMigration m migration (APtr a) = Ok (APtr a)) ∧
  performAutomaticMigration m migration ATypedMap = failed ∧
  (∀ a, kindOf a = KindMap → performAutomaticMigration m migration (APtr a) = failed) ∧
  (∀ fields, performAutomaticMigration m migration (APtr (AStruct fields))
             = performAutomaticMigration m migration (AStruct fields)) ∧
  (∀ fields out, performAutomaticMigration m migration (AStruct fields) = Ok out →
                 ∃ outMap, out = AMap outMap) ∧
  (FieldMappings migration = [] →
   ∀ inputMap, performAutomaticMigration m migration (AMap inputMap) = Ok (AMap inputMap)).
Proof.
  cbn zeta. split; [intros [| | |]; reflexivity|].
  split; [intros a [H|H]; unfold performAutomaticMigration; now rewrite H|].
  split; [reflexivity|].
  split; [intros a H; unfold performAutomaticMigration; rewrite H; reflexivity|].
  split; [reflexivity|]. split.
  - intros fields out. unfold performAutomaticMigration, migrateStructData. cbn [kindOf].
    destruct (structToMap (AStruct fields)) as [inputMap|e]; [|discriminate].
    unfold migrateMapData.
    destruct (applyMappings inputMap (FieldMappings migration) ∅); [|discriminate].
    intros [= <-]. eauto.
  - intros Hnil inputMap. unfold performAutomaticMigration, migrateMapData. cbn [kindOf].
    rewrite Hnil. cbn [applyMappings]. now rewrite copyUnmapped_nil.
Qed.

Lemma performAutomaticMigration_kinds_witness :
  performAutomaticMigration (NewMigrator "users")
    (mkVersionMigration (NewVersion 1 0 0) (NewVersion 2 0 0) MigrationStrategyAutomatic []
       None false "" ∅) (AMap exampleInput)
  = Ok (AMap exampleInput).
Proof.
  refine (proj2 (proj2 (proj2 (proj2 (proj2 (proj2
            (performAutomaticMigration_kinds (NewMigrator "users")
               (mkVersionMigration (NewVersion 1 0 0) (NewVersion 2 0 0)
                  MigrationStrategyAutomatic [] None false "" ∅))))))) _ exampleInput).
  reflexivity.
Defined.

(** A struct is migrated through its exported fields, keyed by their json
    tags where present; what comes out is a map. *)
Example migrateStructData_example :
  performAutomaticMigration (NewMigrator "users")
    (mkVersionMigration (NewVersion 1 0 0) (NewVersion 2 0 0) MigrationStrategyAutomatic
       [mkFieldMapping "name" "display_name" "" VNil true] None false "" ∅)
    (APtr (AStruct [mkStructField "Name" "name" true (VString "Ann");
                    mkStructField "Age" "" true (VInt 30);
                    mkStructField "Skipped" "-" true (VBool true);
                    mkStructField "secret" "" false (VString "x")]))
  = Ok (AMap {[ "display_name" := VString "Ann"; "Age" := VInt 30;
                "Skipped" := VBool true ]}).
Proof. vm_compute. reflexivity. Qed.

(* ===================================================================== *)
(** ** Further properties of the metrics collector                        *)
(* ===================================================================== *)









Example GetUsageStats_most_least_example :
  (fun stats => (MostUsedVersion stats, LeastUsedVersion stats, LastActivity stats))
    <$> GetUsageStats
          (RecordRequest
             (RecordRequest
                (RecordRequest NewDefaultMetricsCollector "users" (NewVersion 1 0 0)
                   "2024-01-01T00:00:00Z")
                "users" (NewVersion 2 0 0) "2024-01-03T00:00:00Z")
             "users" (NewVersion 1 0 0) "2024-01-02T00:00:00Z")
          "users" [("v1.0.0", 2); ("v2.0.0", 1)] []
  = Some ("v1.0.0", "v2.0.0", "2024-01-03T00:00:00Z").
Proof. vm_compute. reflexivity. Qed.

(** X27.  Metrics are kept per component: recording a request or an error
    for one component, or resetting it, changes nothing that
    [GetUsageStats] reports for another component; after [ResetComponent]
    the component has no statistics, after [Reset] no component has. *)
Theorem metrics_per_component (c : DefaultMetricsCollector) (component other : string)
    (version : Version) (now : string) (requestOrder errorOrder : list (string * Z)) :
  other ≠ component →
  GetUsageStats (RecordRequest c component version now) other requestOrder errorOrder
  = GetUsageStats c other requestOrder errorOrder ∧
  GetUsageStats (RecordError c component version) other requestOrder errorOrder
  = GetUsageStats c other requestOrder errorOrder ∧
  GetUsageStats (ResetComponent c component) other requestOrder errorOrder
  = GetUsageStats c other requestOrder errorOrder ∧
  GetUsageStats (ResetComponent c component) component requestOrder errorOrder = None ∧
  GetUsageStats (Reset c) other requestOrder errorOrder = None ∧
  GetUsageStats (Reset c) component requestOrder errorOrder = None.
Proof.
  intros Hne. unfold GetUsageStats, GetMetrics, RecordRequest, RecordError,
    ResetComponent, Reset. cbn [metrics].
  rewrite !lookup_insert_ne, lookup_delete_ne, lookup_delete_eq, !lookup_empty by congruence.
  repeat split.
Qed.

Lemma metrics_per_component_witness :
  GetUsageStats
    (RecordRequest (RecordError NewDefaultMetricsCollector "orders" (NewVersion 1 0 0))
       "users" (NewVersion 1 0 0) "2024-01-01T00:00:00Z")
    "orders" [] [("v1.0.0", 1)]
  = GetUsageStats (RecordError NewDefaultMetricsCollector "orders" (NewVersion 1 0 0))
      "orders" [] [("v1.0.0", 1)].
Proof.
  refine (proj1 (metrics_per_component
                   (RecordError NewDefaultMetricsCollector "orders" (NewVersion 1 0 0))
                   "users" "orders" (NewVersion 1 0 0) "2024-01-01T00:00:00Z"
                   [] [("v1.0.0", 1)] _)).
  discriminate.
Defined.

(** The counters are keyed by the version string: two versions that
    [Compare] as equal are counted apart when they print differently. *)
Example metrics_keyed_by_string :
  Compare (ParseVersion "v1") (NewVersion 1 0 0) = 0 ∧
  (VersionMetrics
     <$> GetMetrics
           (RecordRequest
              (RecordRequest NewDefaultMetricsCollector "users" (ParseVersion "v1") "t1")
              "users" (NewVersion 1 0 0) "t2") "users")
  = Some {[ "v1" := 1; "v1.0.0" := 1 ]}.
Proof. split; vm_compute; reflexivity. Qed.

(* ===================================================================== *)
(** ** The compatibility matrix                                           *)
(* ===================================================================== *)

Lemma cutFirst_sound (c : ascii) (s cur a b : string) :
  cutFirst (String c "") cur s = Some (a, b) → cur +:+ s = a +:+ String c b.
Proof.
  revert cur. induction s as [|x s IH]; intros cur.
  - cbn. discriminate.
  - cbn [cutFirst]. rewrite HasPrefix_byte.
    destruct (Ascii.eqb_spec x c) as [-> | Hne].
    + intros [= <- <-]. reflexivity.
    + intros H. apply IH in H. now rewrite snoc_append in H.
Qed.

Lemma SplitN2_matrixKey (component version : string) :
  hasByte ":" component = false →
  SplitN2 (matrixKey component version) ":" = [component; version].
Proof.
  intros Hno. unfold SplitN2, matrixKey.
  change (component +:+ ":" +:+ version) with (component +:+ String ":" version).
  rewrite (cutFirst_first ":" "" component version Hno). now rewrite append_nil_l.
Qed.

Lemma SplitN2_two (targetKey component version : string) :
  SplitN2 targetKey ":" = [component; version] → targetKey = matrixKey component version.
Proof.
  unfold SplitN2. destruct (cutFirst ":" "" targetKey) as [[a b]|] eqn:E; [|discriminate].
  intros [= -> ->]. apply cutFirst_sound in E. now rewrite append_nil_l in E.
Qed.

(** What the loop of [GetCompatibleVersions] has collected. *)
Lemma compatibleStep_fold (order : list (string * bool)) (result : gmap string (list string))
    (component version : string) :
  version ∈ default [] (fold_left compatibleStep order result !! component) ↔
  version ∈ default [] (result !! component) ∨
  ∃ targetKey, (targetKey, true) ∈ order ∧ SplitN2 targetKey ":" = [component; version].
Proof.
  revert result. induction order as [|[targetKey compatible] order IH]; intros result.
  - cbn. split; [auto|]. intros [H | (tk & H & _)]; [exact H | inversion H].
  - cbn [fold_left]. rewrite IH. clear IH. unfold compatibleStep.
    split.
    + intros [H | (tk & Hin & Hsplit)].
      * destruct compatible; [|auto].
        destruct (SplitN2 targetKey ":") as [|p0 [|p1 [|p2 ps]]] eqn:E; auto.
        destruct (decide (p0 = component)) as [-> | Hne].
        -- rewrite lookup_insert_eq in H. cbn [default from_option id] in H.
           apply elem_of_app in H as [H | H%list_elem_of_singleton]; [auto|].
           subst p1. right. exists targetKey. split; [apply list_elem_of_here | exact E].
        -- rewrite lookup_insert_ne in H by exact Hne. auto.
      * right. exists tk. split; [now apply list_elem_of_further | exact Hsplit].
    + intros [H | (tk & Hin & Hsplit)].
      * left. destruct compatible; [|exact H].
        destruct (SplitN2 targetKey ":") as [|p0 [|p1 [|p2 ps]]] eqn:E; auto.
        destruct (decide (p0 = component)) as [-> | Hne].
        -- rewrite lookup_insert_eq. cbn [default from_option id].
           apply elem_of_app. now left.
        -- now rewrite lookup_insert_ne by exact Hne.
      * apply elem_of_cons in Hin as [[= <- <-] | Hin].
        -- left. rewrite Hsplit, lookup_insert_eq. cbn [default from_option id].
           apply elem_of_app. right. apply list_elem_of_here.
        -- right. eauto.
Qed.

(** X28.  The compatibility matrix: [IsCompatible] returns what the last
    [SetCompatible] for the same two keys stored, other pairs of keys are
    not affected, and a new matrix holds nothing.  Whatever order the row is
    enumerated in, a version listed by [GetCompatibleVersions] under a
    component is compatible by [IsCompatible], and every compatible
    (component, version) is listed provided the component name has no
    ':' (the keys are cut at their first ':'). *)
Theorem matrix_set_get (vcm : VersionCompatibilityMatrix)
    (component1 version1 component2 version2 : string) (compatible : bool) :
  Matrix_IsCompatible (SetCompatible vcm component1 version1 component2 version2 compatible)
    component1 version1 component2 version2 = compatible ∧
  (∀ c1 v1 c2 v2,
      matrixKey c1 v1 ≠ matrixKey component1 version1 ∨
      matrixKey c2 v2 ≠ matrixKey component2 version2 →
      Matrix_IsCompatible
        (SetCompatible vcm component1 version1 component2 version2 compatible) c1 v1 c2 v2
      = Matrix_IsCompatible vcm c1 v1 c2 v2) ∧
  Matrix_IsCompatible NewVersionCompatibilityMatrix component1 version1 component2 version2
  = false ∧
  ∀ versions order,
    vcm !! matrixKey component1 version1 = Some versions →
    order ≡ₚ map_to_list versions →
    (version2 ∈ default [] (Matrix_GetCompatibleVersions vcm component1 version1 order
                              !! component2) →
     Matrix_IsCompatible vcm component1 version1 component2 version2 = true) ∧
    (hasByte ":" component2 = false →
     Matrix_IsCompatible vcm component1 version1 component2 version2 = true →
     version2 ∈ default [] (Matrix_GetCompatibleVersions vcm component1 version1 order
                              !! component2)).
Proof.
  split; [|split; [|split]].
  - unfold Matrix_IsCompatible, SetCompatible, VersionCompatibilityMatrix in *. cbn zeta.
    rewrite lookup_insert_eq. cbn [default from_option id]. now rewrite lookup_insert_eq.
  - intros c1 v1 c2 v2 Hne.
    unfold Matrix_IsCompatible, SetCompatible, VersionCompatibilityMatrix in *. cbn zeta.
    destruct (decide (matrixKey component1 version1 = matrixKey c1 v1)) as [Heq | Hk].
    + rewrite <- Heq, lookup_insert_eq.
      destruct Hne as [Hne | Hne]; [congruence|].
      rewrite lookup_insert_ne by congruence.
      now destruct (vcm !! matrixKey component1 version1).
    + now rewrite lookup_insert_ne by exact Hk.
  - reflexivity.
  - intros versions order Hrow Hperm.
    unfold Matrix_GetCompatibleVersions, Matrix_IsCompatible, VersionCompatibilityMatrix in *.
    cbn zeta. rewrite Hrow.
    rewrite compatibleStep_fold, lookup_empty. cbn [default from_option id].
    split.
    + intros [H | (tk & Hin & Hsplit)]; [inversion H|].
      apply SplitN2_two in Hsplit. subst tk.
      rewrite Hperm in Hin. apply elem_of_map_to_list in Hin. now rewrite Hin.
    + intros Hno Htrue. right. exists (matrixKey component2 version2).
      split; [|now apply SplitN2_matrixKey].
      rewrite Hperm. apply elem_of_map_to_list.
      destruct (versions !! matrixKey component2 version2) as [[|]|];
        [reflexivity | discriminate..].
Qed.

Lemma matrix_set_get_witness :
  "v2.0.0" ∈ default []
    (Matrix_GetCompatibleVersions
       (SetCompatible NewVersionCompatibilityMatrix "users" "v1.0.0" "orders" "v2.0.0" true)
       "users" "v1.0.0" [("orders:v2.0.0", true)] !! "orders").
Proof.
  refine (proj2 (proj2 (proj2 (proj2 (matrix_set_get
            (SetCompatible NewVersionCompatibilityMatrix "users" "v1.0.0" "orders" "v2.0.0"
               true)
            "users" "v1.0.0" "orders" "v2.0.0" true)))
            {[ "orders:v2.0.0" := true ]} [("orders:v2.0.0", true)] _ _) _ _).
  - reflexivity.
  - vm_compute. reflexivity.
  - reflexivity.
  - reflexivity.
Defined.

(** Compatibility is stored one way, and a component name with ':' is
    listed under the part before its first ':'. *)
Example matrix_edge_cases :
  let vcm := SetCompatible NewVersionCompatibilityMatrix "users" "v1" "eu:orders" "v2" true in
  Matrix_IsCompatible vcm "users" "v1" "eu:orders" "v2" = true ∧
  Matrix_IsCompatible vcm "eu:orders" "v2" "users" "v1" = false ∧
  Matrix_IsCompatible vcm "users" "v1" "eu" "orders:v2" = true ∧
  Matrix_GetCompatibleVersions vcm "users" "v1" [("eu:orders:v2", true)]
  = {[ "eu" := ["orders:v2"] ]}.
Proof. vm_compute. repeat split. Qed.

(* ===================================================================== *)
(** ** Version ranges as intervals                                        *)
(* ===================================================================== *)

(** X29.  A range given by bounds is an interval of the order of
    [Compare]: a version between two contained versions is contained.
    Every version returned by [Versions] is contained in the range, for a
    list of exact versions and for bounds with Min not above Max; with both
    bounds set and Min above Max the range contains no version at all
    (while [Versions] still returns the two bounds). *)
Theorem range_is_interval (vr : VersionRange) :
  (Exact vr = [] →
   ∀ a b c, Compare a b ≤ 0 → Compare b c ≤ 0 →
            Contains_ vr a = true → Contains_ vr c = true → Contains_ vr b = true) ∧
  (Exact vr ≠ [] ∨ Compare (Min vr) (Max vr) ≤ 0 →
   ∀ v, v ∈ Versions vr → Contains_ vr v = true) ∧
  (Exact vr = [] → IsZero (Min vr) = false → IsZero (Max vr) = false →
   0 < Compare (Min vr) (Max vr) →
   Versions vr = [Min vr; Max vr] ∧ ∀ v, Contains_ vr v = false).
Proof.
  unfold Contains_, Versions. split; [|split].
  - intros -> a b c Hab Hbc. cbn [length Nat.ltb Nat.leb].
    destruct (IsZero (Min vr)), (IsZero (Max vr)); cbn [negb andb];
      rewrite ?Z.gtb_ltb;
      repeat match goal with
             | |- context [?x <? ?y] => destruct (Z.ltb_spec x y)
             end; try discriminate; try reflexivity; intros _ _; exfalso.
    all: try (pose proof (Compare_le_trans _ _ _ Hab Hbc);
              pose proof (Compare_neg a b); pose proof (Compare_neg b c)).
    all: try (assert (Compare (Min vr) b ≤ 0)
                by (apply (Compare_le_trans _ a _); [pose proof (Compare_neg a (Min vr)); lia | exact Hab]);
              pose proof (Compare_neg b (Min vr)); lia).
    all: try (assert (Compare b (Max vr) ≤ 0)
                by (apply (Compare_le_trans _ c _); [exact Hbc | lia]);
              lia).
  - intros Hok v. destruct (Exact vr) as [|e es] eqn:E.
    + destruct Hok as [Hok | Hok]; [congruence|]. cbn [length Nat.ltb Nat.leb].
      destruct (IsZero (Min vr)), (IsZero (Max vr)); cbn [negb andb];
        try (intros H; inversion H; fail).
      intros [-> | [-> | H]%elem_of_cons]%elem_of_cons; [| |inversion H];
        rewrite ?Compare_refl, ?Z.gtb_ltb; cbn [Z.ltb Z.compare].
      * destruct (Z.ltb_spec 0 (Compare (Min vr) (Max vr))); [lia | reflexivity].
      * pose proof (Compare_neg (Max vr) (Min vr)).
        destruct (Z.ltb_spec (Compare (Max vr) (Min vr)) 0); [lia | reflexivity].
    + intros Hv. cbn [length Nat.ltb Nat.leb].
      apply existsb_exists. exists v. split; [now apply list_elem_of_In|].
      unfold sameTriple. now rewrite !Z.eqb_refl.
  - intros -> Hmin Hmax Hgt. rewrite Hmin, Hmax. cbn [length Nat.ltb Nat.leb negb andb].
    split; [reflexivity|]. intros v. rewrite Z.gtb_ltb.
    destruct (Z.ltb_spec (Compare v (Min vr)) 0); [reflexivity|].
    destruct (Z.ltb_spec 0 (Compare v (Max vr))); [reflexivity|]. exfalso.
    assert (Compare (Min vr) v ≤ 0) by (pose proof (Compare_neg v (Min vr)); lia).
    pose proof (Compare_le_trans (Min vr) v (Max vr)). lia.
Qed.

Lemma range_is_interval_witness :
  Contains_ (NewVersionRange (NewVersion 1 0 0) (NewVersion 2 0 0)) (NewVersion 1 5 0) = true.
Proof.
  refine (proj1 (range_is_interval (NewVersionRange (NewVersion 1 0 0) (NewVersion 2 0 0)))
            _ (NewVersion 1 0 0) (NewVersion 1 5 0) (NewVersion 2 0 0) _ _ _ _).
  - reflexivity.
  - discriminate.
  - discriminate.
  - reflexivity.
  - reflexivity.
Defined.

Example empty_range :
  Contains_ (NewVersionRange (NewVersion 2 0 0) (NewVersion 1 0 0)) (NewVersion 1 5 0) = false ∧
  Versions (NewVersionRange (NewVersion 2 0 0) (NewVersion 1 0 0))
  = [NewVersion 2 0 0; NewVersion 1 0 0].
Proof. split; reflexivity. Qed.
